(** * weekly-calendar: the scheduling engine

    A shallow embedding of the scheduling core of the weekly calendar
    (src/lib/schedule.ts, src/lib/data.ts, src/lib/commands.ts, the drag
    resolver of src/components/WeekGrid.tsx and the batch signature of
    src/App.tsx), followed by the properties proved about it.

    Conventions of the embedding.
    - luxon is a trusted library.  A valid [DateTime] is the number of
      milliseconds of local time since 1970-01-01T00:00 in a zone with a
      fixed offset, so that a calendar day is 86400000 ms.  An ISO timestamp
      string stored in a block stands for the instant it denotes; an ISO
      date string ([startDate], [until], an entry of [exceptions]) stands
      for its day number, and [None] for a string luxon cannot parse.
    - A JS number that the code computes by dividing milliseconds (the
      [minutes] of a luxon [diff]) is a rational; counters, minute offsets
      and intervals are integers.  Where the code itself divides and
      subtracts epoch milliseconds ([durationMinutes]), the numbers are the
      IEEE 754 doubles they are, with the operations of the Standard
      Library's specification of floating-point arithmetic.
    - Every operation of commands.ts starts with [loadBlocks] and ends with
      [saveBlocks]; the functions below are the part in between, on the
      loaded array.  The pass that [loadBlocks] makes over the recurring
      blocks is embedded on its own, as [extendRecurringBlocks]; a
      statement about two operations in a row says whether the second one
      is applied to the array that the first one left or to what
      [loadBlocks] makes of that array.
    - The clock and the random source are read through [now] and [nid],
      indexed by the number of readings taken so far. *)

From Stdlib Require Import ZArith QArith Qround Lia.
From Stdlib Require SpecFloat.
From stdpp Require Import base option list strings pretty sorting.

Local Open Scope Z_scope.

(** ** luxon: the part of DateTime the code uses *)

Module Luxon.

Definition DateTime := Z.

Definition MS_PER_MINUTE : Z := 60000.
Definition MS_PER_HOUR : Z := 3600000.
Definition MS_PER_DAY : Z := 86400000.

(** [dt.toISODate()], as a day number. *)
Definition toISODate (dt : DateTime) : Z := dt / MS_PER_DAY.

(** [DateTime.fromISO] of a date-only string: local midnight of that day. *)
Definition ofISODate (day : Z) : DateTime := day * MS_PER_DAY.

(** [dt.startOf('day')] and [dt.set({hour:0, minute:0, second:0, millisecond:0})]. *)
Definition startOfDay (dt : DateTime) : DateTime := ofISODate (toISODate dt).

(** [dt.endOf('day')]: the last millisecond of the day. *)
Definition endOfDay (dt : DateTime) : DateTime := startOfDay dt + MS_PER_DAY - 1.

Definition hour (dt : DateTime) : Z := (dt mod MS_PER_DAY) / MS_PER_HOUR.
Definition minute (dt : DateTime) : Z := (dt mod MS_PER_HOUR) / MS_PER_MINUTE.

(** [dt.weekday]: 1 is Monday, 7 is Sunday; day 0 was a Thursday. *)
Definition weekday (dt : DateTime) : Z := (toISODate dt + 3) mod 7 + 1.

(** [dt.startOf('week')]: the Monday of the ISO week. *)
Definition startOfWeek (dt : DateTime) : DateTime :=
  ofISODate (toISODate dt - (weekday dt - 1)).

(** [a.diff(b, 'minutes').minutes]: exact, fractional when the instants
    are not a whole number of minutes apart. *)
Definition diff_minutes (a b : DateTime) : Q := Qmake (a - b) 60000.

(** [a.diff(b, 'days').days] and [a.diff(b, 'weeks').weeks]. *)
Definition diff_days (a b : DateTime) : Q := Qmake (a - b) 86400000.
Definition diff_weeks (a b : DateTime) : Q := Qmake (a - b) 604800000.

(** [dt.plus({ minutes: m })]: m * 60000 ms later. *)
Definition plus_minutes (dt : DateTime) (m : Q) : DateTime :=
  dt + Qfloor (m * inject_Z MS_PER_MINUTE).

(** [dt.plus({ days: n })]. *)
Definition plus_days (dt : DateTime) (n : Z) : DateTime := dt + n * MS_PER_DAY.

(** The day number of a civil date of the proleptic Gregorian calendar,
    used to write dates such as 2024-01-01 in examples. *)
Definition civil (y m d : Z) : Z :=
  let y' := if m <=? 2 then y - 1 else y in
  let era := y' / 400 in
  let yoe := y' - era * 400 in
  let mp := (m + 9) mod 12 in
  let doy := (153 * mp + 2) / 5 + d - 1 in
  let doe := yoe * 365 + yoe / 4 - yoe / 100 + doy in
  era * 146097 + doe - 719468.

(** A local time of day on a civil date, as an instant. *)
Definition at_ (y m d hh mm : Z) : DateTime :=
  ofISODate (civil y m d) + hh * MS_PER_HOUR + mm * MS_PER_MINUTE.

End Luxon.

Import Luxon.

(** ** src/lib/schedule.ts *)

Definition SNAP_MIN : Z := 15.
Definition MINUTES_PER_DAY : Z := 24 * 60.

Definition minutesSinceMidnight (dt : DateTime) : Z := hour dt * 60 + minute dt.

(** [Math.round]: the nearest integer, halves going up. *)
Definition Math_round (q : Q) : Z := Qfloor (q + (1 # 2)).

(** The JS numbers of [durationMinutes]: binary64, rounding to nearest,
    ties to even. *)
Module Number.

Definition double := SpecFloat.spec_float.

(** The double nearest to an integer (the integer itself below 2^53). *)
Definition of_Z (z : Z) : double := SpecFloat.binary_normalize 53 1024 z 0 false.

Definition div (x y : double) : double := SpecFloat.SFdiv 53 1024 x y.
Definition sub (x y : double) : double := SpecFloat.SFsub 53 1024 x y.

(** The exact value of a finite double; [None] for NaN and the infinities. *)
Definition to_Q (x : double) : option Q :=
  match x with
  | SpecFloat.S754_zero _ => Some (inject_Z 0)
  | SpecFloat.S754_finite s m e =>
      let v := if e <? 0 then Qmake (Z.pos m) (Z.to_pos (2 ^ (- e)))
               else inject_Z (Z.pos m * 2 ^ e) in
      Some (if s then Qopp v else v)
  | _ => None
  end.

End Number.

(** [dt.toMillis()]: the epoch milliseconds, which are the local ones less
    the offset of the zone (in minutes). *)
Definition toMillis (offset : Z) (dt : DateTime) : Z := dt - offset * MS_PER_MINUTE.

(** [Math.max(0, Math.round(b.toMillis()/60000 - a.toMillis()/60000))];
    [None] would be NaN. *)
Definition durationMinutes (offset : Z) (a b : DateTime) : option Z :=
  let minutes dt := Number.div (Number.of_Z (toMillis offset dt)) (Number.of_Z 60000) in
  (λ q, Z.max 0 (Math_round q)) <$> Number.to_Q (Number.sub (minutes b) (minutes a)).

Definition snapMinutes (mins step : Z) : Z :=
  Z.max 0 (Math_round (inject_Z mins / inject_Z step) * step).

Definition clamp (v lo hi : Z) : Z := Z.min hi (Z.max lo v).

Definition isoForDayAndMinutes (weekStartISO : DateTime) (dayIndex minutes : Z) : DateTime :=
  let d := startOfDay (plus_days weekStartISO dayIndex) in
  let mm := clamp minutes 0 MINUTES_PER_DAY in
  plus_minutes d (inject_Z mm).

Definition isoForDateAndMinutes (dateISO : DateTime) (minutes : Z) : DateTime :=
  let d := startOfDay dateISO in
  let mm := clamp minutes 0 MINUTES_PER_DAY in
  plus_minutes d (inject_Z mm).

Definition overlaps (aStart aEnd bStart bEnd : Z) : bool :=
  bool_decide (Z.max aStart bStart < Z.min aEnd bEnd).

(** ** src/lib/data.ts *)

Inductive BlockStatus := planned | in_progress | done | skipped.

Global Instance BlockStatus_eq_dec : EqDecision BlockStatus.
Proof. solve_decision. Defined.

Inductive RecurrenceType := daily | weekly.

(** An ISO date string: its day number, or [None] when luxon cannot parse it. *)
Definition ISODate := option Z.

Record BlockRecurrence := {
  r_id : string;
  r_type : RecurrenceType;
  interval : Z;
  daysOfWeek : option (list Z);
  startDate : ISODate;
  startMinute : option Z;          (* [None] is NaN, stored as null, which luxon adds as 0 *)
  duration : Q;
  until : option ISODate;          (* [None] is undefined, null or the empty string *)
  exceptions : option (list Z);    (* the days of the ISO dates to skip *)
}.

Record Block := {
  block_id : string;
  task_id : option string;
  title : option string;
  notes_override : option string;
  start : DateTime;
  end_ : DateTime;
  status : BlockStatus;
  rev : Z;
  recurrence : option BlockRecurrence;
}.

Record ChecklistItem := { ci_id : string; ci_text : string; ci_done : bool }.

(** The free-form recurrence annotation of a task: a JS object, as its
    key/value pairs in insertion order. *)
Definition TaskRecurrence := list (string * string).

Record Task := {
  tk_task_id : string;
  tk_title : string;
  tk_notes : option string;
  tk_checklist : option (list ChecklistItem);
  tk_priority : option Z;
  tk_tags : option (list string);
  tk_created_at : option DateTime;
  tk_updated_at : option DateTime;
  tk_recurrence : option TaskRecurrence;
}.

(** A [Partial<Task>]: the fields a patch carries. *)
Record TaskPatch := {
  pt_task_id : option string;
  pt_title : option string;
  pt_notes : option (option string);
  pt_checklist : option (option (list ChecklistItem));
  pt_priority : option (option Z);
  pt_tags : option (option (list string));
  pt_created_at : option (option DateTime);
  pt_updated_at : option (option DateTime);
  pt_recurrence : option (option TaskRecurrence);
}.

Record CreateTaskPayload := {
  ct_task_id : option string;
  ct_title : option string;
  ct_notes : option string;
  ct_priority : option Z;
  ct_tags : option (list string);
  ct_recurrence : option TaskRecurrence;
  ct_checklist : option (list ChecklistItem);
}.

Record CreateBlockPayload := {
  cb_block_id : option string;
  cb_task_id : option string;
  cb_title : option string;
  cb_start : DateTime;
  cb_end : DateTime;
  cb_recurrence : option BlockRecurrence;
}.

(** The [command] of an [AICommandEnvelope], one constructor per member of
    the union; [other_command t] is a tag [t] outside the union, which
    [parseJSONL] lets through unchecked. *)
Inductive Command :=
  | create_task (p : CreateTaskPayload)
  | create_block (p : CreateBlockPayload)
  | move_block (p_block_id : string) (p_new_start : DateTime)
  | resize_block (p_block_id : string) (p_new_end : DateTime)
  | complete_block (p_block_id : string)
  | update_task (p_task_id : string) (p_patch : option TaskPatch)
  | set_recurrence (p_task_id : string) (p_rrule : string)
  | add_checklist_item
  | set_checklist_state
  | other_command (t : string).

(** [env_command] is [None] for a line that is JSON but has no [command]
    object: reading [command.type] then throws a TypeError. *)
Record AICommandEnvelope := {
  env_id : option string;
  env_command : option Command;
}.

(** ** Field updates (assignments to one property of an object) *)

Definition set_status (b : Block) (s : BlockStatus) : Block :=
  {| block_id := block_id b; task_id := task_id b; title := title b;
     notes_override := notes_override b; start := start b; end_ := end_ b;
     status := s; rev := rev b; recurrence := recurrence b |}.

Definition set_start (b : Block) (t : DateTime) : Block :=
  {| block_id := block_id b; task_id := task_id b; title := title b;
     notes_override := notes_override b; start := t; end_ := end_ b;
     status := status b; rev := rev b; recurrence := recurrence b |}.

Definition set_end (b : Block) (t : DateTime) : Block :=
  {| block_id := block_id b; task_id := task_id b; title := title b;
     notes_override := notes_override b; start := start b; end_ := t;
     status := status b; rev := rev b; recurrence := recurrence b |}.

Definition set_rev (b : Block) (n : Z) : Block :=
  {| block_id := block_id b; task_id := task_id b; title := title b;
     notes_override := notes_override b; start := start b; end_ := end_ b;
     status := status b; rev := n; recurrence := recurrence b |}.

Definition set_recurrence_of (b : Block) (r : option BlockRecurrence) : Block :=
  {| block_id := block_id b; task_id := task_id b; title := title b;
     notes_override := notes_override b; start := start b; end_ := end_ b;
     status := status b; rev := rev b; recurrence := r |}.

(** [b.rev = (b.rev || 0) + 1] *)
Definition bump_rev (b : Block) : Block := set_rev b (rev b + 1).

Definition set_duration (r : BlockRecurrence) (d : Q) : BlockRecurrence :=
  {| r_id := r_id r; r_type := r_type r; interval := interval r;
     daysOfWeek := daysOfWeek r; startDate := startDate r;
     startMinute := startMinute r; duration := d; until := until r;
     exceptions := exceptions r |}.

Definition set_exceptions (r : BlockRecurrence) (e : option (list Z)) : BlockRecurrence :=
  {| r_id := r_id r; r_type := r_type r; interval := interval r;
     daysOfWeek := daysOfWeek r; startDate := startDate r;
     startMinute := startMinute r; duration := duration r; until := until r;
     exceptions := e |}.

(** ** src/lib/commands.ts: recurrence rules *)

Definition cloneRecurrence (rec : option BlockRecurrence) : option BlockRecurrence :=
  match rec with
  | None => None
  | Some rec =>
      Some {| r_id := r_id rec; r_type := r_type rec; interval := interval rec;
              daysOfWeek := daysOfWeek rec; startDate := startDate rec;
              startMinute := startMinute rec; duration := duration rec;
              until := until rec; exceptions := exceptions rec |}
  end.

Definition ensureExceptions (rec : option BlockRecurrence) : option BlockRecurrence :=
  match rec with
  | Some r => match exceptions r with
              | None => Some (set_exceptions r (Some []))
              | Some _ => Some r
              end
  | None => None
  end.

Definition includes (l : list Z) (x : Z) : bool := bool_decide (x ∈ l).

Definition shouldIncludeDate (rec : BlockRecurrence) (date : DateTime) : bool :=
  match startDate rec with
  | None => false                                   (* !anchor.isValid *)
  | Some a =>
      let anchor := ofISODate a in
      let beyond :=
        match until rec with
        | Some (Some u) => bool_decide (endOfDay (ofISODate u) < startOfDay date)
        | _ => false                                (* no limit, or an invalid one *)
        end in
      if beyond then false
      else if bool_decide (date < anchor) then false
      else if includes (default [] (exceptions rec)) (toISODate date) then false
      else
        match r_type rec with
        | daily =>
            let diff := Qfloor (diff_days (startOfDay date) (startOfDay anchor)) in
            bool_decide (0 <= diff) && bool_decide (Z.rem diff (Z.max 1 (interval rec)) = 0)
        | weekly =>
            let days := match daysOfWeek rec with
                        | Some (d :: l) => d :: l
                        | _ => [weekday anchor]
                        end in
            if negb (includes days (weekday date)) then false
            else
              let diffWeeks := Qfloor (diff_weeks (startOfWeek date) (startOfWeek anchor)) in
              bool_decide (0 <= diffWeeks)
              && bool_decide (Z.rem diffWeeks (Z.max 1 (interval rec)) = 0)
        end
  end.

(** [anchor] is [None] for an invalid DateTime, whose [toISODate()] is null
    and whose [hour] and [minute] are NaN. *)
Definition setRecurrenceAnchor (rec : BlockRecurrence) (anchor : option DateTime) : BlockRecurrence :=
  {| r_id := r_id rec; r_type := r_type rec; interval := interval rec;
     daysOfWeek := daysOfWeek rec;
     startDate := toISODate <$> anchor;
     startMinute := (λ a, hour a * 60 + minute a) <$> anchor;
     duration := duration rec; until := until rec; exceptions := exceptions rec |}.

(** ** src/lib/commands.ts: the helpers called from the UI *)

(** What a JS function call completes with. *)
Inductive Exn := Error (msg : string) | TypeError | SyntaxError.

Inductive Completion (A : Type) :=
  | Return (a : A)
  | Throw (e : Exn).
Arguments Return {A} a.
Arguments Throw {A} e.

(** [String(e)] *)
Definition String_of_exn (e : Exn) : string :=
  match e with
  | Error msg => "Error: " +:+ msg
  | TypeError => "TypeError"
  | SyntaxError => "SyntaxError"
  end.

(** [blocks.find(x => x.block_id === id)] together with the position of the
    block found, the object that the code then mutates in place. *)
Definition findBlock (blocks : list Block) (id : string) : option (nat * Block) :=
  list_find (λ x, block_id x = id) blocks.

Definition findTask (tasks : list Task) (id : string) : option (nat * Task) :=
  list_find (λ x, tk_task_id x = id) tasks.

(** [b.recurrence?.id] when it is truthy. *)
Definition recurrence_id (b : Block) : option string :=
  match recurrence b with
  | Some r => if bool_decide (r_id r = "") then None else Some (r_id r)
  | None => None
  end.

(** [other.recurrence?.id === recId] *)
Definition in_series (recId : string) (other : Block) : bool :=
  match recurrence other with
  | Some r => bool_decide (r_id r = recId)
  | None => false
  end.

Definition toggleBlockDone (blocks : list Block) (id : string)
  : Completion (list Block * BlockStatus) :=
  match findBlock blocks id with
  | None => Throw (Error "NOT_FOUND: block")
  | Some (i, b) =>
      let b' := set_status b (if bool_decide (status b = done) then planned else done) in
      Return (<[i := b']> blocks, status b')
  end.

(** The first statements of [moveBlock], shared with the [move_block]
    command: the block keeps the minutes between its stored start and end. *)
Definition move_to (b : Block) (newStartISO : DateTime) : Block :=
  let dur := diff_minutes (end_ b) (start b) in
  bump_rev (set_end (set_start b newStartISO) (plus_minutes newStartISO dur)).

Definition moveBlock (blocks : list Block) (id : string) (newStartISO : DateTime)
  : Completion (list Block) :=
  match findBlock blocks id with
  | None => Throw (Error "NOT_FOUND: block")
  | Some (i, b0) =>
      let b := move_to b0 newStartISO in
      match recurrence b, recurrence_id b with
      | Some rec, Some recId =>
          let delta := diff_minutes newStartISO (start b0) in
          let newDur := diff_minutes (end_ b) (start b) in
          let anchor :=
            a ← startDate rec;
            Some (plus_minutes
                    (plus_minutes (ofISODate a) (inject_Z (default 0 (startMinute rec))))
                    delta) in
          let rec' := set_duration (setRecurrenceAnchor rec anchor) newDur in
          let b' := set_recurrence_of b (Some rec') in
          let shift (other : Block) : Block :=
            if bool_decide (block_id other = id) then other
            else if in_series recId other && negb (bool_decide (status other = done)) then
              let os := plus_minutes (start other) delta in
              let oe := plus_minutes (end_ other) delta in
              bump_rev (set_recurrence_of (set_end (set_start other os) oe)
                          (cloneRecurrence (Some rec')))
            else other in
          Return (shift <$> <[i := b']> blocks)
      | _, _ => Return (<[i := b]> blocks)
      end
  end.

Definition resizeBlock (blocks : list Block) (id : string) (newEndISO : DateTime)
  : Completion (list Block) :=
  match findBlock blocks id with
  | None => Throw (Error "NOT_FOUND: block")
  | Some (i, b0) =>
      let b := bump_rev (set_end b0 newEndISO) in
      match recurrence b, recurrence_id b with
      | Some rec, Some recId =>
          let newDur := diff_minutes newEndISO (start b) in
          let rec' := set_duration rec newDur in
          let b' := set_recurrence_of b (Some rec') in
          let stretch (other : Block) : Block :=
            if bool_decide (block_id other = id) then other
            else if in_series recId other && negb (bool_decide (status other = done)) then
              bump_rev (set_recurrence_of
                          (set_end other (plus_minutes (start other) newDur))
                          (cloneRecurrence (Some rec')))
            else other in
          Return (stretch <$> <[i := b']> blocks)
      | _, _ => Return (<[i := b]> blocks)
      end
  end.

Inductive Scope := single | series.

(** [rec.exceptions!.push(dateISO)] unless the date is already listed. *)
Definition add_exception (dateISO : Z) (r : BlockRecurrence) : BlockRecurrence :=
  let ex := default [] (exceptions r) in
  if includes ex dateISO then r else set_exceptions r (Some (ex ++ [dateISO])).

Definition deleteBlock (blocks : list Block) (id : string) (scope : Scope)
  : Completion (list Block) :=
  match findBlock blocks id with
  | None => Throw (Error "NOT_FOUND: block")
  | Some (idx, blk) =>
      match scope, recurrence_id blk with
      | series, Some recId =>
          Return (filter (λ b, in_series recId b = false) blocks)
      | _, Some recId =>
          let dateISO := toISODate (start blk) in
          let blocks1 := delete idx blocks in
          let others := filter (λ b, in_series recId b = true) blocks1 in
          match others with
          | [] => Return blocks1
          | first :: _ =>
              let rec := add_exception dateISO <$> ensureExceptions (recurrence first) in
              let update (other : Block) : Block :=
                if in_series recId other then
                  bump_rev (set_recurrence_of other
                              (cloneRecurrence (if rec is Some _ then rec
                                                else recurrence other)))
                else other in
              Return (update <$> blocks1)
          end
      | _, None => Return (delete idx blocks)
      end
  end.

(** ** src/lib/commands.ts: the command pipeline *)

Inductive Effect :=
  | task_created (task_id : string)
  | block_created (block_id : string)
  | block_moved (block_id : string) (new_start new_end : DateTime)
  | block_resized (block_id : string) (new_end : DateTime)
  | block_completed (block_id : string)
  | task_patched (task_id : string)
  | task_rrule (task_id : string) (rrule : string).

Record ApplyResult := {
  for_ : option string;
  ok : bool;
  error : option string;
  effects : option (list Effect);
}.

Definition succeeded (id : option string) (e : Effect) : ApplyResult :=
  {| for_ := id; ok := true; error := None; effects := Some [e] |}.

Definition failed (id : option string) (msg : string) : ApplyResult :=
  {| for_ := id; ok := false; error := Some msg; effects := None |}.

(** [Object.assign(tsk, patch)] *)
Definition assign_task (t : Task) (p : TaskPatch) : Task :=
  {| tk_task_id := default (tk_task_id t) (pt_task_id p);
     tk_title := default (tk_title t) (pt_title p);
     tk_notes := default (tk_notes t) (pt_notes p);
     tk_checklist := default (tk_checklist t) (pt_checklist p);
     tk_priority := default (tk_priority t) (pt_priority p);
     tk_tags := default (tk_tags t) (pt_tags p);
     tk_created_at := default (tk_created_at t) (pt_created_at p);
     tk_updated_at := default (tk_updated_at t) (pt_updated_at p);
     tk_recurrence := default (tk_recurrence t) (pt_recurrence p) |}.

Definition empty_patch : TaskPatch :=
  {| pt_task_id := None; pt_title := None; pt_notes := None; pt_checklist := None;
     pt_priority := None; pt_tags := None; pt_created_at := None;
     pt_updated_at := None; pt_recurrence := None |}.

(** [{ ...obj, [k]: v }] *)
Fixpoint spread_set (obj : list (string * string)) (k v : string) : list (string * string) :=
  match obj with
  | [] => [(k, v)]
  | (k', v') :: rest =>
      if bool_decide (k' = k) then (k, v) :: rest else (k', v') :: spread_set rest k v
  end.

Definition set_task_recurrence (t : Task) (r : option TaskRecurrence) : Task :=
  {| tk_task_id := tk_task_id t; tk_title := tk_title t; tk_notes := tk_notes t;
     tk_checklist := tk_checklist t; tk_priority := tk_priority t;
     tk_tags := tk_tags t; tk_created_at := tk_created_at t;
     tk_updated_at := tk_updated_at t; tk_recurrence := r |}.

(** The collections [applyCommandsFromInbox] works on, its result list, and
    the number of clock and random readings taken so far. *)
Record Run := {
  tasks : list Task;
  blocks : list Block;
  out : list ApplyResult;
  tick : nat;
}.

Definition with_tasks (st : Run) (ts : list Task) (n : nat) : Run :=
  {| tasks := ts; blocks := blocks st; out := out st; tick := n |}.

Definition with_blocks (st : Run) (bs : list Block) (n : nat) : Run :=
  {| tasks := tasks st; blocks := bs; out := out st; tick := n |}.

Definition push_out (st : Run) (r : ApplyResult) : Run :=
  {| tasks := tasks st; blocks := blocks st; out := out st ++ [r]; tick := tick st |}.

Section Pipeline.

(** [nid(prefix)] and [new Date()] at the n-th reading of the clock and of
    the random source. *)
Variable nid : string → nat → string.
Variable now : nat → DateTime.

(** The body of the [try] for one envelope. *)
Definition run_command (cmd : AICommandEnvelope) (st : Run) : Completion Run :=
  match env_command cmd with
  | None => Throw TypeError
  | Some (create_task p) =>
      let id := default (nid "tsk" (tick st)) (ct_task_id p) in
      let t := {| tk_task_id := id;
                  tk_title := default "未命名任务" (ct_title p);
                  tk_notes := ct_notes p;
                  tk_priority := Some (default 0 (ct_priority p));
                  tk_tags := Some (default [] (ct_tags p));
                  tk_created_at := Some (now (S (tick st)));
                  tk_updated_at := Some (now (S (S (tick st))));
                  tk_recurrence := ct_recurrence p;
                  tk_checklist := Some (default [] (ct_checklist p)) |} in
      Return (push_out (with_tasks st (tasks st ++ [t]) (S (S (S (tick st)))))
                       (succeeded (env_id cmd) (task_created id)))
  | Some (create_block p) =>
      let id := default (nid "blk" (tick st)) (cb_block_id p) in
      let b := {| block_id := id; task_id := cb_task_id p; title := cb_title p;
                  notes_override := None;
                  start := cb_start p; end_ := cb_end p;
                  status := planned; rev := 1;
                  recurrence := cloneRecurrence (cb_recurrence p) |} in
      Return (push_out (with_blocks st (blocks st ++ [b]) (S (tick st)))
                       (succeeded (env_id cmd) (block_created id)))
  | Some (move_block id new_start) =>
      match findBlock (blocks st) id with
      | None => Throw (Error "NOT_FOUND: block")
      | Some (i, b0) =>
          let b := move_to b0 new_start in
          Return (push_out (with_blocks st (<[i := b]> (blocks st)) (tick st))
                           (succeeded (env_id cmd)
                              (block_moved (block_id b) (start b) (end_ b))))
      end
  | Some (resize_block id new_end) =>
      match findBlock (blocks st) id with
      | None => Throw (Error "NOT_FOUND: block")
      | Some (i, b0) =>
          let b := bump_rev (set_end b0 new_end) in
          Return (push_out (with_blocks st (<[i := b]> (blocks st)) (tick st))
                           (succeeded (env_id cmd) (block_resized (block_id b) (end_ b))))
      end
  | Some (complete_block id) =>
      match findBlock (blocks st) id with
      | None => Throw (Error "NOT_FOUND: block")
      | Some (i, b0) =>
          let b := set_status b0 done in
          Return (push_out (with_blocks st (<[i := b]> (blocks st)) (tick st))
                           (succeeded (env_id cmd) (block_completed (block_id b))))
      end
  | Some (update_task id patch) =>
      match findTask (tasks st) id with
      | None => Throw (Error "NOT_FOUND: task")
      | Some (i, t0) =>
          let t := assign_task t0 (default empty_patch patch) in
          Return (push_out (with_tasks st (<[i := t]> (tasks st)) (tick st))
                           (succeeded (env_id cmd) (task_patched (tk_task_id t))))
      end
  | Some (set_recurrence id rrule) =>
      match findTask (tasks st) id with
      | None => Throw (Error "NOT_FOUND: task")
      | Some (i, t0) =>
          let t := set_task_recurrence t0
                     (Some (spread_set (default [] (tk_recurrence t0)) "rrule" rrule)) in
          Return (push_out (with_tasks st (<[i := t]> (tasks st)) (tick st))
                           (succeeded (env_id cmd) (task_rrule (tk_task_id t) rrule)))
      end
  | Some add_checklist_item =>
      Return (push_out st (failed (env_id cmd) ("UNSUPPORTED: " +:+ "add_checklist_item")))
  | Some set_checklist_state =>
      Return (push_out st (failed (env_id cmd) ("UNSUPPORTED: " +:+ "set_checklist_state")))
  | Some (other_command t) =>
      Return (push_out st (failed (env_id cmd) ("UNSUPPORTED: " +:+ t)))
  end.

(** One iteration of [for (const cmd of lines)]: the [try] and its [catch]. *)
Definition apply_command (st : Run) (cmd : AICommandEnvelope) : Run :=
  match run_command cmd st with
  | Return st' => st'
  | Throw e => push_out st (failed (Some (default "N/A" (env_id cmd))) (String_of_exn e))
  end.

Definition apply_commands (lines : list AICommandEnvelope) (st : Run) : Run :=
  foldl apply_command st lines.

End Pipeline.

(** ** src/components/WeekGrid.tsx: the drag resolver *)

Inductive Strategy := allow | block | push | clip.

Inductive Mode := move | resize.

(** The drag state; the two pixel widths it also carries play no part in
    the resolution. *)
Record DragState := {
  drag_id : string;
  mode : Mode;
  originalDay : Z;
  targetDay : Z;
  startM : Z;
  endM : Z;
  drag_duration : Z;
  previewStartM : Z;
  previewEndM : Z;
  overlapping : bool;
}.

(** What [onUp] asks of its environment, in order. *)
Inductive Action :=
  | onNotify (msg : string)
  | onMove (block_id : string) (newStartISO : DateTime)
  | onResize (block_id : string) (newEndISO : DateTime).

Record Item := { it_s : Z; it_e : Z; it_id : string }.

(** [Array.prototype.sort] with the comparator [a.start - b.start]: a stable
    sort by start instant. *)
Fixpoint insert_by_start (b : Block) (l : list Block) : list Block :=
  match l with
  | [] => [b]
  | x :: l' => if start b <=? start x then b :: x :: l' else x :: insert_by_start b l'
  end.

Definition sort_by_start (l : list Block) : list Block := foldr insert_by_start [] l.

Definition item_of (b : Block) : Item :=
  {| it_s := minutesSinceMidnight (start b);
     it_e := minutesSinceMidnight (end_ b);
     it_id := block_id b |}.

(** The loop of [findNextGap] over consecutive items. *)
Fixpoint scan_gaps (items : list Item) (fromM duration : Z) : Z :=
  match items with
  | cur :: (next :: _) as rest =>
      let curEnd := Z.max (it_e cur) fromM in
      let nextStart := it_s next in
      if curEnd + duration <=? nextStart then curEnd else scan_gaps rest fromM duration
  | _ => -1
  end.

(** The default of [days]: the seven days from the week start. *)
Definition week_days (weekStartISO : DateTime) : list DateTime :=
  (λ i, plus_days weekStartISO (Z.of_nat i)) <$> seq 0 7.

Section WeekGrid.

(** The props: the visible days (seven days from the week start unless
    [visibleDays] is given), the blocks and the overlap strategy. *)
Variable days : list DateTime.
Variable blocks : list Block.
Variable strategy : Strategy.

(** [days[i]] *)
Definition dayAt (i : Z) : option DateTime :=
  if i <? 0 then None else days !! Z.to_nat i.

(** [byDay[dayISO]] for a visible day: the blocks that start on it, sorted. *)
Definition byDay (dayISO : Z) : list Block :=
  sort_by_start (filter (λ b, toISODate (start b) = dayISO) blocks).

Definition computeOverlap (dayIndex : Z) (selfId : string) (sM eM : Z) : Completion bool :=
  match dayAt dayIndex with
  | None => Throw TypeError
  | Some day =>
      let others := filter (λ x, block_id x ≠ selfId) (byDay (toISODate day)) in
      Return (existsb (λ ob, overlaps sM eM (minutesSinceMidnight (start ob))
                                             (minutesSinceMidnight (end_ ob))) others)
  end.

Definition findNextGap (dayIndex : Z) (fromM duration : Z) : Completion Z :=
  match dayAt dayIndex with
  | None => Throw TypeError
  | Some day =>
      let items := item_of <$> byDay (toISODate day) in
      let items := {| it_s := 0; it_e := 0; it_id := "__start" |} :: items in
      let items := items ++ [{| it_s := MINUTES_PER_DAY; it_e := MINUTES_PER_DAY;
                                it_id := "__end" |}] in
      Return (scan_gaps items fromM duration)
  end.

Definition clipEndToFirstConflict (dayIndex : Z) (selfId : string) (sM eM : Z)
  : Completion Z :=
  match dayAt dayIndex with
  | None => Throw TypeError
  | Some day =>
      let items := item_of <$> filter (λ b, block_id b ≠ selfId) (byDay (toISODate day)) in
      Return (foldl (λ limit it,
                       if overlaps sM eM (it_s it) (it_e it) && (sM <? it_s it)
                       then Z.min limit (it_s it) else limit)
                    eM items)
  end.

(** The commit made when no policy intervenes. *)
Definition commit_as_given (b_id : string) (d : DragState)
    (targetISO originalISO : option DateTime) (sM eM : Z) : list Action :=
  match mode d, targetISO, originalISO with
  | move, Some t, _ => [onMove b_id (isoForDateAndMinutes t sM)]
  | move, None, Some o => [onResize b_id (isoForDateAndMinutes o eM)]
  | resize, _, Some o => [onResize b_id (isoForDateAndMinutes o eM)]
  | _, _, _ => []
  end.

(** [onUp] of the drag of block [b_id], with [dragRef.current] as [d]. *)
Definition onUp (b_id : string) (d : option DragState) : Completion (list Action) :=
  match d with
  | None => Return []
  | Some d =>
      let targetDay := targetDay d in
      let sM := previewStartM d in
      let eM := previewEndM d in
      match computeOverlap targetDay b_id sM eM with
      | Throw e => Throw e
      | Return overlapNow =>
          let targetISO := dayAt targetDay in
          let originalISO := dayAt (originalDay d) in
          if overlapNow then
            match strategy, mode d with
            | block, _ => Return [onNotify "与其它块重叠，已取消保存。"]
            | push, move =>
                match findNextGap targetDay sM (drag_duration d) with
                | Throw e => Throw e
                | Return ng =>
                    match bool_decide (0 <= ng), targetISO with
                    | true, Some t => Return [onMove b_id (isoForDateAndMinutes t ng)]
                    | _, _ => Return [onNotify "当天没有足够的空档，无法顺延。"]
                    end
                end
            | clip, _ =>
                match mode d, originalISO, targetISO with
                | resize, Some o, _ =>
                    match clipEndToFirstConflict (originalDay d) b_id (startM d) eM with
                    | Throw e => Throw e
                    | Return lim =>
                        Return [onResize b_id
                                  (isoForDateAndMinutes o (Z.max lim (startM d + SNAP_MIN)))]
                    end
                | _, _, Some t =>
                    match clipEndToFirstConflict targetDay b_id sM eM with
                    | Throw e => Throw e
                    | Return lim =>
                        let eM := Z.max lim (sM + SNAP_MIN) in
                        Return [onMove b_id (isoForDateAndMinutes t sM);
                                onResize b_id (isoForDateAndMinutes t eM)]
                    end
                | _, _, None => Return []
                end
            | _, _ => Return (commit_as_given b_id d targetISO originalISO sM eM)
            end
          else Return (commit_as_given b_id d targetISO originalISO sM eM)
      end
  end.

End WeekGrid.

(** ** src/App.tsx: the batch signature and its use *)

(** A JS string as its UTF-16 code units. *)
Definition JSString := list Z.

(** [x | 0]: the signed 32-bit integer congruent to x. *)
Definition to_int32 (x : Z) : Z := (x + 2 ^ 31) mod 2 ^ 32 - 2 ^ 31.

(** [h << 5] for a 32-bit h. *)
Definition shl5 (h : Z) : Z := to_int32 (Z.shiftl h 5).

Definition hash_step (h c : Z) : Z := to_int32 (shl5 h - h + c).

Definition hashStr (s : JSString) : string := pretty (foldl hash_step 0 s).

(** [raw ? (raw.length + ':' + hashStr(raw)) : ''] *)
Definition signature (raw : JSString) : string :=
  match raw with
  | [] => ""
  | _ => pretty (Z.of_nat (length raw)) +:+ ":" +:+ hashStr raw
  end.

(** The text blobs of the data folder. *)
Record Files := {
  tasks_jsonl : list Task;
  blocks_jsonl : list Block;
  commands_jsonl : option JSString;         (* [None]: the inbox cannot be read *)
  result_jsonl : list (list ApplyResult);   (* one result file per run *)
  last_sig_txt : option string;
}.

Record App := {
  files : Files;
  clock : nat;
  app_tasks : list Task;        (* the [tasks] state of the component *)
  app_blocks : list Block;      (* the [blocks] state *)
  lastSig : string;
  message : string;
}.

Definition setMessage (a : App) (m : string) : App :=
  {| files := files a; clock := clock a; app_tasks := app_tasks a;
     app_blocks := app_blocks a; lastSig := lastSig a; message := m |}.

Section App.

Variable nid : string → nat → string.
Variable now : nat → DateTime.

(** [parseJSONL] on the inbox text: [JSON.parse] is the platform's. *)
Variable parseJSONL : JSString → Completion (list AICommandEnvelope).

(** [extendRecurringBlocks] as run by [loadBlocks] at a given reading of
    the clock: the blocks it leaves in the array.  Nothing proved below
    depends on what it does. *)
Variable extendRecurringBlocks : nat → list Block → list Block.

(** [applyCommandsFromInbox]: the files it leaves, the clock, and what the
    call completes with. *)
Definition applyCommandsFromInbox (f : Files) (n : nat)
  : Files * nat * Completion (list ApplyResult) :=
  let tasks0 := tasks_jsonl f in
  let blocks0 := extendRecurringBlocks n (blocks_jsonl f) in
  let f0 := {| tasks_jsonl := tasks_jsonl f; blocks_jsonl := blocks0;
               commands_jsonl := commands_jsonl f; result_jsonl := result_jsonl f;
               last_sig_txt := last_sig_txt f |} in
  let '(raw, out0) :=
    match commands_jsonl f with
    | Some raw => (raw, [])
    | None => ([], [failed (Some "N/A") "READ_FAIL: "])
    end in
  let st0 := {| tasks := tasks0; blocks := blocks0; out := out0; tick := S n |} in
  let finish (st : Run) :=
    ({| tasks_jsonl := tasks st; blocks_jsonl := blocks st;
        commands_jsonl := commands_jsonl f;
        result_jsonl := result_jsonl f ++ [out st];
        last_sig_txt := last_sig_txt f |}, S (tick st), Return (out st)) in
  match raw with
  | [] => finish st0
  | _ =>
      match parseJSONL raw with
      | Throw e => (f0, S n, Throw e)
      | Return lines => finish (apply_commands nid now lines st0)
      end
  end.

Definition count_ok (b : bool) (result : list ApplyResult) : Z :=
  Z.of_nat (length (filter (λ r, ok r = b) result)).

Definition onApplyCommands (a : App) : App :=
  let a := setMessage a "应用命令中…" in
  let raw := default [] (commands_jsonl (files a)) in
  let sig := signature raw in
  if bool_decide (sig ≠ "") && bool_decide (sig = lastSig a) then
    setMessage a "已是最新命令，跳过。"
  else
    match applyCommandsFromInbox (files a) (clock a) with
    | (f, n, Throw _) =>
        {| files := f; clock := n; app_tasks := app_tasks a;
           app_blocks := app_blocks a; lastSig := lastSig a; message := message a |}
    | (f, n, Return result) =>
        let signed := bool_decide (sig ≠ "") in
        let f := if signed then
                   {| tasks_jsonl := tasks_jsonl f; blocks_jsonl := blocks_jsonl f;
                      commands_jsonl := commands_jsonl f;
                      result_jsonl := result_jsonl f; last_sig_txt := Some sig |}
                 else f in
        {| files := f; clock := n;
           app_tasks := tasks_jsonl f; app_blocks := blocks_jsonl f;
           lastSig := if signed then sig else lastSig a;
           message := "完成：" +:+ pretty (count_ok true result) +:+ " 成功，"
                      +:+ pretty (count_ok false result) +:+ " 失败" |}
    end.

End App.

(** ** src/App.tsx: the timer that watches the inbox *)

Section Polling.

Variable nid : string → nat → string.
Variable now : nat → DateTime.
Variable parseJSONL : JSString → Completion (list AICommandEnvelope).
Variable extendRecurringBlocks : nat → list Block → list Block.

(** One firing of the [setInterval] callback, run to its end: whatever
    throws inside its [try] is swallowed by the empty [catch]. *)
Definition onPoll (a : App) : App :=
  match commands_jsonl (files a) with
  | None => a
  | Some raw =>
      let sig := signature raw in
      if bool_decide (sig ≠ "") && bool_decide (sig ≠ lastSig a) then
        match applyCommandsFromInbox nid now parseJSONL extendRecurringBlocks
                (files a) (clock a) with
        | (f, n, Throw _) =>
            {| files := f; clock := n; app_tasks := app_tasks a;
               app_blocks := app_blocks a; lastSig := lastSig a; message := message a |}
        | (f, n, Return result) =>
            let f := {| tasks_jsonl := tasks_jsonl f; blocks_jsonl := blocks_jsonl f;
                        commands_jsonl := commands_jsonl f;
                        result_jsonl := result_jsonl f; last_sig_txt := Some sig |} in
            {| files := f; clock := n;
               app_tasks := tasks_jsonl f; app_blocks := blocks_jsonl f;
               lastSig := sig;
               message := "自动应用：" +:+ pretty (count_ok true result) +:+ " 成功，"
                          +:+ pretty (count_ok false result) +:+ " 失败" |}
        end
      else a
  end.

End Polling.

(** ** src/lib/commands.ts: materializing the blocks of the series *)

Global Instance RecurrenceType_eq_dec : EqDecision RecurrenceType.
Proof. solve_decision. Defined.

Global Instance Q_eq_dec : EqDecision Q.
Proof. solve_decision. Defined.

Global Instance BlockRecurrence_eq_dec : EqDecision BlockRecurrence.
Proof. solve_decision. Defined.

Global Instance Block_eq_dec : EqDecision Block.
Proof. solve_decision. Defined.

(** An entry of the map [byId], with its key: the rule cloned from the
    first block of the series that the array holds, and the blocks of the
    series. *)
Record Series := {
  s_id : string;
  s_rec : BlockRecurrence;
  s_blocks : list Block;
}.

(** [if (!byId.has(id)) byId.set(id, { rec, blocks: [] });
    byId.get(id).blocks.push(blk)], the map keeping the order in which
    its keys were set. *)
Fixpoint push_member (byId : list Series) (id : string) (rec : BlockRecurrence)
    (blk : Block) : list Series :=
  match byId with
  | [] => [{| s_id := id; s_rec := rec; s_blocks := [blk] |}]
  | s :: rest =>
      if bool_decide (s_id s = id)
      then {| s_id := s_id s; s_rec := s_rec s; s_blocks := s_blocks s ++ [blk] |} :: rest
      else s :: push_member rest id rec blk
  end.

Definition add_to_series (byId : list Series) (blk : Block) : list Series :=
  match recurrence_id blk, cloneRecurrence (recurrence blk) with
  | Some id, Some rec => push_member byId id rec blk
  | _, _ => byId
  end.

Definition group_by_series (blocks : list Block) : list Series :=
  foldl add_to_series [] blocks.

(** The array [blocks] during a pass, the number of readings of the clock
    and of the random source taken so far, and the flag [mutated]. *)
Record Pass := {
  p_blocks : list Block;
  p_tick : nat;
  p_mutated : bool;
}.

(** The state of the walk over one series: the pass, the keys of
    [existingByDate] and [data.blocks]. *)
Record Walk := {
  w_pass : Pass;
  w_existing : list Z;
  w_members : list Block;
}.

(** The values that [cursor] takes in [while (cursor <= horizon)]. *)
Definition cursors (cursor horizon : DateTime) : list DateTime :=
  (λ k, plus_days cursor (Z.of_nat k))
    <$> seq 0 (Z.to_nat ((horizon - cursor) / MS_PER_DAY + 1)).

(** [const idx = blocks.indexOf(blk); if (idx >= 0) { blocks.splice(idx, 1);
    mutated = true; }].  [indexOf] compares objects; the blocks of the array
    are distinct objects, and two of them with the same value are both
    members of the same series, so that the first position with the value
    of [blk] stands for the position of [blk]. *)
Definition remove_block (p : Pass) (blk : Block) : Pass :=
  match list_find (λ x, x = blk) (p_blocks p) with
  | Some (idx, _) =>
      {| p_blocks := delete idx (p_blocks p); p_tick := p_tick p; p_mutated := true |}
  | None => p
  end.

Section Recurring.

Variable nid : string → nat → string.
Variable now : nat → DateTime.

(** The body of the [while] loop for one value of [cursor]. *)
Definition materialize (rec : BlockRecurrence) (w : Walk) (cursor : DateTime) : Walk :=
  if shouldIncludeDate rec cursor && negb (includes (w_existing w) (toISODate cursor)) then
    let first := head (w_members w) in
    let start := plus_minutes cursor (inject_Z (default 0 (startMinute rec))) in
    let end_ := plus_minutes start (duration rec) in
    let block := {| block_id := nid "blk" (p_tick (w_pass w));
                    task_id := first ≫= task_id;
                    title := first ≫= title;
                    notes_override := first ≫= notes_override;
                    start := start; end_ := end_;
                    status := planned; rev := 1;
                    recurrence := cloneRecurrence (Some rec) |} in
    {| w_pass := {| p_blocks := p_blocks (w_pass w) ++ [block];
                    p_tick := S (p_tick (w_pass w));
                    p_mutated := true |};
       w_existing := w_existing w ++ [toISODate cursor];
       w_members := w_members w ++ [block] |}
  else w.

(** [if (rec.until) { ... }]: the members that start after the end of the
    day of a valid [until] are taken out of the array. *)
Definition prune (rec : BlockRecurrence) (w : Walk) : Pass :=
  match until rec with
  | Some (Some u) =>
      foldl (λ p blk, if endOfDay (ofISODate u) <? start blk then remove_block p blk else p)
            (w_pass w) (w_members w)
  | _ => w_pass w
  end.

(** The body of [for (const [, data] of byId)]. *)
Definition extend_series (horizon : DateTime) (p : Pass) (data : Series) : Pass :=
  let rec := s_rec data in
  match startDate rec with
  | None => p                                            (* [continue] *)
  | Some a =>
      let cursor := startOfDay (ofISODate a) in
      let limitStart := startOfDay (plus_days (now (p_tick p)) (-7)) in
      let cursor := if cursor <? limitStart then limitStart else cursor in
      prune rec
        (foldl (materialize rec)
               {| w_pass := {| p_blocks := p_blocks p; p_tick := S (p_tick p);
                               p_mutated := p_mutated p |};
                  w_existing := (λ b, toISODate (start b)) <$> s_blocks data;
                  w_members := s_blocks data |}
               (cursors cursor horizon))
  end.

(** [extendRecurringBlocks(blocks)] at the [n]-th reading: the array it
    leaves, and what it returns in [p_mutated]. *)
Definition extendRecurringBlocks (n : nat) (blocks : list Block) : Pass :=
  match group_by_series blocks with
  | [] => {| p_blocks := blocks; p_tick := n; p_mutated := false |}
  | byId =>
      let horizon := startOfDay (plus_days (now n) 35) in
      foldl (extend_series horizon)
            {| p_blocks := blocks; p_tick := S n; p_mutated := false |} byId
  end.

(** [loadBlocks] for a [blocks.jsonl] that exists and parses: the array it
    returns, and the file it leaves, written only when the pass says so. *)
Definition loadBlocks (n : nat) (file : list Block) : list Block * list Block * nat :=
  let p := extendRecurringBlocks n file in
  (p_blocks p, if p_mutated p then p_blocks p else file, p_tick p).

End Recurring.

(** ** src/lib/commands.ts: creating and copying blocks *)

(** The argument of [createBlock]. *)
Record NewBlock := {
  nb_task_id : option string;
  nb_title : option string;
  nb_notes_override : option string;
  nb_start : DateTime;
  nb_end : DateTime;
  nb_recurrence : option BlockRecurrence;
}.

(** [createBlock] and [duplicateBlock], with the function [nid] and the
    number [n] of the reading of the clock and of the random source: the
    array they leave and the id they return. *)
Definition createBlock (nid : string → nat → string) (n : nat)
    (blocks : list Block) (data : NewBlock) : list Block * string :=
  let block := {| block_id := nid "blk" n; task_id := nb_task_id data;
                  title := nb_title data; notes_override := nb_notes_override data;
                  start := nb_start data; end_ := nb_end data;
                  status := planned; rev := 1;
                  recurrence := cloneRecurrence (nb_recurrence data) |} in
  (blocks ++ [block], block_id block).

Definition duplicateBlock (nid : string → nat → string) (n : nat)
    (blocks : list Block) (id : string) : Completion (list Block * string) :=
  match findBlock blocks id with
  | None => Throw (Error "NOT_FOUND: block")
  | Some (_, blk) =>
      let copy := {| block_id := nid "blk" n; task_id := task_id blk;
                     title := title blk; notes_override := notes_override blk;
                     start := start blk; end_ := end_ blk;
                     status := status blk; rev := 1; recurrence := None |} in
      Return (blocks ++ [copy], block_id copy)
  end.

(** ** The terms of the statements *)

(** The days [from], [from + 1], ... of a horizon of [n] days. *)
Definition horizon (from : Z) (n : nat) : list Z := (λ k, from + Z.of_nat k) <$> seq 0 n.

(** The days of a horizon on which a rule yields an occurrence. *)
Definition qualifying (rec : BlockRecurrence) (from : Z) (n : nat) : list Z :=
  filter (λ d, shouldIncludeDate rec (ofISODate d) = true) (horizon from n).

(** An error message carries a tag when the tag occurs in it. *)
Definition carries (tag msg : string) : Prop := ∃ pre post, msg = pre +:+ tag +:+ post.

(** The command looks a block or a task up by id, to change it, and none
    has that id. *)
Definition looks_up_missing (ts : list Task) (bs : list Block) (c : Command) : Prop :=
  match c with
  | move_block id _ | resize_block id _ | complete_block id => findBlock bs id = None
  | update_task id _ | set_recurrence id _ => findTask ts id = None
  | _ => False
  end.

(** The type tag of a command that the [switch] has no case for. *)
Definition unsupported_type (c : Command) : option string :=
  match c with
  | add_checklist_item => Some "add_checklist_item"
  | set_checklist_state => Some "set_checklist_state"
  | other_command t => Some t
  | _ => None
  end.

(** [ob] is a sibling of [selfId] that starts on the day of [day] and that
    the grid finds to overlap the minutes [sM, eM): the grid reads a block
    as the minutes of the day from the minute of its start to the minute of
    its end, so that a block that ends at 24:00 or on a later day is read
    as ending at that minute of the day of its start. *)
Definition overlapping_sibling (blocks : list Block) (selfId : string) (day : DateTime)
    (sM eM : Z) (ob : Block) : Prop :=
  ob ∈ blocks ∧ block_id ob ≠ selfId ∧ toISODate (start ob) = toISODate day
  ∧ overlaps sM eM (minutesSinceMidnight (start ob)) (minutesSinceMidnight (end_ ob)) = true.

(** The start minutes of the siblings of [selfId] on a day that overlap
    [sM, eM) and start strictly after [sM]. *)
Definition later_overlapping_starts (days : list DateTime) (blocks : list Block)
    (dayIndex : Z) (selfId : string) (sM eM : Z) : list Z :=
  match dayAt days dayIndex with
  | None => []
  | Some day =>
      it_s <$> filter (λ it, (overlaps sM eM (it_s it) (it_e it) && (sM <? it_s it)) = true)
                 (item_of <$> filter (λ b, block_id b ≠ selfId)
                                (byDay blocks (toISODate day)))
  end.

Definition is_minimum (m : Z) (l : list Z) : Prop := m ∈ l ∧ ∀ x, x ∈ l → m <= x.

(** The number of the Monday-based week that contains a day. *)
Definition week_of (day : Z) : Z := (day + 3) / 7.

(** The weekdays a weekly rule recurs on: its [daysOfWeek] unless that is
    missing or empty, in which case the weekday of the anchor. *)
Definition rule_weekdays (rec : BlockRecurrence) (anchor : Z) : list Z :=
  match daysOfWeek rec with
  | Some (d :: l) => d :: l
  | _ => [weekday (ofISODate anchor)]
  end.

(** [other] is shifted along when the block [b] with id [id] is moved or
    resized: another block of the series of [b] that is not done. *)
Definition moves_with (id : string) (b other : Block) : bool :=
  match recurrence_id b with
  | Some recId =>
      negb (bool_decide (block_id other = id)) && in_series recId other
      && negb (bool_decide (status other = done))
  | None => false
  end.

(** The envelope carries a command that adds a task, or a block. *)
Definition creates_task (cmd : AICommandEnvelope) : bool :=
  match env_command cmd with Some (create_task _) => true | _ => false end.

Definition creates_block (cmd : AICommandEnvelope) : bool :=
  match env_command cmd with Some (create_block _) => true | _ => false end.

(** The items follow one another: each ends no earlier than it starts and
    no later than the next one starts. *)
Fixpoint laid_out_in_order (items : list Item) : bool :=
  match items with
  | [] => true
  | cur :: rest =>
      (it_s cur <=? it_e cur)
      && match rest with [] => true | next :: _ => it_e cur <=? it_s next end
      && laid_out_in_order rest
  end.

(** The polynomial of the code units in 31, before any wrap-around. *)
Definition poly31 (s : JSString) : Z := foldl (λ h c, 31 * h + c) 0 s.

(** [b0] is the first block of the array that belongs to the series [id]. *)
Definition first_of_series (blocks : list Block) (id : string) (b0 : Block) : Prop :=
  ∃ i, list_find (λ b, recurrence_id b = Some id) blocks = Some (i, b0).

(** What an entry of [byId] holds for a series of the array: the rule of
    the first block of the series, which comes first among its blocks, all
    of them blocks of the array that belong to the series. *)
Definition entry_of (blocks : list Block) (s : Series) : Prop :=
  r_id (s_rec s) = s_id s
  ∧ (∃ b0, first_of_series blocks (s_id s) b0 ∧ recurrence b0 = Some (s_rec s)
           ∧ head (s_blocks s) = Some b0)
  ∧ Forall (λ b, b ∈ blocks ∧ recurrence_id b = Some (s_id s)) (s_blocks s).

(** ** Readings of the specification that the code is compared with *)

(** The ISO constructors, read as adding an offset inside the half-open
    day [0, 1440) to local midnight. *)
Definition offset_within_day (midnight result : DateTime) : Prop :=
  ∃ off, 0 <= off < MINUTES_PER_DAY ∧ result = midnight + off * MS_PER_MINUTE.

(** Deleting one occurrence, read as adding the day of the deleted block
    to the exceptions that each remaining member of the series had. *)
Definition single_delete_as_specified (blocks : list Block) (id : string) : Prop :=
  ∀ idx blk recId, findBlock blocks id = Some (idx, blk) → recurrence_id blk = Some recId →
    ∃ blocks',
      deleteBlock blocks id single = Return blocks'
      ∧ ∀ j o, delete idx blocks !! j = Some o → in_series recId o = true →
          ∃ o', blocks' !! j = Some o'
                ∧ ∀ x, x ∈ default [] (recurrence o' ≫= exceptions)
                       ↔ x ∈ default [] (recurrence o ≫= exceptions)
                         ∨ x = toISODate (start blk).

(** The command references a block or a task that does not exist: one it
    looks up, or the task that a block to be created is attached to. *)
Definition references_missing (ts : list Task) (bs : list Block) (c : Command) : Prop :=
  looks_up_missing ts bs c
  ∨ match c with
    | create_block p => ∃ t, cb_task_id p = Some t ∧ findTask ts t = None
    | _ => False
    end.

(** The pipeline, read as failing with the NOT_FOUND: tag on every command
    that references a block or a task that does not exist. *)
Definition not_found_as_specified (nid : string → nat → string) (now : nat → DateTime)
    (st : Run) (cmd : AICommandEnvelope) : Prop :=
  ∀ c, env_command cmd = Some c →
       references_missing (tasks st) (blocks st) c →
       ∃ r msg, apply_command nid now st cmd = push_out st r
                ∧ ok r = false ∧ error r = Some msg ∧ carries "NOT_FOUND:" msg.

(** A daily rule, read as recurring on the days whose distance from the
    anchor is divisible by the interval as it stands. *)
Definition daily_as_specified (rec : BlockRecurrence) (date : DateTime) : Prop :=
  ∃ a, startDate rec = Some a
       ∧ a <= toISODate date
       ∧ (∀ u, until rec = Some (Some u) → toISODate date <= u)
       ∧ (toISODate date ∉ default [] (exceptions rec))
       ∧ (interval rec | toISODate date - a).

(** The clip policy on a resize, read as always committing the least start
    of a later overlapping sibling, bounded below by start + SNAP_MIN. *)
Definition clip_resize_as_specified (days : list DateTime) (blocks : list Block)
    (b_id : string) (d : DragState) (originalISO : DateTime) : Prop :=
  ∃ m, is_minimum m (later_overlapping_starts days blocks (originalDay d) b_id
                       (startM d) (previewEndM d))
       ∧ onUp days blocks clip b_id (Some d)
         = Return [onResize b_id
                     (isoForDateAndMinutes originalISO (Z.max m (startM d + SNAP_MIN)))].

(** ** Sample data for the worked examples *)

Definition sample_weekly_rule (id : string) (anchor every : Z) (days : list Z)
    : BlockRecurrence :=
  {| r_id := id; r_type := weekly; interval := every; daysOfWeek := Some days;
     startDate := Some anchor; startMinute := Some 540; duration := inject_Z 60;
     until := None; exceptions := None |}.


Definition sample_rule (id : string) (anchor : Z) (every : Z) : BlockRecurrence :=
  {| r_id := id; r_type := daily; interval := every; daysOfWeek := None;
     startDate := Some anchor; startMinute := Some 540; duration := inject_Z 60;
     until := None; exceptions := None |}.

Definition sample_block (id : string) (s e : DateTime) (st : BlockStatus)
    (r : option BlockRecurrence) : Block :=
  {| block_id := id; task_id := None; title := None; notes_override := None;
     start := s; end_ := e; status := st; rev := 1; recurrence := r |}.

(** The code units of an ASCII text. *)
Definition code_units (s : string) : JSString :=
  (λ c, Z.of_N (Ascii.N_of_ascii c)) <$> String.list_ascii_of_string s.

Definition sample_envelope (id : string) (c : Command) : AICommandEnvelope :=
  {| env_id := Some id; env_command := Some c |}.

Definition empty_run : Run := {| tasks := []; blocks := []; out := []; tick := 0 |}.

Definition sample_app (inbox : option JSString) (sig : string) : App :=
  {| files := {| tasks_jsonl := []; blocks_jsonl := []; commands_jsonl := inbox;
                 result_jsonl := []; last_sig_txt := Some sig |};
     clock := 0; app_tasks := []; app_blocks := []; lastSig := sig; message := "" |}.

Definition sample_drag (id : string) (m : Mode) (day s e ps pe : Z) : DragState :=
  {| drag_id := id; mode := m; originalDay := day; targetDay := day;
     startM := s; endM := e; drag_duration := Z.max SNAP_MIN (e - s);
     previewStartM := ps; previewEndM := pe; overlapping := true |}.

(** * Properties *)

Lemma plus_minutes_Z (dt : DateTime) (m : Z) :
  plus_minutes dt (inject_Z m) = dt + m * MS_PER_MINUTE.
Proof.
  unfold plus_minutes. rewrite <- inject_Z_mult, Qfloor_Z. reflexivity.
Qed.

Lemma plus_diff_minutes (dt a b : DateTime) :
  plus_minutes dt (diff_minutes a b) = dt + (a - b).
Proof.
  unfold plus_minutes, diff_minutes. f_equal.
  transitivity (Qfloor (inject_Z (a - b))); [|apply Qfloor_Z].
  apply Qfloor_comp.
  unfold Qeq, Qmult, inject_Z, MS_PER_MINUTE. cbn [Qnum Qden]. lia.
Qed.

Example civil_epoch : civil 1970 1 1 = 0.
Proof. reflexivity. Qed.

Example civil_2024_01_01 : civil 2024 1 1 = 19723 /\ weekday (at_ 2024 1 1 0 0) = 1.
Proof. split; reflexivity. Qed.

(** ** Temporal utilities *)

Lemma clamp_cases (v lo hi : Z) :
  lo <= hi →
  clamp v lo hi = if v <? lo then lo else if hi <? v then hi else v.
Proof.
  intros Hle. unfold clamp.
  destruct (Z.ltb_spec v lo), (Z.ltb_spec hi v); lia.
Qed.

Lemma startOfDay_toISODate (dt : DateTime) : toISODate (startOfDay dt) = toISODate dt.
Proof.
  unfold startOfDay, ofISODate, toISODate, MS_PER_DAY.
  apply Z.div_mul. lia.
Qed.

Lemma isoForDateAndMinutes_eq (dateISO : DateTime) (m : Z) :
  isoForDateAndMinutes dateISO m
  = startOfDay dateISO + clamp m 0 MINUTES_PER_DAY * MS_PER_MINUTE.
Proof. unfold isoForDateAndMinutes. cbv zeta. apply plus_minutes_Z. Qed.

Lemma isoForDayAndMinutes_eq (weekStartISO : DateTime) (dayIndex m : Z) :
  isoForDayAndMinutes weekStartISO dayIndex m
  = startOfDay (plus_days weekStartISO dayIndex) + clamp m 0 MINUTES_PER_DAY * MS_PER_MINUTE.
Proof. unfold isoForDayAndMinutes. cbv zeta. apply plus_minutes_Z. Qed.

(** C8, as stated, fails: an offset of 1440 minutes is kept, and the result
    is midnight of the following day. *)
Lemma iso_offset_1440_is_next_day :
  isoForDateAndMinutes (at_ 2024 1 1 0 0) 1440 = at_ 2024 1 2 0 0
  ∧ isoForDayAndMinutes (at_ 2024 1 1 0 0) 0 1440 = at_ 2024 1 2 0 0
  ∧ toISODate (isoForDateAndMinutes (at_ 2024 1 1 0 0) 1440) = civil 2024 1 2
  ∧ ¬ offset_within_day (startOfDay (at_ 2024 1 1 0 0))
        (isoForDateAndMinutes (at_ 2024 1 1 0 0) 1440)
  ∧ ¬ offset_within_day (startOfDay (plus_days (at_ 2024 1 1 0 0) 0))
        (isoForDayAndMinutes (at_ 2024 1 1 0 0) 0 1440).
Proof.
  assert (H1 : isoForDateAndMinutes (at_ 2024 1 1 0 0) 1440 = at_ 2024 1 2 0 0).
  { rewrite isoForDateAndMinutes_eq. reflexivity. }
  assert (H2 : isoForDayAndMinutes (at_ 2024 1 1 0 0) 0 1440 = at_ 2024 1 2 0 0).
  { rewrite isoForDayAndMinutes_eq. reflexivity. }
  split_and!; [done | done | by rewrite H1 | |].
  - rewrite H1. intros (off & Hoff & Heq). revert Hoff Heq.
    unfold MINUTES_PER_DAY, MS_PER_MINUTE.
    replace (at_ 2024 1 2 0 0) with 1704153600000 by reflexivity.
    replace (startOfDay (at_ 2024 1 1 0 0)) with 1704067200000 by reflexivity. lia.
  - rewrite H2. intros (off & Hoff & Heq). revert Hoff Heq.
    unfold MINUTES_PER_DAY, MS_PER_MINUTE.
    replace (at_ 2024 1 2 0 0) with 1704153600000 by reflexivity.
    replace (startOfDay (plus_days (at_ 2024 1 1 0 0) 0)) with 1704067200000 by reflexivity.
    lia.
Qed.

(** C8, amended: both ISO constructors return local midnight of the date
    plus the minute offset clamped into the closed range [0, 1440]; the
    result lies between that midnight and the next one, inclusive. *)
Theorem iso_offset_clamped_closed (dateISO weekStartISO : DateTime) (dayIndex m : Z) :
  let off := clamp m 0 MINUTES_PER_DAY in
  isoForDateAndMinutes dateISO m = startOfDay dateISO + off * MS_PER_MINUTE
  ∧ isoForDayAndMinutes weekStartISO dayIndex m
    = startOfDay (plus_days weekStartISO dayIndex) + off * MS_PER_MINUTE
  ∧ off = (if m <? 0 then 0 else if 1440 <? m then 1440 else m)
  ∧ 0 <= off <= 1440
  ∧ startOfDay dateISO <= isoForDateAndMinutes dateISO m <= startOfDay dateISO + MS_PER_DAY.
Proof.
  intros off.
  assert (Hoff : off = (if m <? 0 then 0 else if 1440 <? m then 1440 else m)).
  { unfold off, MINUTES_PER_DAY. rewrite clamp_cases by lia. reflexivity. }
  assert (Hrange : 0 <= off <= 1440).
  { rewrite Hoff. destruct (Z.ltb_spec m 0), (Z.ltb_spec 1440 m); lia. }
  pose proof (isoForDateAndMinutes_eq dateISO m) as Hiso. fold off in Hiso.
  split_and!; [done | apply isoForDayAndMinutes_eq | done | lia | lia | |].
  - rewrite Hiso. unfold MS_PER_MINUTE. lia.
  - rewrite Hiso. unfold MS_PER_MINUTE, MS_PER_DAY. lia.
Qed.

(** ** Looking a block up and writing it back *)

Lemma findBlock_Some (blocks : list Block) (id : string) (i : nat) (b : Block) :
  findBlock blocks id = Some (i, b) →
  blocks !! i = Some b ∧ block_id b = id ∧ (i < length blocks)%nat.
Proof.
  unfold findBlock. intros (Hl & Hid & _)%list_find_Some.
  eauto using lookup_lt_Some.
Qed.

Lemma findBlock_insert (blocks : list Block) (id : string) (i : nat) (b b' : Block) :
  findBlock blocks id = Some (i, b) →
  block_id b' = id →
  findBlock (<[i := b']> blocks) id = Some (i, b').
Proof.
  unfold findBlock. intros (Hl & Hid & Hfirst)%list_find_Some Hid'.
  apply list_find_insert_Some. right; left.
  split_and!; eauto using lookup_lt_Some.
Qed.

Lemma move_to_spec (b : Block) (newStartISO : DateTime) :
  let b' := move_to b newStartISO in
  block_id b' = block_id b
  ∧ start b' = newStartISO
  ∧ end_ b' = plus_minutes newStartISO (diff_minutes (end_ b) (start b))
  ∧ end_ b' - start b' = end_ b - start b
  ∧ status b' = status b ∧ recurrence b' = recurrence b ∧ rev b' = rev b + 1.
Proof.
  cbv zeta. unfold move_to. cbn.
  split_and!; try reflexivity.
  rewrite plus_diff_minutes. lia.
Qed.

(** ** toggleBlockDone *)



(** ** moveBlock and the move_block command *)

Lemma recurrence_id_Some (b : Block) (recId : string) :
  recurrence_id b = Some recId →
  ∃ r, recurrence b = Some r ∧ r_id r = recId ∧ recId ≠ "".
Proof.
  unfold recurrence_id. destruct (recurrence b) as [r|]; [|done].
  case_bool_decide; [done|]. intros [= <-]. eauto.
Qed.

Lemma recurrence_id_move_to (b : Block) (t : DateTime) :
  recurrence_id (move_to b t) = recurrence_id b.
Proof. reflexivity. Qed.

(** A move leaves the length of every block of the collection unchanged:
    the moved block keeps its minutes, the members of its series are shifted
    as a whole, the others are not touched. *)
Lemma moveBlock_keeps_all_durations
    (bs : list Block) (id : string) (newStartISO : DateTime) (blocks' : list Block) :
  moveBlock bs id newStartISO = Return blocks' →
  ∀ j o, bs !! j = Some o →
    ∃ o', blocks' !! j = Some o' ∧ block_id o' = block_id o
          ∧ end_ o' - start o' = end_ o - start o.
Proof.
  unfold moveBlock. destruct (findBlock bs id) as [[i b]|] eqn:Hfind; [|done].
  destruct (findBlock_Some _ _ _ _ Hfind) as (Hl & Hid & Hlt).
  pose proof (move_to_spec b newStartISO) as (M1 & _ & _ & M4 & _).
  cbv zeta in M1, M4.
  assert (Hplain : ∀ j o, bs !! j = Some o →
            ∃ o', <[i := move_to b newStartISO]> bs !! j = Some o'
                  ∧ block_id o' = block_id o ∧ end_ o' - start o' = end_ o - start o).
  { intros j o Hj. destruct (decide (j = i)) as [->|Hne].
    - rewrite list_lookup_insert_eq by done. eexists. split; [done|].
      assert (o = b) as -> by congruence. done.
    - rewrite list_lookup_insert_ne by done. eauto. }
  rewrite recurrence_id_move_to.
  replace (recurrence (move_to b newStartISO)) with (recurrence b) by reflexivity.
  destruct (recurrence b) as [rec|]; [|intros [= <-]; exact Hplain].
  destruct (recurrence_id b) as [recId|]; [|intros [= <-]; exact Hplain].
  intros [= <-] j o Hj. rewrite list_lookup_fmap.
  destruct (decide (j = i)) as [->|Hne].
  - rewrite list_lookup_insert_eq by done. cbn [fmap option_fmap option_map].
    rewrite bool_decide_eq_true_2 by (cbn; congruence).
    eexists. split; [done|]. assert (o = b) as -> by congruence. done.
  - rewrite list_lookup_insert_ne, Hj by done. cbn [fmap option_fmap option_map].
    eexists. split; [done|].
    case_bool_decide; [done|].
    destruct (in_series recId o && _); [|done].
    cbn. rewrite !plus_diff_minutes. split; [done | lia].
Qed.



(** The rounded minute count of schedule.ts is another matter: computed on
    doubles from the epoch milliseconds, it is 2 for a block of 90 seconds
    that starts at 2024-01-01T09:00Z and 1 for the same block moved to
    2033-10-18T16:31:56Z, although the move keeps its 90000 ms. *)
Example durationMinutes_across_a_move :
  let b := sample_block "b" (at_ 2024 1 1 9 0) (at_ 2024 1 1 9 0 + 90000) planned None in
  let b' := move_to b (at_ 2033 10 18 16 31 + 56000) in
  end_ b' - start b' = end_ b - start b
  ∧ durationMinutes 0 (start b) (end_ b) = Some 2
  ∧ durationMinutes 0 (start b') (end_ b') = Some 1.
Proof. by vm_compute. Qed.

(** C2: moving a member of a series that is not done shifts the start and
    the end of every other member of the series that is not done by the
    same delta, and leaves every done block as it was. *)
Theorem moveBlock_shifts_series
    (blocks : list Block) (id : string) (newStartISO : DateTime)
    (i : nat) (b : Block) (recId : string) :
  findBlock blocks id = Some (i, b) →
  recurrence_id b = Some recId →
  status b ≠ done →
  let delta := diff_minutes newStartISO (start b) in
  ∃ blocks',
    moveBlock blocks id newStartISO = Return blocks'
    ∧ length blocks' = length blocks
    ∧ (∀ j o, blocks !! j = Some o → block_id o ≠ id →
         in_series recId o = true → status o ≠ done →
         ∃ o', blocks' !! j = Some o'
               ∧ block_id o' = block_id o ∧ status o' = status o
               ∧ start o' = plus_minutes (start o) delta
               ∧ end_ o' = plus_minutes (end_ o) delta
               ∧ start o' = start o + (newStartISO - start b)
               ∧ end_ o' = end_ o + (newStartISO - start b))
    ∧ (∀ j o, blocks !! j = Some o → status o = done → blocks' !! j = Some o).
Proof.
  intros Hfind Hrid Hnd delta.
  destruct (findBlock_Some _ _ _ _ Hfind) as (Hl & Hid & Hlt).
  destruct (recurrence_id_Some _ _ Hrid) as (rec & Hrec & _ & _).
  unfold moveBlock. rewrite Hfind, recurrence_id_move_to, Hrid.
  replace (recurrence (move_to b newStartISO)) with (recurrence b) by reflexivity.
  rewrite Hrec. eexists. split; [reflexivity|].
  split; [by rewrite length_fmap, length_insert|]. split.
  - intros j o Hj Hne Hin Hst.
    assert (j ≠ i) by (intros ->; congruence).
    rewrite list_lookup_fmap, list_lookup_insert_ne, Hj by done.
    cbn [fmap option_fmap option_map].
    rewrite bool_decide_eq_false_2 by done.
    rewrite Hin, (bool_decide_eq_false_2 (status o = done)) by done.
    cbn [andb negb]. eexists. split; [reflexivity|].
    cbn. rewrite <- !plus_diff_minutes. done.
  - intros j o Hj Hst.
    assert (j ≠ i) by (intros ->; congruence).
    rewrite list_lookup_fmap, list_lookup_insert_ne, Hj by done.
    cbn [fmap option_fmap option_map]. f_equal.
    case_bool_decide; [done|].
    rewrite (bool_decide_eq_true_2 (status o = done)) by done.
    by rewrite andb_false_r.
Qed.

Lemma moveBlock_shifts_series_witness :
  let r := Some (sample_rule "r" (civil 2024 1 1) 1) in
  let a := sample_block "a" (at_ 2024 1 1 9 0) (at_ 2024 1 1 10 0) planned r in
  let b := sample_block "b" (at_ 2024 1 2 9 0) (at_ 2024 1 2 10 0) planned r in
  let c := sample_block "c" (at_ 2024 1 3 9 0) (at_ 2024 1 3 10 0) done r in
  findBlock [a; b; c] "a" = Some (0%nat, a)
  ∧ recurrence_id a = Some "r"
  ∧ status a ≠ done
  ∧ ∃ blocks' b',
      moveBlock [a; b; c] "a" (at_ 2024 1 1 9 30) = Return blocks'
      ∧ blocks' !! 1%nat = Some b'
      ∧ start b' = at_ 2024 1 2 9 30 ∧ end_ b' = at_ 2024 1 2 10 30
      ∧ blocks' !! 2%nat = Some c.
Proof.
  intros r a b c.
  assert (Hnd : status a ≠ done) by discriminate.
  destruct (moveBlock_shifts_series [a; b; c] "a" (at_ 2024 1 1 9 30) 0 a "r"
              eq_refl eq_refl Hnd) as (blocks' & Hmove & _ & Hshift & Hdone).
  split_and!; [reflexivity | reflexivity | exact Hnd |].
  destruct (Hshift 1%nat b eq_refl) as (b' & Hb' & _ & _ & _ & _ & Hs & He);
    [discriminate | reflexivity | discriminate |].
  exists blocks', b'. split_and!;
    [exact Hmove | exact Hb' | rewrite Hs; reflexivity | rewrite He; reflexivity
    | exact (Hdone 2%nat c eq_refl eq_refl)].
Defined.

(** ** deleteBlock *)

Lemma in_series_Some (recId : string) (o : Block) :
  in_series recId o = true → ∃ r, recurrence o = Some r ∧ r_id r = recId.
Proof.
  unfold in_series. destruct (recurrence o) as [r|]; [|done].
  intros ?%bool_decide_eq_true. eauto.
Qed.

Lemma includes_elem_of (l : list Z) (x : Z) : includes l x = true ↔ x ∈ l.
Proof. unfold includes. apply bool_decide_eq_true. Qed.

Lemma add_exception_ensured (rf : BlockRecurrence) (dateISO : Z) :
  let l := default [] (exceptions rf) in
  ∃ r1, add_exception dateISO <$> ensureExceptions (Some rf) = Some r1
        ∧ r_id r1 = r_id rf
        ∧ exceptions r1 = Some (if includes l dateISO then l else l ++ [dateISO]).
Proof.
  cbv zeta. unfold ensureExceptions, add_exception.
  destruct (exceptions rf) as [l|] eqn:He; cbn.
  - rewrite He. cbn. destruct (includes l dateISO); eexists; split_and!; try reflexivity.
    exact He.
  - eexists; split_and!; reflexivity.
Qed.

Lemma elem_of_added (l : list Z) (d x : Z) :
  x ∈ (if includes l d then l else l ++ [d]) ↔ x ∈ l ∨ x = d.
Proof.
  destruct (includes l d) eqn:E.
  - apply includes_elem_of in E. split; [auto|]. intros [?| ->]; done.
  - rewrite elem_of_app, list_elem_of_singleton. done.
Qed.

Lemma cloneRecurrence_Some (r : BlockRecurrence) : cloneRecurrence (Some r) = Some r.
Proof. by destruct r. Qed.

Lemma add_exception_rule (rf : BlockRecurrence) (dateISO : Z) :
  let l := default [] (exceptions rf) in
  add_exception dateISO <$> ensureExceptions (Some rf)
  = Some (set_exceptions rf (Some (if includes l dateISO then l else l ++ [dateISO]))).
Proof.
  cbv zeta. unfold ensureExceptions, add_exception.
  destruct rf as [i t n w sd sm du un [l|]]; cbn.
  - by destruct (includes l dateISO).
  - reflexivity.
Qed.

(** C3, as stated, fails: the exceptions a remaining member had are not
    kept.  Of three copies of a series with the exceptions [], [01-20] and
    [01-25], deleting the first leaves the third with [01-20; 01-01]: it
    has lost 01-25 and gained 01-20 besides the day of the deleted block. *)
Lemma deleteBlock_single_overwrites_exceptions :
  let rule := λ ex, Some (set_exceptions (sample_rule "r" (civil 2024 1 1) 1) (Some ex)) in
  let a := sample_block "a" (at_ 2024 1 1 9 0) (at_ 2024 1 1 10 0) planned (rule []) in
  let b := sample_block "b" (at_ 2024 1 2 9 0) (at_ 2024 1 2 10 0) planned
             (rule [civil 2024 1 20]) in
  let c := sample_block "c" (at_ 2024 1 3 9 0) (at_ 2024 1 3 10 0) planned
             (rule [civil 2024 1 25]) in
  (∃ blocks', deleteBlock [a; b; c] "a" single = Return blocks'
              ∧ block_id <$> blocks' = ["b"; "c"]
              ∧ (λ o, recurrence o ≫= exceptions) <$> blocks'
                = [Some [civil 2024 1 20; civil 2024 1 1];
                   Some [civil 2024 1 20; civil 2024 1 1]])
  ∧ ¬ single_delete_as_specified [a; b; c] "a".
Proof.
  intros rule a b c. split.
  - eexists. split; [reflexivity|]. split; reflexivity.
  - intros H. destruct (H 0%nat a "r" eq_refl eq_refl) as (blocks' & Hdel & Hall).
    injection Hdel as <-.
    destruct (Hall 1%nat c eq_refl eq_refl) as (c' & Hc' & Hex).
    injection Hc' as <-.
    assert (Hin : civil 2024 1 25 ∈ [civil 2024 1 20; civil 2024 1 1]).
    { apply Hex. left. left. }
    apply elem_of_cons in Hin as [Hin|Hin]; [by vm_compute in Hin|].
    apply list_elem_of_singleton in Hin. by vm_compute in Hin.
Qed.

(** C3, amended: deleting one occurrence of a series that has another
    member removes that block and no other, and gives every remaining member
    of the series the rule of the first remaining member (first in the
    array) with the day of the deleted occurrence added to its exceptions,
    once; the id, times and status of every block are kept, and the blocks
    outside the series are left as they are.  So the day is added to the
    exceptions a member had exactly when these were those of the first
    remaining member, as they are while the members share one rule. *)
Theorem deleteBlock_single_records_exception
    (blocks : list Block) (id : string) (idx : nat) (blk : Block) (recId : string) :
  findBlock blocks id = Some (idx, blk) →
  recurrence_id blk = Some recId →
  (∃ j o, j ≠ idx ∧ blocks !! j = Some o ∧ in_series recId o = true) →
  let dateISO := toISODate (start blk) in
  let rest := delete idx blocks in
  ∃ blocks' first rf,
    deleteBlock blocks id single = Return blocks'
    ∧ block_id <$> blocks' = block_id <$> rest
    ∧ S (length blocks') = length blocks
    ∧ head (filter (λ b, in_series recId b = true) rest) = Some first
    ∧ recurrence first = Some rf
    ∧ ∀ j o, rest !! j = Some o →
        ∃ o', blocks' !! j = Some o'
              ∧ block_id o' = block_id o ∧ start o' = start o ∧ end_ o' = end_ o
              ∧ status o' = status o
              ∧ if in_series recId o then
                  let l := default [] (exceptions rf) in
                  let l' := if includes l dateISO then l else l ++ [dateISO] in
                  recurrence o' = Some (set_exceptions rf (Some l'))
                  ∧ rev o' = rev o + 1
                  ∧ (∀ x, x ∈ l' ↔ x ∈ l ∨ x = dateISO)
                  ∧ ((∀ x, x ∈ default [] (recurrence o ≫= exceptions) ↔ x ∈ l) →
                     ∀ x, x ∈ default [] (recurrence o' ≫= exceptions)
                          ↔ x ∈ default [] (recurrence o ≫= exceptions) ∨ x = dateISO)
                else o' = o.
Proof.
  intros Hfind Hrid (j0 & o0 & Hj0 & Ho0 & Hin0) dateISO rest.
  destruct (findBlock_Some _ _ _ _ Hfind) as (Hl & Hid & Hlt).
  assert (Hmem : o0 ∈ filter (λ b, in_series recId b = true) rest).
  { apply list_elem_of_filter. split; [done|]. apply list_elem_of_lookup.
    destruct (decide (j0 < idx)%nat).
    - exists j0. unfold rest. by rewrite list_lookup_delete_lt.
    - exists (pred j0). unfold rest. rewrite list_lookup_delete_ge by lia.
      by replace (S (pred j0)) with j0 by lia. }
  unfold deleteBlock. rewrite Hfind, Hrid. fold rest.
  destruct (filter (λ b, in_series recId b = true) rest) as [|first others] eqn:Hf.
  { by apply elem_of_nil in Hmem. }
  assert (Hfirst : in_series recId first = true).
  { assert (first ∈ filter (λ b, in_series recId b = true) rest) as Hx
      by (rewrite Hf; left).
    by apply list_elem_of_filter in Hx as [? _]. }
  destruct (in_series_Some _ _ Hfirst) as (rf & Hrf & Hrfid).
  rewrite Hrf.
  pose proof (add_exception_rule rf dateISO) as Hr1. cbv zeta in Hr1.
  unfold dateISO in Hr1. rewrite Hr1.
  eexists _, first, rf. split; [reflexivity|].
  split_and!.
  - rewrite <- list_fmap_compose. apply list_fmap_ext. intros _ o _.
    cbn. by destruct (in_series recId o).
  - rewrite length_fmap. unfold rest. rewrite length_delete by eauto. lia.
  - reflexivity.
  - exact Hrf.
  - intros j o Hj. rewrite list_lookup_fmap, Hj. cbn [fmap option_fmap option_map].
    eexists. split; [reflexivity|].
    destruct (in_series recId o) eqn:Hin; [|done].
    split_and!; try reflexivity.
    + apply elem_of_added.
    + intros Hsame x. cbn [recurrence bump_rev set_rev set_recurrence_of].
      rewrite cloneRecurrence_Some.
      cbn [mbind option_bind exceptions set_exceptions default]. unfold Datatypes.id.
      rewrite elem_of_added, Hsame. reflexivity.
Qed.

Lemma deleteBlock_single_records_exception_witness :
  let rule := λ ex, Some (set_exceptions (sample_rule "r" (civil 2024 1 1) 1) (Some ex)) in
  let a := sample_block "a" (at_ 2024 1 1 9 0) (at_ 2024 1 1 10 0) planned (rule []) in
  let b := sample_block "b" (at_ 2024 1 2 9 0) (at_ 2024 1 2 10 0) planned
             (rule [civil 2024 1 20]) in
  let c := sample_block "c" (at_ 2024 1 3 9 0) (at_ 2024 1 3 10 0) done
             (rule [civil 2024 1 25]) in
  findBlock [a; b; c] "a" = Some (0%nat, a)
  ∧ recurrence_id a = Some "r"
  ∧ ∃ blocks' c',
      deleteBlock [a; b; c] "a" single = Return blocks'
      ∧ block_id <$> blocks' = ["b"; "c"]
      ∧ blocks' !! 1%nat = Some c'
      ∧ status c' = done
      ∧ (recurrence c' ≫= exceptions) = Some [civil 2024 1 20; civil 2024 1 1].
Proof.
  intros rule a b c.
  assert (Hother : ∃ j o, j ≠ 0%nat ∧ [a; b; c] !! j = Some o ∧ in_series "r" o = true).
  { exists 1%nat, b. split_and!; [discriminate | reflexivity | reflexivity]. }
  destruct (deleteBlock_single_records_exception [a; b; c] "a" 0 a "r"
              eq_refl eq_refl Hother)
    as (blocks' & first & rf & Hdel & Hids & _ & Hfirst & Hrf & Hrest).
  split_and!; [reflexivity | reflexivity |].
  destruct (Hrest 1%nat c eq_refl) as (c' & Hc' & _ & _ & _ & Hst & Hexc).
  injection Hfirst as <-. injection Hrf as <-.
  destruct Hexc as (Hr' & _).
  exists blocks', c'. split_and!; [exact Hdel | exact Hids | exact Hc' | exact Hst |].
  rewrite Hr'. reflexivity.
Defined.

(** ** shouldIncludeDate *)

Lemma toISODate_ofISODate (d : Z) : toISODate (ofISODate d) = d.
Proof. unfold toISODate, ofISODate, MS_PER_DAY. apply Z.div_mul. lia. Qed.

Lemma toISODate_bounds (dt : DateTime) :
  ofISODate (toISODate dt) <= dt < ofISODate (toISODate dt) + MS_PER_DAY.
Proof.
  unfold ofISODate, toISODate, MS_PER_DAY.
  pose proof (Z.div_mod dt 86400000 ltac:(lia)).
  pose proof (Z.mod_pos_bound dt 86400000 ltac:(lia)). lia.
Qed.

Lemma diff_days_startOfDay (x y : DateTime) :
  Qfloor (diff_days (startOfDay x) (startOfDay y)) = toISODate x - toISODate y.
Proof.
  unfold diff_days, startOfDay, ofISODate, MS_PER_DAY, Qfloor.
  rewrite <- Z.mul_sub_distr_r. apply Z.div_mul. lia.
Qed.

Lemma if_false_else (b x : bool) :
  (if b then false else x) = true ↔ b = false ∧ x = true.
Proof. destruct b; intuition congruence. Qed.

Lemma rem_multiple (n k : Z) :
  1 <= k →
  (bool_decide (0 <= n) && bool_decide (Z.rem n k = 0)) = true ↔ 0 <= n ∧ (k | n).
Proof.
  intros Hk. rewrite andb_true_iff, !bool_decide_eq_true, Z.rem_divide by lia. done.
Qed.

Lemma beyond_until (u : Z) (date : DateTime) :
  endOfDay (ofISODate u) < startOfDay date ↔ u < toISODate date.
Proof.
  unfold endOfDay, startOfDay. rewrite toISODate_ofISODate.
  unfold ofISODate, MS_PER_DAY. lia.
Qed.

Lemma before_anchor (a : Z) (date : DateTime) :
  date < ofISODate a ↔ toISODate date < a.
Proof.
  pose proof (toISODate_bounds date) as Hb.
  unfold ofISODate, MS_PER_DAY in *. lia.
Qed.

Lemma diff_weeks_startOfWeek (x y : DateTime) :
  Qfloor (diff_weeks (startOfWeek x) (startOfWeek y))
  = week_of (toISODate x) - week_of (toISODate y).
Proof.
  unfold diff_weeks, startOfWeek, weekday, ofISODate, week_of, MS_PER_DAY, Qfloor.
  set (dx := toISODate x). set (dy := toISODate y).
  Z.div_mod_to_equations. lia.
Qed.

Lemma week_of_mono (a d : Z) : a <= d → week_of a <= week_of d.
Proof. unfold week_of. intros. Z.div_mod_to_equations. lia. Qed.

Lemma shouldIncludeDate_char (rec : BlockRecurrence) (date : DateTime) (a : Z) :
  startDate rec = Some a →
  let day := toISODate date in
  shouldIncludeDate rec date = true
  ↔ a <= day
    ∧ (∀ u, until rec = Some (Some u) → day <= u)
    ∧ (day ∉ default [] (exceptions rec))
    ∧ match r_type rec with
      | daily => (Z.max 1 (interval rec) | day - a)
      | weekly => weekday date ∈ rule_weekdays rec a
                  ∧ (Z.max 1 (interval rec) | week_of day - week_of a)
      end.
Proof.
  intros Ha day.
  unfold shouldIncludeDate, includes. rewrite Ha.
  rewrite diff_days_startOfDay, diff_weeks_startOfWeek, toISODate_ofISODate. fold day.
  fold (rule_weekdays rec a).
  assert (Hlimit : (∀ u, until rec = Some (Some u) → day <= u)
                   ↔ match until rec with
                      | Some (Some u) => ¬ (endOfDay (ofISODate u) < startOfDay date)
                      | _ => True
                      end).
  { destruct (until rec) as [[u|]|].
    - rewrite beyond_until. fold day. split; [intros H; specialize (H u eq_refl); lia|].
      intros ? ? [= <-]. lia.
    - split; [done | by intros _ ? [=]].
    - split; [done | by intros _ ? [=]]. }
  rewrite Hlimit. clear Hlimit.
  pose proof (before_anchor a date) as Hanchor. fold day in Hanchor.
  pose proof (week_of_mono a day) as Hweek.
  destruct (r_type rec).
  - rewrite !if_false_else, !bool_decide_eq_false, rem_multiple by lia.
    destruct (until rec) as [[u|]|]; rewrite ?bool_decide_eq_false; intuition lia.
  - rewrite !if_false_else, negb_false_iff, !bool_decide_eq_false, bool_decide_eq_true,
      rem_multiple by lia.
    destruct (until rec) as [[u|]|]; rewrite ?bool_decide_eq_false; intuition lia.
Qed.

(** C6, as stated, fails for an interval below 1: the code divides by
    max(1, interval), so a rule with interval 0 or -2 anchored on 2024-01-01
    includes 2024-01-02, one day after the anchor, although 1 is divisible
    by neither. *)
Lemma daily_interval_below_one :
  let every := λ n, sample_rule "r" (civil 2024 1 1) n in
  shouldIncludeDate (every 0) (at_ 2024 1 2 0 0) = true
  ∧ ¬ daily_as_specified (every 0) (at_ 2024 1 2 0 0)
  ∧ shouldIncludeDate (every (-2)) (at_ 2024 1 2 0 0) = true
  ∧ ¬ daily_as_specified (every (-2)) (at_ 2024 1 2 0 0).
Proof.
  intros every.
  assert (Hday : toISODate (at_ 2024 1 2 0 0) - civil 2024 1 1 = 1) by reflexivity.
  split_and!; [reflexivity | | reflexivity |].
  - intros (a & [= <-] & _ & _ & _ & (k & Hk)). rewrite Hday in Hk. cbn in Hk. lia.
  - intros (a & [= <-] & _ & _ & _ & (k & Hk)). rewrite Hday in Hk. cbn in Hk. lia.
Qed.

(** C6, amended: a daily rule includes a day exactly when its anchor date
    can be parsed, the day is not before the anchor, not after the day of
    [until] when that is set and can be parsed, not among the exceptions,
    and the number of days from the anchor to the day is divisible by
    max(1, interval); for an interval of at least 1 this is the condition as
    specified.  With anchor 2024-01-01 and interval 2, the qualifying days
    of a 10-day horizon are 01-01, 01-03, 01-05, 01-07 and 01-09. *)
Theorem shouldIncludeDate_daily :
  (∀ (rec : BlockRecurrence) (date : DateTime),
     r_type rec = daily →
     let day := toISODate date in
     shouldIncludeDate rec date = true
     ↔ ∃ a, startDate rec = Some a
            ∧ a <= day
            ∧ (∀ u, until rec = Some (Some u) → day <= u)
            ∧ (day ∉ default [] (exceptions rec))
            ∧ (Z.max 1 (interval rec) | day - a))
  ∧ (∀ (rec : BlockRecurrence) (date : DateTime),
       r_type rec = daily → 1 <= interval rec →
       shouldIncludeDate rec date = true ↔ daily_as_specified rec date)
  ∧ qualifying (sample_rule "r" (civil 2024 1 1) 2) (civil 2024 1 1) 10
    = [civil 2024 1 1; civil 2024 1 3; civil 2024 1 5; civil 2024 1 7; civil 2024 1 9].
Proof.
  assert (Hgen : ∀ (rec : BlockRecurrence) (date : DateTime),
            r_type rec = daily →
            shouldIncludeDate rec date = true
            ↔ ∃ a, startDate rec = Some a
                   ∧ a <= toISODate date
                   ∧ (∀ u, until rec = Some (Some u) → toISODate date <= u)
                   ∧ (toISODate date ∉ default [] (exceptions rec))
                   ∧ (Z.max 1 (interval rec) | toISODate date - a)).
  { intros rec date Hty. destruct (startDate rec) as [a|] eqn:Ha.
    - pose proof (shouldIncludeDate_char rec date a Ha) as H. cbv zeta in H.
      rewrite Hty in H. rewrite H. split.
      + intros (? & ? & ? & ?). exists a. done.
      + intros (a' & [= <-] & ? & ? & ? & ?). done.
    - split.
      + unfold shouldIncludeDate. by rewrite Ha.
      + by intros (a' & [=] & _). }
  split_and!; [exact Hgen | | reflexivity].
  intros rec date Hty Hint. rewrite (Hgen rec date Hty). unfold daily_as_specified.
  by rewrite Z.max_r by lia.
Qed.

Lemma shouldIncludeDate_daily_witness :
  let rec := sample_rule "r" (civil 2024 1 1) 0 in
  r_type rec = daily
  ∧ (shouldIncludeDate rec (at_ 2024 1 5 0 0) = true
     ↔ ∃ a, startDate rec = Some a
            ∧ a <= civil 2024 1 5
            ∧ (∀ u, until rec = Some (Some u) → civil 2024 1 5 <= u)
            ∧ (civil 2024 1 5 ∉ default [] (exceptions rec))
            ∧ (Z.max 1 (interval rec) | civil 2024 1 5 - a)).
Proof.
  intros rec. split; [reflexivity|].
  exact (proj1 shouldIncludeDate_daily rec (at_ 2024 1 5 0 0) eq_refl).
Defined.

(** The second recurrence example of the specification: an exception on
    01-05 removes that day and no other. *)
Example qualifying_with_exception :
  qualifying (set_exceptions (sample_rule "r" (civil 2024 1 1) 2) (Some [civil 2024 1 5]))
             (civil 2024 1 1) 10
  = [civil 2024 1 1; civil 2024 1 3; civil 2024 1 7; civil 2024 1 9].
Proof. reflexivity. Qed.

(** ** The command pipeline *)

Section PipelineFacts.

Variable nid : string → nat → string.
Variable now : nat → DateTime.

Lemma apply_command_pushes_one (st : Run) (cmd : AICommandEnvelope) :
  ∃ r, out (apply_command nid now st cmd) = out st ++ [r]
       ∧ (for_ r = env_id cmd ∨ for_ r = Some (default "N/A" (env_id cmd))).
Proof.
  unfold apply_command, run_command.
  destruct (env_command cmd) as [c|]; [|eexists; split; [reflexivity | by right]].
  destruct c; try (eexists; split; [reflexivity | by left]).
  - destruct (findBlock (blocks st) p_block_id) as [[i b]|];
      eexists; (split; [reflexivity|]); [by left | by right].
  - destruct (findBlock (blocks st) p_block_id) as [[i b]|];
      eexists; (split; [reflexivity|]); [by left | by right].
  - destruct (findBlock (blocks st) p_block_id) as [[i b]|];
      eexists; (split; [reflexivity|]); [by left | by right].
  - destruct (findTask (tasks st) p_task_id) as [[i t]|];
      eexists; (split; [reflexivity|]); [by left | by right].
  - destruct (findTask (tasks st) p_task_id) as [[i t]|];
      eexists; (split; [reflexivity|]); [by left | by right].
Qed.

Lemma apply_commands_results (lines : list AICommandEnvelope) (st : Run) :
  ∃ rs, out (apply_commands nid now lines st) = out st ++ rs
        ∧ Forall2 (λ cmd r, for_ r = env_id cmd
                             ∨ for_ r = Some (default "N/A" (env_id cmd))) lines rs.
Proof.
  revert st. induction lines as [|cmd lines IH]; intros st.
  - exists []. split; [by rewrite app_nil_r | constructor].
  - destruct (apply_command_pushes_one st cmd) as (r & Hr & Hfor).
    destruct (IH (apply_command nid now st cmd)) as (rs & Hrs & Hall).
    exists (r :: rs). split; [|by constructor].
    unfold apply_commands in *. cbn [foldl]. rewrite Hrs, Hr, <- app_assoc. done.
Qed.

Lemma apply_commands_app (pre post : list AICommandEnvelope) (st : Run) :
  apply_commands nid now (pre ++ post) st
  = apply_commands nid now post (apply_commands nid now pre st).
Proof. unfold apply_commands. apply foldl_app. Qed.

Lemma not_found_command (st : Run) (cmd : AICommandEnvelope) (c : Command) :
  env_command cmd = Some c →
  looks_up_missing (tasks st) (blocks st) c →
  ∃ what, apply_command nid now st cmd
          = push_out st (failed (Some (default "N/A" (env_id cmd)))
                           ("Error: " +:+ "NOT_FOUND:" +:+ what)).
Proof.
  intros Hc Hmiss. unfold apply_command, run_command. rewrite Hc.
  destruct c; try done; cbn in Hmiss; rewrite Hmiss;
    [exists " block" | exists " block" | exists " block" | exists " task" | exists " task"];
    reflexivity.
Qed.

Lemma unsupported_command (st : Run) (cmd : AICommandEnvelope) (c : Command) (t : string) :
  env_command cmd = Some c →
  unsupported_type c = Some t →
  apply_command nid now st cmd
  = push_out st (failed (env_id cmd) ("UNSUPPORTED: " +:+ t)).
Proof.
  intros Hc Ht. unfold apply_command, run_command. rewrite Hc.
  destruct c; try done; by injection Ht as <-.
Qed.

End PipelineFacts.

(** C5, as stated, fails: create_block does not check the task that its
    block is attached to.  With no task at all, a create_block for the task
    'ghost' succeeds and the block is created. *)
Lemma create_block_for_a_missing_task :
  let nid := λ (prefix : string) (_ : nat), prefix in
  let now := λ _ : nat, at_ 2024 1 1 0 0 in
  let p := {| cb_block_id := Some "b1"; cb_task_id := Some "ghost"; cb_title := None;
              cb_start := at_ 2024 1 1 9 0; cb_end := at_ 2024 1 1 10 0;
              cb_recurrence := None |} in
  let cmd := sample_envelope "1" (create_block p) in
  references_missing (tasks empty_run) (blocks empty_run) (create_block p)
  ∧ (ok <$> out (apply_command nid now empty_run cmd)) = [true]
  ∧ (error <$> out (apply_command nid now empty_run cmd)) = [None]
  ∧ ((λ b, (block_id b, task_id b)) <$> blocks (apply_command nid now empty_run cmd))
    = [("b1", Some "ghost")]
  ∧ ¬ not_found_as_specified nid now empty_run cmd.
Proof.
  intros nid now p cmd.
  assert (Hmiss : references_missing (tasks empty_run) (blocks empty_run) (create_block p)).
  { right. by exists "ghost". }
  split_and!; [exact Hmiss | reflexivity | reflexivity | reflexivity |].
  intros H. destruct (H (create_block p) eq_refl Hmiss) as (r & msg & Hstep & Hok & _).
  apply (f_equal (λ st, ok <$> out st)) in Hstep. cbn in Hstep.
  injection Hstep as Hstep. congruence.
Qed.

Section PipelineSteps.

Variable nid : string → nat → string.
Variable now : nat → DateTime.

(** The result list is only written: what a command does to the
    collections, and the result it pushes, do not depend on it. *)
Lemma apply_command_same_data (st st' : Run) (cmd : AICommandEnvelope) :
  tasks st = tasks st' → blocks st = blocks st' → tick st = tick st' →
  ∃ r, out (apply_command nid now st cmd) = out st ++ [r]
       ∧ out (apply_command nid now st' cmd) = out st' ++ [r]
       ∧ tasks (apply_command nid now st cmd) = tasks (apply_command nid now st' cmd)
       ∧ blocks (apply_command nid now st cmd) = blocks (apply_command nid now st' cmd)
       ∧ tick (apply_command nid now st cmd) = tick (apply_command nid now st' cmd).
Proof.
  destruct st as [ts bs o n], st' as [ts' bs' o' n']. cbn. intros <- <- <-.
  unfold apply_command, run_command. cbn [tasks blocks out tick].
  destruct (env_command cmd) as [c|]; [destruct c|];
    try (eexists; split_and!; reflexivity).
  - destruct (findBlock bs p_block_id) as [[i b]|]; eexists; split_and!; reflexivity.
  - destruct (findBlock bs p_block_id) as [[i b]|]; eexists; split_and!; reflexivity.
  - destruct (findBlock bs p_block_id) as [[i b]|]; eexists; split_and!; reflexivity.
  - destruct (findTask ts p_task_id) as [[i t]|]; eexists; split_and!; reflexivity.
  - destruct (findTask ts p_task_id) as [[i t]|]; eexists; split_and!; reflexivity.
Qed.

Lemma apply_commands_same_data (lines : list AICommandEnvelope) (st st' : Run) :
  tasks st = tasks st' → blocks st = blocks st' → tick st = tick st' →
  ∃ rs, out (apply_commands nid now lines st) = out st ++ rs
        ∧ out (apply_commands nid now lines st') = out st' ++ rs
        ∧ tasks (apply_commands nid now lines st) = tasks (apply_commands nid now lines st')
        ∧ blocks (apply_commands nid now lines st) = blocks (apply_commands nid now lines st')
        ∧ tick (apply_commands nid now lines st) = tick (apply_commands nid now lines st').
Proof.
  revert st st'. induction lines as [|cmd lines IH]; intros st st' Ht Hb Hn.
  - exists []. by rewrite !app_nil_r.
  - destruct (apply_command_same_data st st' cmd Ht Hb Hn) as (r & Ho & Ho' & Ht1 & Hb1 & Hn1).
    destruct (IH _ _ Ht1 Hb1 Hn1) as (rs & Hrs & Hrs' & ? & ? & ?).
    exists (r :: rs). unfold apply_commands in *. cbn [foldl].
    rewrite Hrs, Hrs', Ho, Ho', <- !app_assoc. done.
Qed.

(** What one more command does to the collections reached by any batch
    before it. *)
Lemma apply_commands_snoc (pre : list AICommandEnvelope) (next : AICommandEnvelope)
    (st : Run) :
  apply_commands nid now (pre ++ [next]) st
  = apply_command nid now (apply_commands nid now pre st) next.
Proof. by rewrite apply_commands_app. Qed.

End PipelineSteps.

(** C5, amended: the pipeline pushes exactly one result per envelope, and
    applyCommandsFromInbox returns these results, writes them to the result
    file and saves the collections that the batch has led to.  A command
    that looks up a block or a task that does not exist (move_block,
    resize_block, complete_block, update_task, set_recurrence) yields a
    failed result carrying the NOT_FOUND: tag, a command of an unsupported
    type one carrying the UNSUPPORTED: tag, and neither changes a
    collection.  The rest of the batch is applied all the same: the
    collections it leads to, and the results after the failed one, are
    those of the batch without the failed command; and every command of a
    batch, whatever precedes it, has its effect on the collections reached
    so far. *)
Theorem failed_command_never_aborts (nid : string → nat → string) (now : nat → DateTime) :
  (∀ lines st,
     ∃ rs, out (apply_commands nid now lines st) = out st ++ rs
           ∧ length rs = length lines
           ∧ Forall2 (λ cmd r, for_ r = env_id cmd
                                ∨ for_ r = Some (default "N/A" (env_id cmd))) lines rs)
  ∧ (∀ parseJSONL extendRecurringBlocks f n raw lines,
       commands_jsonl f = Some raw → raw ≠ [] → parseJSONL raw = Return lines →
       let final := apply_commands nid now lines
                      {| tasks := tasks_jsonl f;
                         blocks := extendRecurringBlocks n (blocks_jsonl f);
                         out := []; tick := S n |} in
       ∃ f' n',
         applyCommandsFromInbox nid now parseJSONL extendRecurringBlocks f n
         = (f', n', Return (out final))
         ∧ length (out final) = length lines
         ∧ result_jsonl f' = result_jsonl f ++ [out final]
         ∧ tasks_jsonl f' = tasks final ∧ blocks_jsonl f' = blocks final)
  ∧ (∀ pre post cmd c st,
       env_command cmd = Some c →
       let st1 := apply_commands nid now pre st in
       looks_up_missing (tasks st1) (blocks st1) c ∨ is_Some (unsupported_type c) →
       ∃ r msg,
         apply_command nid now st1 cmd = push_out st1 r
         ∧ ok r = false ∧ error r = Some msg
         ∧ (looks_up_missing (tasks st1) (blocks st1) c → carries "NOT_FOUND:" msg)
         ∧ (∀ t, unsupported_type c = Some t → msg = "UNSUPPORTED: " +:+ t)
         ∧ (let with_failure := apply_commands nid now (pre ++ cmd :: post) st in
            let without := apply_commands nid now (pre ++ post) st in
            tasks with_failure = tasks without
            ∧ blocks with_failure = blocks without
            ∧ ∃ rs, out without = out st1 ++ rs
                    ∧ out with_failure = out st1 ++ r :: rs
                    ∧ length rs = length post))
  ∧ (∀ pre st eid,
       let s := apply_commands nid now pre st in
       let after c := apply_commands nid now
                        (pre ++ [{| env_id := eid; env_command := Some c |}]) st in
       (∀ p, ∃ t, tasks (after (create_task p)) = tasks s ++ [t]
                  ∧ tk_task_id t = default (nid "tsk" (tick s)) (ct_task_id p)
                  ∧ blocks (after (create_task p)) = blocks s)
       ∧ (∀ p, ∃ b, blocks (after (create_block p)) = blocks s ++ [b]
                    ∧ block_id b = default (nid "blk" (tick s)) (cb_block_id p)
                    ∧ start b = cb_start p ∧ end_ b = cb_end p ∧ status b = planned
                    ∧ task_id b = cb_task_id p
                    ∧ tasks (after (create_block p)) = tasks s)
       ∧ (∀ id i b, findBlock (blocks s) id = Some (i, b) →
            (∀ t, blocks (after (move_block id t)) = <[i := move_to b t]> (blocks s))
            ∧ (∀ t, blocks (after (resize_block id t))
                    = <[i := bump_rev (set_end b t)]> (blocks s))
            ∧ blocks (after (complete_block id)) = <[i := set_status b done]> (blocks s))
       ∧ (∀ id i t, findTask (tasks s) id = Some (i, t) →
            (∀ patch, tasks (after (update_task id patch))
                      = <[i := assign_task t (default empty_patch patch)]> (tasks s))
            ∧ (∀ rrule, tasks (after (set_recurrence id rrule))
                        = <[i := set_task_recurrence t
                                   (Some (spread_set (default [] (tk_recurrence t))
                                            "rrule" rrule))]> (tasks s)))).
Proof.
  split_and!.
  - intros lines st. destruct (apply_commands_results nid now lines st) as (rs & Hrs & Hall).
    exists rs. split_and!; [done | symmetry; by eapply Forall2_length | done].
  - intros parseJSONL extendRecurringBlocks f n raw lines Hinbox Hne Hparse final.
    unfold applyCommandsFromInbox. rewrite Hinbox.
    destruct raw as [|c raw]; [done|]. rewrite Hparse. fold final.
    destruct (apply_commands_results nid now lines
                {| tasks := tasks_jsonl f;
                   blocks := extendRecurringBlocks n (blocks_jsonl f);
                   out := []; tick := S n |}) as (rs & Hrs & Hall).
    fold final in Hrs. cbn [out app] in Hrs.
    eexists _, _. split_and!; [reflexivity | | reflexivity | reflexivity | reflexivity].
    rewrite Hrs. symmetry. by eapply Forall2_length.
  - intros pre post cmd c st Hc st1 Hfail.
    assert (Hbatch : ∀ r, apply_command nid now st1 cmd = push_out st1 r →
              let with_failure := apply_commands nid now (pre ++ cmd :: post) st in
              let without := apply_commands nid now (pre ++ post) st in
              tasks with_failure = tasks without
              ∧ blocks with_failure = blocks without
              ∧ ∃ rs, out without = out st1 ++ rs
                      ∧ out with_failure = out st1 ++ r :: rs
                      ∧ length rs = length post).
    { intros r Hr. cbv zeta. rewrite !apply_commands_app. fold st1.
      assert (Hcons : apply_commands nid now (cmd :: post) st1
                      = apply_commands nid now post (push_out st1 r)).
      { unfold apply_commands. cbn [foldl]. by rewrite Hr. }
      rewrite Hcons.
      destruct (apply_commands_same_data nid now post (push_out st1 r) st1
                  eq_refl eq_refl eq_refl) as (rs & Ho & Ho' & Ht & Hb & _).
      split_and!; [done | done |]. exists rs. split_and!; [done | |].
      - rewrite Ho. cbn [out push_out]. by rewrite <- app_assoc.
      - destruct (apply_commands_results nid now post st1) as (rs' & Hrs' & Hall).
        rewrite Ho' in Hrs'. apply app_inv_head in Hrs' as ->.
        symmetry. by eapply Forall2_length. }
    destruct Hfail as [Hmiss|[t Ht]].
    + destruct (not_found_command nid now st1 cmd c Hc Hmiss) as (what & Hstep).
      eexists _, _. split_and!; [exact Hstep | reflexivity | reflexivity | | | by apply Hbatch].
      * intros _. by exists "Error: ", what.
      * intros t Ht. destruct c; done.
    + pose proof (unsupported_command nid now st1 cmd c t Hc Ht) as Hstep.
      eexists _, _. split_and!; [exact Hstep | reflexivity | reflexivity | | | by apply Hbatch].
      * intros Hmiss. destruct c; done.
      * intros t' Ht'. congruence.
  - intros pre st eid s after. unfold after. split_and!.
    + intros p. rewrite apply_commands_snoc. fold s. eexists. split_and!; reflexivity.
    + intros p. rewrite apply_commands_snoc. fold s. eexists. split_and!; reflexivity.
    + intros id i b Hfind. split_and!; intros; rewrite apply_commands_snoc; fold s;
        unfold apply_command, run_command; cbn [env_command env_id]; by rewrite Hfind.
    + intros id i t Hfind. split_and!; intros; rewrite apply_commands_snoc; fold s;
        unfold apply_command, run_command; cbn [env_command env_id]; by rewrite Hfind.
Qed.

Lemma failed_command_never_aborts_witness :
  let nid := λ (prefix : string) (_ : nat), prefix in
  let now := λ _ : nat, at_ 2024 1 1 0 0 in
  let pre := [sample_envelope "1"
                (create_block {| cb_block_id := Some "b1"; cb_task_id := None;
                                 cb_title := None; cb_start := at_ 2024 1 1 9 0;
                                 cb_end := at_ 2024 1 1 10 0; cb_recurrence := None |})] in
  let cmd := sample_envelope "2" (move_block "ghost" (at_ 2024 1 1 11 0)) in
  let post := [sample_envelope "3" (complete_block "b1")] in
  let st1 := apply_commands nid now pre empty_run in
  looks_up_missing (tasks st1) (blocks st1) (move_block "ghost" (at_ 2024 1 1 11 0))
  ∧ ∃ r msg,
      apply_command nid now st1 cmd = push_out st1 r
      ∧ ok r = false ∧ error r = Some msg ∧ carries "NOT_FOUND:" msg
      ∧ blocks (apply_commands nid now (pre ++ cmd :: post) empty_run)
        = blocks (apply_commands nid now (pre ++ post) empty_run)
      ∧ (status <$> blocks (apply_commands nid now (pre ++ cmd :: post) empty_run)) = [done]
      ∧ (ok <$> out (apply_commands nid now (pre ++ cmd :: post) empty_run))
        = [true; false; true].
Proof.
  intros nid now pre cmd post st1.
  assert (Hmiss : looks_up_missing (tasks st1) (blocks st1)
                    (move_block "ghost" (at_ 2024 1 1 11 0))) by reflexivity.
  split; [exact Hmiss|].
  destruct (proj1 (proj2 (proj2 (failed_command_never_aborts nid now))) pre post cmd
              (move_block "ghost" (at_ 2024 1 1 11 0)) empty_run eq_refl (or_introl Hmiss))
    as (r & msg & Hstep & Hok & Herr & Htag & _ & Hbatch).
  cbv zeta in Hbatch. destruct Hbatch as (_ & Hblocks & _).
  exists r, msg.
  split_and!; [exact Hstep | exact Hok | exact Herr | exact (Htag Hmiss) | exact Hblocks
              | reflexivity | reflexivity].
Defined.

Example batch_with_a_failure :
  let nid := λ (prefix : string) (_ : nat), prefix in
  let now := λ _ : nat, at_ 2024 1 1 0 0 in
  let batch := [sample_envelope "1"
                  (create_block {| cb_block_id := Some "b1"; cb_task_id := None;
                                   cb_title := None; cb_start := at_ 2024 1 1 9 0;
                                   cb_end := at_ 2024 1 1 10 0; cb_recurrence := None |});
                sample_envelope "2" (move_block "ghost" (at_ 2024 1 1 11 0));
                sample_envelope "3" (other_command "snooze");
                sample_envelope "4" (complete_block "b1")] in
  let st := apply_commands nid now batch empty_run in
  (ok <$> out st) = [true; false; false; true]
  ∧ (error <$> out st) = [None; Some "Error: NOT_FOUND: block";
                          Some "UNSUPPORTED: snooze"; None]
  ∧ (status <$> blocks st) = [done].
Proof. split_and!; reflexivity. Qed.

(** ** The batch signature *)

Example hashStr_abc : hashStr (code_units "abc") = "96354".
Proof. reflexivity. Qed.

Example hashStr_wraps : hashStr (code_units "polygenelubricants") = "-2147483648".
Proof. reflexivity. Qed.

Lemma signature_nonempty (raw : JSString) : raw ≠ [] → signature raw ≠ "".
Proof.
  destruct raw as [|c raw]; [done|]. intros _. unfold signature.
  destruct (pretty (Z.of_nat (length (c :: raw)))); discriminate.
Qed.

(** C4: the signature of a non-empty inbox is its length, a colon and its
    rolling hash; when it equals the last applied signature the application
    is skipped and nothing but the status message changes; and once a
    batch has been applied, applying the unchanged inbox again is skipped. *)
Theorem unchanged_batch_is_skipped
    (nid : string → nat → string) (now : nat → DateTime)
    (parseJSONL : JSString → Completion (list AICommandEnvelope))
    (extendRecurringBlocks : nat → list Block → list Block)
    (a : App) (raw : JSString) :
  commands_jsonl (files a) = Some raw →
  raw ≠ [] →
  let apply := onApplyCommands nid now parseJSONL extendRecurringBlocks in
  signature raw = pretty (Z.of_nat (length raw)) +:+ ":" +:+ hashStr raw
  ∧ (lastSig a = signature raw →
     apply a = setMessage a "已是最新命令，跳过。"
     ∧ files (apply a) = files a
     ∧ app_tasks (apply a) = app_tasks a ∧ app_blocks (apply a) = app_blocks a
     ∧ clock (apply a) = clock a)
  ∧ (∀ lines, parseJSONL raw = Return lines →
     lastSig (apply a) = signature raw
     ∧ commands_jsonl (files (apply a)) = Some raw
     ∧ apply (apply a) = setMessage (apply a) "已是最新命令，跳过。").
Proof.
  intros Hinbox Hne apply.
  pose proof (signature_nonempty raw Hne) as Hsig.
  assert (Hskip : ∀ a', commands_jsonl (files a') = Some raw → lastSig a' = signature raw →
                        apply a' = setMessage a' "已是最新命令，跳过。").
  { intros a' Hin Hlast. unfold apply, onApplyCommands.
    cbn [setMessage files lastSig]. rewrite Hin. cbn [default].
    rewrite bool_decide_eq_true_2 by done.
    rewrite bool_decide_eq_true_2 by done. cbn [andb].
    reflexivity. }
  split_and!.
  - destruct raw; [done | reflexivity].
  - intros Hlast. rewrite (Hskip a Hinbox Hlast). done.
  - intros lines Hparse.
    assert (Hfirst : lastSig (apply a) = signature raw
                     ∧ commands_jsonl (files (apply a)) = Some raw).
    { destruct (decide (lastSig a = signature raw)) as [Hlast|Hlast].
      { rewrite (Hskip a Hinbox Hlast). done. }
      unfold apply, onApplyCommands.
      cbn [setMessage files lastSig clock]. rewrite Hinbox. cbn [default].
      rewrite (bool_decide_eq_true_2 (signature raw ≠ "")) by done.
      rewrite (bool_decide_eq_false_2 (signature raw = lastSig a)) by done.
      cbn [andb]. unfold applyCommandsFromInbox. rewrite Hinbox.
      destruct raw as [|c raw']; [done|]. rewrite Hparse. done. }
    destruct Hfirst as [H1 H2]. split_and!; [done | done |].
    by apply Hskip.
Qed.

Lemma unchanged_batch_is_skipped_witness :
  let nid := λ (prefix : string) (_ : nat), prefix in
  let now := λ _ : nat, at_ 2024 1 1 0 0 in
  let parse := λ _ : JSString, Return ([] : list AICommandEnvelope) in
  let extend := λ (_ : nat) (bs : list Block), bs in
  let a := sample_app (Some (code_units "abc")) "3:96354" in
  commands_jsonl (files a) = Some (code_units "abc")
  ∧ code_units "abc" ≠ []
  ∧ lastSig a = signature (code_units "abc")
  ∧ onApplyCommands nid now parse extend a = setMessage a "已是最新命令，跳过。".
Proof.
  intros nid now parse extend a.
  assert (Hne : code_units "abc" ≠ []) by discriminate.
  split_and!; [reflexivity | exact Hne | reflexivity |].
  exact (proj1 (proj1 (proj2 (unchanged_batch_is_skipped nid now parse extend a
                                (code_units "abc") eq_refl Hne)) eq_refl)).
Defined.

(** ** The clip policy on a resize *)

Lemma clip_fold_spec (sM eM : Z) (items : list Item) (init : Z) :
  let cond it := overlaps sM eM (it_s it) (it_e it) && (sM <? it_s it) in
  let lim := foldl (λ limit it, if cond it then Z.min limit (it_s it) else limit) init items in
  lim <= init
  ∧ (∀ it, it ∈ items → cond it = true → lim <= it_s it)
  ∧ (lim = init ∨ ∃ it, it ∈ items ∧ cond it = true ∧ lim = it_s it).
Proof.
  cbv zeta. revert init. induction items as [|it items IH]; intros init; cbn [foldl].
  - split_and!; [lia | by intros ? ?%elem_of_nil | by left].
  - destruct (overlaps sM eM (it_s it) (it_e it) && (sM <? it_s it)) eqn:E.
    + destruct (IH (Z.min init (it_s it))) as (H1 & H2 & H3).
      split_and!; [lia | |].
      * intros it' [->|Hin]%elem_of_cons Hc; [lia | by apply H2].
      * destruct H3 as [H3|(it' & ? & ? & ?)].
        -- destruct (Z.min_spec init (it_s it)) as [[? Hm]|[? Hm]].
           ++ left. lia.
           ++ right. exists it. split_and!; [left | done | lia].
        -- right. exists it'. split_and!; [by right | done | done].
    + destruct (IH init) as (H1 & H2 & H3).
      split_and!; [done | |].
      * intros it' [->|Hin]%elem_of_cons Hc; [congruence | by apply H2].
      * destruct H3 as [H3|(it' & ? & ? & ?)]; [by left|].
        right. exists it'. split_and!; [by right | done | done].
Qed.

Lemma overlaps_later_start (sM eM s e : Z) :
  overlaps sM eM s e = true → s < eM.
Proof. unfold overlaps. intros ?%bool_decide_eq_true. lia. Qed.

Lemma resizeBlock_keeps_starts (bs : list Block) (id : string) (newEndISO : DateTime)
    (blocks' : list Block) :
  resizeBlock bs id newEndISO = Return blocks' → start <$> blocks' = start <$> bs.
Proof.
  unfold resizeBlock. destruct (findBlock bs id) as [[i b0]|] eqn:Hfind; [|done].
  destruct (findBlock_Some _ _ _ _ Hfind) as (Hl & _ & _).
  assert (Hins : ∀ b', start b' = start b0 → start <$> <[i := b']> bs = start <$> bs).
  { intros b' Hb'. rewrite list_fmap_insert, Hb'. apply list_insert_id.
    by rewrite list_lookup_fmap, Hl. }
  cbn [recurrence bump_rev set_rev set_end].
  destruct (recurrence b0) as [rec|]; [|intros [= <-]; by apply Hins].
  destruct (recurrence_id _) as [recId|]; [|intros [= <-]; by apply Hins].
  intros [= <-]. rewrite <- list_fmap_compose, <- (Hins (set_recurrence_of
    (bump_rev (set_end b0 newEndISO)) (Some (set_duration rec
       (diff_minutes newEndISO (start (bump_rev (set_end b0 newEndISO)))))))) by done.
  apply list_fmap_ext. intros _ o _. cbn.
  case_bool_decide; [done|]. by destruct (in_series recId o && _).
Qed.

Lemma elem_of_insert_by_start (b x : Block) (l : list Block) :
  x ∈ insert_by_start b l ↔ x = b ∨ x ∈ l.
Proof.
  induction l as [|y l IH]; cbn [insert_by_start].
  - rewrite list_elem_of_singleton, elem_of_nil. tauto.
  - destruct (start b <=? start y).
    + by rewrite elem_of_cons.
    + rewrite !elem_of_cons, IH. tauto.
Qed.

Lemma elem_of_sort_by_start (x : Block) (l : list Block) :
  x ∈ sort_by_start l ↔ x ∈ l.
Proof.
  unfold sort_by_start. induction l as [|y l IH]; cbn [foldr]; [done|].
  by rewrite elem_of_insert_by_start, IH, elem_of_cons.
Qed.

Lemma elem_of_byDay (blocks : list Block) (dayISO : Z) (b : Block) :
  b ∈ byDay blocks dayISO ↔ b ∈ blocks ∧ toISODate (start b) = dayISO.
Proof.
  unfold byDay. rewrite elem_of_sort_by_start, list_elem_of_filter. tauto.
Qed.

(** The overlap test of the drag: some sibling on the day overlaps. *)
Lemma computeOverlap_true (days : list DateTime) (blocks : list Block)
    (dayIndex : Z) (day : DateTime) (selfId : string) (sM eM : Z) :
  dayAt days dayIndex = Some day →
  computeOverlap days blocks dayIndex selfId sM eM = Return true
  ↔ ∃ ob, overlapping_sibling blocks selfId day sM eM ob.
Proof.
  intros Hday. unfold computeOverlap, overlapping_sibling. rewrite Hday. split.
  - intros [= (ob & Hin & Hov)%existsb_exists].
    apply list_elem_of_In, list_elem_of_filter in Hin as [Hne Hin].
    apply elem_of_byDay in Hin as [Hin Hd]. eauto.
  - intros (ob & Hin & Hne & Hd & Hov). f_equal. apply existsb_exists.
    exists ob. split; [|done].
    apply list_elem_of_In, list_elem_of_filter. split; [done|].
    by apply elem_of_byDay.
Qed.

(** What the clip branch of [onUp] commits for a resize, whenever its
    overlap test (made on the day column under the pointer) succeeds. *)
Lemma clip_resize_commits
    (days : list DateTime) (blocks : list Block) (b_id : string) (d : DragState)
    (originalISO : DateTime) :
  mode d = resize →
  dayAt days (originalDay d) = Some originalISO →
  computeOverlap days blocks (targetDay d) b_id (previewStartM d) (previewEndM d)
  = Return true →
  let later := later_overlapping_starts days blocks (originalDay d) b_id
                 (startM d) (previewEndM d) in
  ∃ lim,
    onUp days blocks clip b_id (Some d)
    = Return [onResize b_id (isoForDateAndMinutes originalISO
                               (Z.max lim (startM d + SNAP_MIN)))]
    ∧ (later = [] → lim = previewEndM d)
    ∧ (∀ m, is_minimum m later → lim = m).
Proof.
  intros Hmode Hday Hov later.
  unfold onUp. rewrite Hov, Hmode, Hday.
  unfold clipEndToFirstConflict. rewrite Hday.
  set (items := item_of <$> filter (λ b, block_id b ≠ b_id) (byDay blocks (toISODate originalISO))).
  destruct (clip_fold_spec (startM d) (previewEndM d) items (previewEndM d))
    as (H1 & H2 & H3).
  assert (Hlater : ∀ x, x ∈ later ↔
            ∃ it, it ∈ items
                  ∧ (overlaps (startM d) (previewEndM d) (it_s it) (it_e it)
                     && (startM d <? it_s it)) = true
                  ∧ x = it_s it).
  { intros x. unfold later, later_overlapping_starts. rewrite Hday. fold items.
    rewrite list_elem_of_fmap. split.
    - intros (it & -> & [Hc Hin]%list_elem_of_filter). eauto.
    - intros (it & Hin & Hc & ->). exists it. split; [done|].
      by apply list_elem_of_filter. }
  eexists. split; [reflexivity|]. split.
  - intros Hnil. destruct H3 as [H3|(it & Hin & Hc & Heq)]; [exact H3|].
    assert (it_s it ∈ later) as Hx by (apply Hlater; eauto).
    rewrite Hnil in Hx. by apply elem_of_nil in Hx.
  - intros m [Hm Hleast].
    apply Hlater in Hm as (it & Hin & Hc & ->).
    pose proof (H2 it Hin Hc) as Hle.
    destruct H3 as [H3|(it' & Hin' & Hc' & Heq)].
    + apply andb_true_iff in Hc as [Hc _]. apply overlaps_later_start in Hc. lia.
    + assert (it_s it' ∈ later) as Hx by (apply Hlater; eauto).
      apply Hleast in Hx. lia.
Qed.


Lemma later_starts_in_day (days : list DateTime) (blocks : list Block)
    (dayIndex : Z) (selfId : string) (sM eM m : Z) :
  m ∈ later_overlapping_starts days blocks dayIndex selfId sM eM →
  0 <= m < MINUTES_PER_DAY ∧ sM < m < eM.
Proof.
  unfold later_overlapping_starts. destruct (dayAt days dayIndex) as [day|];
    [|by intros ?%elem_of_nil].
  intros (it & -> & [Hc Hin]%list_elem_of_filter)%list_elem_of_fmap.
  apply list_elem_of_fmap in Hin as (b & -> & _).
  apply andb_prop in Hc as [Hov Hlt]. apply Z.ltb_lt in Hlt.
  apply overlaps_later_start in Hov. split; [|lia].
  cbn [it_s item_of]. unfold minutesSinceMidnight, hour, minute, MINUTES_PER_DAY,
    MS_PER_DAY, MS_PER_HOUR, MS_PER_MINUTE.
  Z.div_mod_to_equations. lia.
Qed.



(** Late in the day the lower bound start + 15 passes 24:00 and the end is
    committed at 24:00: the block 23:50-23:55 resized to 24:00 over the
    sibling 23:52-23:58 ends neither at 23:52 nor at start + 15. *)
Example clip_resize_near_midnight :
  let days := week_days (at_ 2024 1 1 0 0) in
  let s := sample_block "s" (at_ 2024 1 1 23 52) (at_ 2024 1 1 23 58) planned None in
  let b := sample_block "b" (at_ 2024 1 1 23 50) (at_ 2024 1 1 23 55) planned None in
  let d := sample_drag "b" resize 0 1430 1435 1430 1440 in
  later_overlapping_starts days [b; s] (originalDay d) "b" (startM d) (previewEndM d)
  = [1432]
  ∧ onUp days [b; s] clip "b" (Some d) = Return [onResize "b" (at_ 2024 1 2 0 0)].
Proof.
  intros days s b d. split; [reflexivity|]. unfold onUp.
  replace (computeOverlap days [b; s] (targetDay d) "b" (previewStartM d) (previewEndM d))
    with (Return true) by reflexivity.
  replace (dayAt days (originalDay d)) with (Some (at_ 2024 1 1 0 0)) by reflexivity.
  replace (clipEndToFirstConflict days [b; s] (originalDay d) "b" (startM d) (previewEndM d))
    with (Return 1432) by reflexivity.
  cbn [mode d sample_drag]. rewrite isoForDateAndMinutes_eq. reflexivity.
Qed.

(** A sibling that ends at 24:00 is read as ending at minute 0 of the day:
    the grid finds no overlap with the block 09:00-10:00 resized to 11:00
    over the sibling 10:00-24:00, and commits 11:00 unclipped. *)
Example clip_resize_sibling_until_midnight :
  let days := week_days (at_ 2024 1 1 0 0) in
  let s := sample_block "s" (at_ 2024 1 1 10 0) (at_ 2024 1 2 0 0) planned None in
  let b := sample_block "b" (at_ 2024 1 1 9 0) (at_ 2024 1 1 10 0) planned None in
  let d := sample_drag "b" resize 0 540 600 540 660 in
  minutesSinceMidnight (end_ s) = 0
  ∧ computeOverlap days [b; s] (targetDay d) "b" (previewStartM d) (previewEndM d)
    = Return false
  ∧ onUp days [b; s] clip "b" (Some d) = Return [onResize "b" (at_ 2024 1 1 11 0)].
Proof.
  intros days s b d. split_and!; [reflexivity | reflexivity |]. unfold onUp.
  replace (computeOverlap days [b; s] (targetDay d) "b" (previewStartM d) (previewEndM d))
    with (Return false) by reflexivity.
  replace (dayAt days (originalDay d)) with (Some (at_ 2024 1 1 0 0)) by reflexivity.
  replace (dayAt days (targetDay d)) with (Some (at_ 2024 1 1 0 0)) by reflexivity.
  cbn [commit_as_given mode d sample_drag previewEndM]. rewrite isoForDateAndMinutes_eq.
  reflexivity.
Qed.

(** The overlap test of a resize is made on the day column under the
    pointer: released over a column without siblings, the same proposal is
    committed unclipped. *)
Example clip_resize_released_over_another_day :
  let days := week_days (at_ 2024 1 1 0 0) in
  let s := sample_block "s" (at_ 2024 1 1 10 0) (at_ 2024 1 1 11 0) planned None in
  let b := sample_block "b" (at_ 2024 1 1 9 0) (at_ 2024 1 1 10 0) planned None in
  let d := {| drag_id := "b"; mode := resize; originalDay := 0; targetDay := 1;
              startM := 540; endM := 600; drag_duration := 60;
              previewStartM := 540; previewEndM := 660; overlapping := false |} in
  onUp days [b; s] clip "b" (Some d) = Return [onResize "b" (at_ 2024 1 1 11 0)].
Proof.
  intros days s b d. unfold onUp.
  replace (computeOverlap days [b; s] (targetDay d) "b" (previewStartM d) (previewEndM d))
    with (Return false) by reflexivity.
  replace (dayAt days (originalDay d)) with (Some (at_ 2024 1 1 0 0)) by reflexivity.
  replace (dayAt days (targetDay d)) with (Some (at_ 2024 1 2 0 0)) by reflexivity.
  cbn [commit_as_given mode d previewEndM]. rewrite isoForDateAndMinutes_eq. reflexivity.
Qed.

(** ** The push policy on a move *)

(** The push example of the specification, for a block dragged in from
    another day: siblings 09:00-10:00 and 11:00-12:00, a 60-minute block
    proposed at 09:30, placed at 10:00. *)
Example push_from_another_day :
  let days := week_days (at_ 2024 1 1 0 0) in
  let a := sample_block "a" (at_ 2024 1 1 9 0) (at_ 2024 1 1 10 0) planned None in
  let b := sample_block "b" (at_ 2024 1 1 11 0) (at_ 2024 1 1 12 0) planned None in
  let m := sample_block "m" (at_ 2024 1 2 14 0) (at_ 2024 1 2 15 0) planned None in
  let d := {| drag_id := "m"; mode := move; originalDay := 1; targetDay := 0;
              startM := 840; endM := 900; drag_duration := 60;
              previewStartM := 570; previewEndM := 630; overlapping := true |} in
  onUp days [a; b; m] push "m" (Some d) = Return [onMove "m" (at_ 2024 1 1 10 0)]
  ∧ moveBlock [a; b; m] "m" (at_ 2024 1 1 10 0)
    = Return [a; b; bump_rev (set_end (set_start m (at_ 2024 1 1 10 0)) (at_ 2024 1 1 11 0))].
Proof.
  intros days a b m d. split.
  - unfold onUp.
    replace (computeOverlap days [a; b; m] (targetDay d) "m" (previewStartM d) (previewEndM d))
      with (Return true) by reflexivity.
    replace (findNextGap days [a; b; m] (targetDay d) (previewStartM d) (drag_duration d))
      with (Return 600) by reflexivity.
    replace (dayAt days (targetDay d)) with (Some (at_ 2024 1 1 0 0)) by reflexivity.
    cbn [mode d bool_decide]. rewrite isoForDateAndMinutes_eq. reflexivity.
  - unfold moveBlock.
    replace (findBlock [a; b; m] "m") with (Some (2%nat, m)) by reflexivity.
    unfold move_to. rewrite plus_diff_minutes. reflexivity.
Qed.

(** When the scan finds no gap the block is not moved: the only action is
    the notification. *)
Lemma push_without_gap_notifies
    (days : list DateTime) (blocks : list Block) (b_id : string) (d : DragState) (ng : Z) :
  mode d = move →
  computeOverlap days blocks (targetDay d) b_id (previewStartM d) (previewEndM d)
  = Return true →
  findNextGap days blocks (targetDay d) (previewStartM d) (drag_duration d) = Return ng →
  ng < 0 →
  onUp days blocks push b_id (Some d) = Return [onNotify "当天没有足够的空档，无法顺延。"].
Proof.
  intros Hmode Hov Hgap Hng. unfold onUp. rewrite Hov, Hmode, Hgap.
  by rewrite bool_decide_eq_false_2 by lia.
Qed.

(** C1 fails on the code: [findNextGap] does not leave the moved block out
    of the scan.  With siblings 09:00-10:00 and 11:00-12:00 and the moved
    block itself at 10:00-11:00 on the same day, a drag to 09:30 is sent to
    12:00, although 10:00-11:00 is free of siblings; the same scan over the
    siblings alone gives 10:00. *)
Theorem push_counts_moved_block_as_occupied :
  let days := week_days (at_ 2024 1 1 0 0) in
  let a := sample_block "a" (at_ 2024 1 1 9 0) (at_ 2024 1 1 10 0) planned None in
  let m := sample_block "m" (at_ 2024 1 1 10 0) (at_ 2024 1 1 11 0) planned None in
  let b := sample_block "b" (at_ 2024 1 1 11 0) (at_ 2024 1 1 12 0) planned None in
  let d := sample_drag "m" move 0 600 660 570 630 in
  computeOverlap days [a; m; b] (targetDay d) "m" (previewStartM d) (previewEndM d)
  = Return true
  ∧ findNextGap days [a; m; b] (targetDay d) (previewStartM d) (drag_duration d)
    = Return 720
  ∧ onUp days [a; m; b] push "m" (Some d) = Return [onMove "m" (at_ 2024 1 1 12 0)]
  ∧ findNextGap days [a; b] (targetDay d) (previewStartM d) (drag_duration d)
    = Return 600.
Proof.
  intros days a m b d.
  assert (Hov : computeOverlap days [a; m; b] (targetDay d) "m"
                  (previewStartM d) (previewEndM d) = Return true) by reflexivity.
  assert (Hgap : findNextGap days [a; m; b] (targetDay d) (previewStartM d)
                   (drag_duration d) = Return 720) by reflexivity.
  split_and!; [exact Hov | exact Hgap | | reflexivity].
  unfold onUp. rewrite Hov, Hgap.
  replace (dayAt days (targetDay d)) with (Some (at_ 2024 1 1 0 0)) by reflexivity.
  cbn [mode d sample_drag bool_decide]. rewrite isoForDateAndMinutes_eq. reflexivity.
Qed.

(** The scan also takes the end of the last item read as the end of the
    occupied time: with siblings 09:00-12:00 and 09:30-10:00 it proposes
    10:00, inside the first sibling. *)
Example push_gap_inside_a_sibling :
  let days := week_days (at_ 2024 1 1 0 0) in
  let a := sample_block "a" (at_ 2024 1 1 9 0) (at_ 2024 1 1 12 0) planned None in
  let b := sample_block "b" (at_ 2024 1 1 9 30) (at_ 2024 1 1 10 0) planned None in
  findNextGap days [a; b] 0 555 60 = Return 600
  ∧ computeOverlap days [a; b] 0 "m" 600 660 = Return true.
Proof. split; reflexivity. Qed.

(** * Further properties of the code *)

(** ** schedule.ts *)

(** X1: two minute ranges overlap exactly when they share a minute, so a
    range that is empty or only touches the other one does not overlap it,
    and the test does not depend on the order of the two ranges. *)
Theorem overlaps_shares_a_minute (aStart aEnd bStart bEnd : Z) :
  (overlaps aStart aEnd bStart bEnd = true
   ↔ ∃ t, aStart <= t < aEnd ∧ bStart <= t < bEnd)
  ∧ (overlaps aStart aEnd bStart bEnd = false
     ↔ aEnd <= aStart ∨ bEnd <= bStart ∨ aEnd <= bStart ∨ bEnd <= aStart)
  ∧ overlaps aStart aEnd bStart bEnd = overlaps bStart bEnd aStart aEnd
  ∧ overlaps aStart aEnd aEnd bEnd = false.
Proof.
  unfold overlaps. split_and!.
  - rewrite bool_decide_eq_true. split.
    + intros H. exists (Z.max aStart bStart). lia.
    + intros (t & ? & ?). lia.
  - rewrite bool_decide_eq_false. lia.
  - apply bool_decide_ext. lia.
  - apply bool_decide_eq_false. lia.
Qed.

(** [clamp] never exceeds its upper bound; with the bounds in order it
    returns the nearest value of the range (the value itself inside the
    range) and clamping twice changes nothing; with the bounds inverted it
    returns the upper bound whatever the value. *)
Theorem clamp_stays_in_range (v lo hi : Z) :
  clamp v lo hi <= hi
  ∧ (hi < lo → clamp v lo hi = hi)
  ∧ (lo <= hi →
     lo <= clamp v lo hi
     ∧ (lo <= v <= hi → clamp v lo hi = v)
     ∧ (v < lo → clamp v lo hi = lo)
     ∧ (hi < v → clamp v lo hi = hi)
     ∧ clamp (clamp v lo hi) lo hi = clamp v lo hi).
Proof. unfold clamp. lia. Qed.

Lemma Math_round_Qmake (n : Z) (d : positive) :
  Math_round (Qmake n d) = (2 * n + Z.pos d) / (2 * Z.pos d).
Proof.
  unfold Math_round.
  transitivity (Qfloor (Qmake (2 * n + Z.pos d) (2 * d))); [|reflexivity].
  apply Qfloor_comp. unfold Qeq, Qplus. cbn [Qnum Qden]. lia.
Qed.

Lemma Math_round_quotient (n s : Z) :
  0 < s → Math_round (inject_Z n / inject_Z s) = (2 * n + s) / (2 * s).
Proof.
  intros Hs. destruct s as [|p|p]; try lia.
  rewrite <- Math_round_Qmake. unfold Math_round. apply Qfloor_comp.
  unfold Qeq, Qdiv, Qmult, Qinv, Qplus, inject_Z. cbn [Qnum Qden]. lia.
Qed.



Lemma minutesSinceMidnight_spec (dt : DateTime) :
  let m := minutesSinceMidnight dt in
  0 <= m < MINUTES_PER_DAY
  ∧ startOfDay dt + m * MS_PER_MINUTE <= dt < startOfDay dt + m * MS_PER_MINUTE + MS_PER_MINUTE.
Proof.
  cbv zeta. unfold minutesSinceMidnight, hour, minute, startOfDay, ofISODate, toISODate,
    MINUTES_PER_DAY, MS_PER_DAY, MS_PER_HOUR, MS_PER_MINUTE.
  Z.div_mod_to_equations. lia.
Qed.

(** X3: in a zone with a fixed offset, where every day has 1440 minutes,
    a timestamp built from a date and a minute offset inside the day reads
    back as that date and that offset; at the upper bound 1440 it reads
    back as minute 0 of the following day. *)
Theorem iso_reads_back (dateISO : DateTime) (m : Z) :
  0 <= m < MINUTES_PER_DAY →
  toISODate (isoForDateAndMinutes dateISO m) = toISODate dateISO
  ∧ minutesSinceMidnight (isoForDateAndMinutes dateISO m) = m
  ∧ toISODate (isoForDateAndMinutes dateISO MINUTES_PER_DAY) = toISODate dateISO + 1
  ∧ minutesSinceMidnight (isoForDateAndMinutes dateISO MINUTES_PER_DAY) = 0.
Proof.
  intros Hm. rewrite !isoForDateAndMinutes_eq.
  replace (clamp m 0 MINUTES_PER_DAY) with m by (unfold clamp; lia).
  replace (clamp MINUTES_PER_DAY 0 MINUTES_PER_DAY) with 1440 by reflexivity.
  change MINUTES_PER_DAY with 1440 in Hm.
  unfold minutesSinceMidnight, hour, minute, startOfDay, ofISODate, toISODate,
    MS_PER_DAY, MS_PER_HOUR, MS_PER_MINUTE.
  split_and!; Z.div_mod_to_equations; lia.
Qed.

Lemma iso_reads_back_witness :
  0 <= 570 < MINUTES_PER_DAY
  ∧ toISODate (isoForDateAndMinutes (at_ 2024 1 1 0 0) 570) = civil 2024 1 1
  ∧ minutesSinceMidnight (isoForDateAndMinutes (at_ 2024 1 1 0 0) 570) = 570.
Proof.
  assert (H : 0 <= 570 < MINUTES_PER_DAY) by (unfold MINUTES_PER_DAY; lia).
  destruct (iso_reads_back (at_ 2024 1 1 0 0) 570 H) as (Hd & Hm & _).
  split; [exact H|]. split; [rewrite Hd; reflexivity | exact Hm].
Defined.

(** X4: [durationMinutes] is never negative, and it rounds the difference
    of two doubles, the epoch minutes of the two instants: 90 minutes give
    90 and the reverse order 0, 89.999 s give 1 and 29.999 s give 0; half a
    minute goes up only where the subtraction is exact, so that 90 s count
    as 2 minutes and 30 s as 1 at 2024-01-01T09:00Z (also read in a zone
    8 hours ahead), but as 1 and 0 at 2033-10-18T16:31:56Z, where the
    difference of the doubles falls short of the half. *)
Theorem durationMinutes_on_doubles :
  let t := at_ 2024 1 1 9 0 in
  let u := at_ 2033 10 18 16 31 + 56000 in
  (∀ offset a b k, durationMinutes offset a b = Some k → 0 <= k)
  ∧ durationMinutes 0 t (at_ 2024 1 1 10 30) = Some 90
  ∧ durationMinutes 0 (at_ 2024 1 1 10 30) t = Some 0
  ∧ durationMinutes 0 t t = Some 0
  ∧ durationMinutes 480 t (t + 89999) = Some 1
  ∧ durationMinutes 0 t (t + 29999) = Some 0
  ∧ durationMinutes 0 t (t + 90000) = Some 2
  ∧ durationMinutes 480 t (t + 90000) = Some 2
  ∧ durationMinutes 0 t (t + 30000) = Some 1
  ∧ durationMinutes 0 u (u + 90000) = Some 1
  ∧ durationMinutes 0 u (u + 30000) = Some 0.
Proof.
  intros t u. split.
  - intros offset a b k Hk. unfold durationMinutes in Hk.
    destruct (Number.to_Q _) as [q|]; [|done]. injection Hk as <-. lia.
  - split_and!; by vm_compute.
Qed.

(** [minutesSinceMidnight] is the minute of the day that contains the
    instant: it lies in [0, 1440), seconds are dropped, and a shift by
    whole days does not change it. *)
Theorem minutesSinceMidnight_is_minute_of_day (dt : DateTime) (n : Z) :
  let m := minutesSinceMidnight dt in
  0 <= m < MINUTES_PER_DAY
  ∧ startOfDay dt + m * MS_PER_MINUTE <= dt < startOfDay dt + (m + 1) * MS_PER_MINUTE
  ∧ minutesSinceMidnight (plus_days dt n) = m
  ∧ minutesSinceMidnight (startOfDay dt) = 0.
Proof.
  cbv zeta. pose proof (minutesSinceMidnight_spec dt) as [H1 H2]. cbv zeta in H1, H2.
  split_and!; [lia | lia | unfold MS_PER_MINUTE in *; lia | unfold MS_PER_MINUTE in *; lia | |].
  - unfold minutesSinceMidnight, hour, minute, plus_days, MS_PER_DAY, MS_PER_HOUR, MS_PER_MINUTE.
    Z.div_mod_to_equations. lia.
  - unfold minutesSinceMidnight, hour, minute, startOfDay, ofISODate, toISODate,
      MS_PER_DAY, MS_PER_HOUR, MS_PER_MINUTE.
    Z.div_mod_to_equations. lia.
Qed.

(** ** shouldIncludeDate, for every kind of rule *)

(** X5: a weekly rule with a valid anchor and an interval of at least one
    week includes a day exactly when the day is not before the anchor, not
    after the day of [until], not among the exceptions, falls on one of the
    rule's weekdays (the anchor's weekday when none is given), and lies a
    multiple of the interval in Monday-based weeks after the anchor's week. *)
Theorem shouldIncludeDate_weekly (rec : BlockRecurrence) (date : DateTime) (a : Z) :
  r_type rec = weekly →
  startDate rec = Some a →
  1 <= interval rec →
  let day := toISODate date in
  shouldIncludeDate rec date = true
  ↔ a <= day
    ∧ (∀ u, until rec = Some (Some u) → day <= u)
    ∧ (day ∉ default [] (exceptions rec))
    ∧ weekday date ∈ rule_weekdays rec a
    ∧ (interval rec | week_of day - week_of a).
Proof.
  intros Hty Ha Hint day.
  pose proof (shouldIncludeDate_char rec date a Ha) as H. cbv zeta in H. fold day in H.
  rewrite Hty, Z.max_r in H by lia. exact H.
Qed.

(** X6: whatever the rule, a day it includes is never before the anchor,
    never among the exceptions and never after the day of [until]; a rule
    whose anchor cannot be parsed includes no day at all. *)
Theorem shouldIncludeDate_never_outside (rec : BlockRecurrence) (date : DateTime) :
  shouldIncludeDate rec date = true →
  ∃ a, startDate rec = Some a
       ∧ a <= toISODate date
       ∧ (toISODate date ∉ default [] (exceptions rec))
       ∧ (∀ u, until rec = Some (Some u) → toISODate date <= u).
Proof.
  intros Hinc. destruct (startDate rec) as [a|] eqn:Ha.
  - pose proof (shouldIncludeDate_char rec date a Ha) as H. cbv zeta in H.
    destruct (proj1 H Hinc) as (H1 & H2 & H3 & _). exists a. done.
  - unfold shouldIncludeDate in Hinc. by rewrite Ha in Hinc.
Qed.

(** X7: an interval of 1, 0 or less makes a daily rule recur every day: it
    includes every day from the anchor on that is not excepted and not
    after [until]. *)
Theorem shouldIncludeDate_every_day (rec : BlockRecurrence) (date : DateTime) (a : Z) :
  r_type rec = daily →
  startDate rec = Some a →
  interval rec <= 1 →
  let day := toISODate date in
  shouldIncludeDate rec date = true
  ↔ a <= day
    ∧ (∀ u, until rec = Some (Some u) → day <= u)
    ∧ (day ∉ default [] (exceptions rec)).
Proof.
  intros Hty Ha Hint day.
  pose proof (shouldIncludeDate_char rec date a Ha) as H. cbv zeta in H. fold day in H.
  rewrite Hty, Z.max_l in H by lia. rewrite H.
  pose proof (Z.divide_1_l (day - a)). tauto.
Qed.

Lemma shouldIncludeDate_weekly_witness :
  let rec := sample_weekly_rule "w" (civil 2024 1 1) 2 [1; 3] in
  r_type rec = weekly
  ∧ startDate rec = Some (civil 2024 1 1)
  ∧ 1 <= interval rec
  ∧ shouldIncludeDate rec (at_ 2024 1 17 0 0) = true
  ∧ shouldIncludeDate rec (at_ 2024 1 10 0 0) = false.
Proof.
  intros rec.
  assert (Hint : 1 <= interval rec) by (cbn; lia).
  split_and!; [reflexivity | reflexivity | exact Hint | | reflexivity].
  apply (shouldIncludeDate_weekly rec (at_ 2024 1 17 0 0) (civil 2024 1 1) eq_refl eq_refl Hint).
  split_and!.
  - vm_compute. discriminate.
  - intros u [=].
  - cbn. apply not_elem_of_nil.
  - right. left.
  - exists 1. reflexivity.
Defined.

Lemma shouldIncludeDate_never_outside_witness :
  let rec := sample_rule "r" (civil 2024 1 1) 2 in
  shouldIncludeDate rec (at_ 2024 1 5 9 0) = true
  ∧ ∃ a, startDate rec = Some a
         ∧ a <= toISODate (at_ 2024 1 5 9 0)
         ∧ (toISODate (at_ 2024 1 5 9 0) ∉ default [] (exceptions rec))
         ∧ (∀ u, until rec = Some (Some u) → toISODate (at_ 2024 1 5 9 0) <= u).
Proof.
  intros rec. split; [reflexivity|].
  exact (shouldIncludeDate_never_outside rec (at_ 2024 1 5 9 0) eq_refl).
Defined.

Lemma shouldIncludeDate_every_day_witness :
  let rec := sample_rule "r" (civil 2024 1 1) 0 in
  r_type rec = daily
  ∧ startDate rec = Some (civil 2024 1 1)
  ∧ interval rec <= 1
  ∧ shouldIncludeDate rec (at_ 2024 1 4 0 0) = true.
Proof.
  intros rec.
  assert (Hint : interval rec <= 1) by (cbn; lia).
  split_and!; [reflexivity | reflexivity | exact Hint |].
  apply (shouldIncludeDate_every_day rec (at_ 2024 1 4 0 0) (civil 2024 1 1) eq_refl eq_refl Hint).
  split_and!.
  - vm_compute. discriminate.
  - intros u [=].
  - cbn. apply not_elem_of_nil.
Defined.

(** ** The helpers of commands.ts, block by block *)

Lemma findBlock_None (blocks : list Block) (id : string) :
  findBlock blocks id = None ↔ ∀ b, b ∈ blocks → block_id b ≠ id.
Proof. unfold findBlock. rewrite list_find_None, Forall_forall. done. Qed.

(** The position and the block found depend on the ids only. *)
Lemma findBlock_same_ids (blocks blocks' : list Block) (id : string) (i : nat) (b b' : Block) :
  block_id <$> blocks' = block_id <$> blocks →
  findBlock blocks id = Some (i, b) →
  blocks' !! i = Some b' →
  findBlock blocks' id = Some (i, b').
Proof.
  unfold findBlock. intros Hids (Hl & Hid & Hfirst)%list_find_Some Hl'.
  assert (Hat : ∀ j x x', blocks !! j = Some x → blocks' !! j = Some x' →
                          block_id x' = block_id x).
  { intros j x x' Hx Hx'.
    assert ((block_id <$> blocks') !! j = (block_id <$> blocks) !! j) as E by by rewrite Hids.
    rewrite !list_lookup_fmap, Hx, Hx' in E. by injection E. }
  apply list_find_Some. split_and!; [done | by rewrite (Hat i b b') | ].
  intros j y' Hy' Hlt.
  assert (is_Some (blocks !! j)) as [y Hy].
  { apply lookup_lt_is_Some. apply lookup_lt_Some in Hl. lia. }
  rewrite (Hat j y y' Hy Hy'). by eapply Hfirst.
Qed.

Lemma same_ids_pointwise (blocks blocks' : list Block) :
  length blocks' = length blocks →
  (∀ j o, blocks !! j = Some o → ∃ o', blocks' !! j = Some o' ∧ block_id o' = block_id o) →
  block_id <$> blocks' = block_id <$> blocks.
Proof.
  intros Hlen Hat. apply list_eq. intros j. rewrite !list_lookup_fmap.
  destruct (blocks !! j) as [o|] eqn:Hj.
  - destruct (Hat j o Hj) as (o' & -> & Hid). cbn. by rewrite Hid.
  - apply lookup_ge_None in Hj. rewrite (proj2 (lookup_ge_None blocks' j)) by lia. done.
Qed.

(** What [moveBlock] does to each position of the array. *)
Lemma moveBlock_pointwise
    (blocks : list Block) (id : string) (t : DateTime) (i : nat) (b : Block) :
  findBlock blocks id = Some (i, b) →
  ∃ blocks',
    moveBlock blocks id t = Return blocks'
    ∧ length blocks' = length blocks
    ∧ ∀ j o, blocks !! j = Some o →
        ∃ o', blocks' !! j = Some o'
              ∧ block_id o' = block_id o
              ∧ status o' = status o
              ∧ recurrence_id o' = recurrence_id o
              ∧ if decide (j = i) then
                  start o' = t ∧ end_ o' = t + (end_ b - start b) ∧ rev o' = rev o + 1
                else if moves_with id b o then
                  start o' = start o + (t - start b) ∧ end_ o' = end_ o + (t - start b)
                  ∧ rev o' = rev o + 1
                else o' = o.
Proof.
  intros Hfind.
  destruct (findBlock_Some _ _ _ _ Hfind) as (Hl & Hid & Hlt).
  pose proof (move_to_spec b t) as (M1 & M2 & M3 & M4 & M6 & M7 & M8).
  cbv zeta in M1, M2, M3, M4, M6, M7, M8.
  unfold moveBlock, moves_with. rewrite Hfind, recurrence_id_move_to.
  replace (recurrence (move_to b t)) with (recurrence b) by reflexivity.
  destruct (recurrence b) as [rec|] eqn:Hrec;
    [destruct (recurrence_id b) as [recId|] eqn:Hrid|].
  - (* a member of a series *)
    assert (Hrecid : r_id rec = recId ∧ recId ≠ "").
    { unfold recurrence_id in Hrid. rewrite Hrec in Hrid.
      case_bool_decide; [done|]. by injection Hrid as <-. }
    eexists. split; [reflexivity|]. split; [by rewrite length_fmap, length_insert|].
    intros j o Hj. rewrite list_lookup_fmap.
    destruct (decide (j = i)) as [->|Hne].
    + assert (o = b) as -> by congruence.
      rewrite list_lookup_insert_eq by done. cbn [fmap option_fmap option_map].
      rewrite bool_decide_eq_true_2 by (cbn; congruence).
      eexists. split; [reflexivity|]. split_and!; try done.
      * unfold recurrence_id. cbn. rewrite Hrec.
        destruct Hrecid as [-> ?]. by rewrite !bool_decide_eq_false_2.
      * cbn. rewrite plus_diff_minutes. lia.
    + rewrite list_lookup_insert_ne, Hj by done. cbn [fmap option_fmap option_map].
      eexists. split; [reflexivity|].
      case_bool_decide as Hsame; cbn [negb andb]; [done|].
      destruct (in_series recId o) eqn:Hin; cbn [andb]; [|done].
      case_bool_decide as Hdone; cbn [negb]; [done|].
      split_and!; try done.
      * apply in_series_Some in Hin as (ro & Hro & Hroid).
        unfold recurrence_id. cbn. rewrite Hro, Hroid.
        destruct Hrecid as [-> ?]. done.
      * cbn. by rewrite plus_diff_minutes.
      * cbn. by rewrite plus_diff_minutes.
  - (* a recurrence without an id *)
    eexists. split; [reflexivity|]. split; [by rewrite length_insert|].
    intros j o Hj. destruct (decide (j = i)) as [->|Hne].
    + assert (o = b) as -> by congruence.
      rewrite list_lookup_insert_eq by done. eexists. split; [reflexivity|].
      split_and!; try done. lia.
    + rewrite list_lookup_insert_ne by done. eauto 10.
  - assert (recurrence_id b = None) as Hrid by (unfold recurrence_id; by rewrite Hrec).
    rewrite Hrid.
    eexists. split; [reflexivity|]. split; [by rewrite length_insert|].
    intros j o Hj. destruct (decide (j = i)) as [->|Hne].
    + assert (o = b) as -> by congruence.
      rewrite list_lookup_insert_eq by done. eexists. split; [reflexivity|].
      split_and!; try done. lia.
    + rewrite list_lookup_insert_ne by done. eauto 10.
Qed.

Lemma in_series_recurrence_id (recId : string) (o : Block) :
  recId ≠ "" → in_series recId o = bool_decide (recurrence_id o = Some recId).
Proof.
  intros Hne. unfold in_series, recurrence_id.
  destruct (recurrence o) as [r|]; [|by rewrite bool_decide_eq_false_2].
  destruct (decide (r_id r = "")) as [E|E].
  - rewrite (bool_decide_eq_true_2 (r_id r = "")) by done.
    rewrite !bool_decide_eq_false_2; [done | done | congruence].
  - rewrite (bool_decide_eq_false_2 (r_id r = "")) by done.
    apply bool_decide_ext. split; congruence.
Qed.

Lemma moves_with_same (id : string) (b b' o o' : Block) :
  recurrence_id b' = recurrence_id b →
  block_id o' = block_id o → status o' = status o →
  recurrence_id o' = recurrence_id o →
  moves_with id b' o' = moves_with id b o.
Proof.
  intros Hb Hid Hst Hrid. unfold moves_with. rewrite Hb.
  destruct (recurrence_id b) as [recId|] eqn:E; [|done].
  destruct (recurrence_id_Some _ _ E) as (_ & _ & _ & Hne).
  by rewrite !(in_series_recurrence_id recId) by done; rewrite Hid, Hst, Hrid.
Qed.

(** Two moves in a row on the same array, there and back: the starts and
    the ends are restored, and the revisions are the same or two higher. *)
Lemma moveBlock_twice
    (blocks : list Block) (id : string) (t : DateTime) (i : nat) (b : Block) :
  findBlock blocks id = Some (i, b) →
  ∃ blocks1 blocks2,
    moveBlock blocks id t = Return blocks1
    ∧ moveBlock blocks1 id (start b) = Return blocks2
    ∧ length blocks2 = length blocks
    ∧ ∀ j o, blocks !! j = Some o →
        ∃ o2, blocks2 !! j = Some o2
              ∧ block_id o2 = block_id o ∧ status o2 = status o
              ∧ start o2 = start o ∧ end_ o2 = end_ o
              ∧ (rev o2 = rev o ∨ rev o2 = rev o + 2).
Proof.
  intros Hfind.
  destruct (findBlock_Some _ _ _ _ Hfind) as (Hl & Hid & Hlt).
  destruct (moveBlock_pointwise blocks id t i b Hfind) as (blocks1 & Hm1 & Hlen1 & Hpt1).
  destruct (Hpt1 i b Hl) as (b1 & Hb1 & Hid1 & Hst1 & Hrid1 & Hcase1).
  rewrite decide_True in Hcase1 by done. destruct Hcase1 as (Hs1 & He1 & Hr1).
  assert (Hfind1 : findBlock blocks1 id = Some (i, b1)).
  { apply (findBlock_same_ids blocks blocks1 id i b b1); [|done..].
    apply same_ids_pointwise; [done|]. intros j o Hj.
    destruct (Hpt1 j o Hj) as (o' & ? & ? & _). eauto. }
  destruct (moveBlock_pointwise blocks1 id (start b) i b1 Hfind1)
    as (blocks2 & Hm2 & Hlen2 & Hpt2).
  exists blocks1, blocks2. split_and!; [done | done | lia |].
  intros j o Hj.
  destruct (Hpt1 j o Hj) as (o1 & Ho1 & Hi1 & Hst & Hri & Hc1).
  destruct (Hpt2 j o1 Ho1) as (o2 & Ho2 & Hi2 & Hst2 & Hri2 & Hc2).
  exists o2. split; [done|].
  split; [congruence|]. split; [congruence|].
  destruct (decide (j = i)) as [->|Hne].
  - assert (o = b) as -> by congruence. assert (o1 = b1) as -> by congruence.
    destruct Hc2 as (? & ? & ?). split_and!; [lia | lia | right; lia].
  - rewrite (moves_with_same id b b1 o o1) in Hc2 by done.
    destruct (moves_with id b o).
    + destruct Hc1 as (? & ? & ?), Hc2 as (? & ? & ?). split_and!; [lia | lia | right; lia].
    + subst o1 o2. split_and!; [done | done | by left].
Qed.

(** X9: moving a member of a series rewrites the rule of the series on
    the moved block and on every member that moves with it: the id, type,
    interval, exceptions and [until] are kept, the duration is that of the
    moved block and the anchor is shifted by the delta of the move; the
    other blocks, the done members among them, keep the rule they had. *)
Theorem moveBlock_rewrites_series_rule
    (blocks : list Block) (id : string) (t : DateTime)
    (i : nat) (b : Block) (rec : BlockRecurrence) (recId : string) :
  findBlock blocks id = Some (i, b) →
  recurrence b = Some rec →
  recurrence_id b = Some recId →
  ∃ blocks' rec',
    moveBlock blocks id t = Return blocks'
    ∧ r_id rec' = recId ∧ r_type rec' = r_type rec ∧ interval rec' = interval rec
    ∧ daysOfWeek rec' = daysOfWeek rec
    ∧ exceptions rec' = exceptions rec ∧ until rec' = until rec
    ∧ duration rec' = diff_minutes (end_ b) (start b)
    ∧ match startDate rec with
      | Some a =>
          let anchor := ofISODate a + default 0 (startMinute rec) * MS_PER_MINUTE
                        + (t - start b) in
          startDate rec' = Some (toISODate anchor)
          ∧ startMinute rec' = Some (minutesSinceMidnight anchor)
      | None => startDate rec' = None ∧ startMinute rec' = None
      end
    ∧ ∀ j o, blocks !! j = Some o →
        ∃ o', blocks' !! j = Some o'
              ∧ recurrence o' = if decide (j = i) then Some rec'
                                else if moves_with id b o then Some rec'
                                else recurrence o.
Proof.
  intros Hfind Hrec Hrid.
  destruct (findBlock_Some _ _ _ _ Hfind) as (Hl & Hid & Hlt).
  destruct (recurrence_id_Some _ _ Hrid) as (rec0 & Hrec0 & Hrecid & _).
  assert (rec0 = rec) as -> by congruence.
  pose proof (move_to_spec b t) as (_ & M2 & _ & M4 & _).
  cbv zeta in M2, M4.
  unfold moveBlock, moves_with. rewrite Hfind, recurrence_id_move_to, Hrid.
  replace (recurrence (move_to b t)) with (recurrence b) by reflexivity.
  rewrite Hrec.
  eexists _, (set_duration
                (setRecurrenceAnchor rec
                   (a ← startDate rec;
                    Some (plus_minutes
                            (plus_minutes (ofISODate a)
                               (inject_Z (default 0 (startMinute rec))))
                            (diff_minutes t (start b)))))
                (diff_minutes (end_ (move_to b t)) (start (move_to b t)))).
  split; [reflexivity|].
  split_and!; try reflexivity; try done.
  - cbn [duration set_duration]. unfold diff_minutes. by rewrite M4.
  - destruct (startDate rec) as [a|]; cbn; [|done].
    rewrite plus_minutes_Z, plus_diff_minutes. done.
  - intros j o Hj. rewrite list_lookup_fmap.
    destruct (decide (j = i)) as [->|Hne].
    + rewrite list_lookup_insert_eq by done. cbn [fmap option_fmap option_map].
      rewrite bool_decide_eq_true_2 by (cbn; congruence).
      eexists. split; reflexivity.
    + rewrite list_lookup_insert_ne, Hj by done. cbn [fmap option_fmap option_map].
      eexists. split; [reflexivity|].
      case_bool_decide; cbn [negb andb]; [done|].
      destruct (in_series recId o); cbn [andb]; [|done].
      case_bool_decide; cbn [negb]; done.
Qed.

Lemma moveBlock_rewrites_series_rule_witness :
  let rule := sample_rule "r" (civil 2024 1 1) 1 in
  let a := sample_block "a" (at_ 2024 1 1 9 0) (at_ 2024 1 1 10 0) planned (Some rule) in
  let c := sample_block "c" (at_ 2024 1 3 9 0) (at_ 2024 1 3 10 0) done (Some rule) in
  findBlock [a; c] "a" = Some (0%nat, a)
  ∧ recurrence a = Some rule
  ∧ recurrence_id a = Some "r"
  ∧ ∃ blocks' a' c',
      moveBlock [a; c] "a" (at_ 2024 1 1 10 30) = Return blocks'
      ∧ blocks' !! 0%nat = Some a' ∧ blocks' !! 1%nat = Some c'
      ∧ (recurrence a' ≫= startMinute) = Some 630
      ∧ recurrence c' = Some rule.
Proof.
  intros rule a c. split_and!; [reflexivity..|].
  destruct (moveBlock_rewrites_series_rule [a; c] "a" (at_ 2024 1 1 10 30) 0 a rule "r"
              eq_refl eq_refl eq_refl)
    as (blocks' & rec' & Hmove & _ & _ & _ & _ & _ & _ & _ & Hanchor & Hall).
  destruct (Hall 0%nat a eq_refl) as (a' & Ha' & Hra).
  destruct (Hall 1%nat c eq_refl) as (c' & Hc' & Hrc).
  exists blocks', a', c'. split_and!; [done | done | done | | exact Hrc].
  rewrite Hra. change (startMinute rec' = Some 630).
  change (startDate rule) with (Some (civil 2024 1 1)) in Hanchor.
  destruct Hanchor as [_ Hm]. rewrite Hm. reflexivity.
Defined.

(** X11: resizing a block sets its end and nothing else of it but the
    revision; when it belongs to a series, every other member that is not
    done is given the same length, measured from its own start; every other
    block, the done members among them, is left as it was. *)
Theorem resizeBlock_stretches_series
    (blocks : list Block) (id : string) (newEndISO : DateTime) (i : nat) (b : Block) :
  findBlock blocks id = Some (i, b) →
  ∃ blocks',
    resizeBlock blocks id newEndISO = Return blocks'
    ∧ length blocks' = length blocks
    ∧ ∀ j o, blocks !! j = Some o →
        ∃ o', blocks' !! j = Some o'
              ∧ block_id o' = block_id o ∧ status o' = status o ∧ start o' = start o
              ∧ if decide (j = i) then end_ o' = newEndISO ∧ rev o' = rev o + 1
                else if moves_with id b o then
                  end_ o' = start o + (newEndISO - start b) ∧ rev o' = rev o + 1
                else o' = o.
Proof.
  intros Hfind.
  destruct (findBlock_Some _ _ _ _ Hfind) as (Hl & Hid & Hlt).
  unfold resizeBlock, moves_with. rewrite Hfind.
  replace (recurrence (bump_rev (set_end b newEndISO))) with (recurrence b) by reflexivity.
  replace (recurrence_id (bump_rev (set_end b newEndISO))) with (recurrence_id b)
    by reflexivity.
  assert (Hplain : ∀ j o, blocks !! j = Some o → recurrence_id b = None →
            ∃ o', <[i := bump_rev (set_end b newEndISO)]> blocks !! j = Some o'
                  ∧ block_id o' = block_id o ∧ status o' = status o ∧ start o' = start o
                  ∧ if decide (j = i) then end_ o' = newEndISO ∧ rev o' = rev o + 1
                    else o' = o).
  { intros j o Hj _. destruct (decide (j = i)) as [->|Hne].
    - assert (o = b) as -> by congruence.
      rewrite list_lookup_insert_eq by done. eexists. split; [reflexivity|]. done.
    - rewrite list_lookup_insert_ne by done. eauto 10. }
  destruct (recurrence b) as [rec|] eqn:Hrec;
    [destruct (recurrence_id b) as [recId|] eqn:Hrid|].
  - eexists. split; [reflexivity|]. split; [by rewrite length_fmap, length_insert|].
    intros j o Hj. rewrite list_lookup_fmap.
    destruct (decide (j = i)) as [->|Hne].
    + assert (o = b) as -> by congruence.
      rewrite list_lookup_insert_eq by done. cbn [fmap option_fmap option_map].
      rewrite bool_decide_eq_true_2 by (cbn; congruence).
      eexists. split; [reflexivity|]. done.
    + rewrite list_lookup_insert_ne, Hj by done. cbn [fmap option_fmap option_map].
      eexists. split; [reflexivity|].
      case_bool_decide; cbn [negb andb]; [done|].
      destruct (in_series recId o); cbn [andb]; [|done].
      case_bool_decide; cbn [negb]; [done|].
      split_and!; try done. cbn. by rewrite plus_diff_minutes.
  - eexists. split; [reflexivity|]. split; [by rewrite length_insert|].
    intros j o Hj. destruct (Hplain j o Hj eq_refl) as (o' & ? & ? & ? & ? & ?).
    exists o'. split_and!; try done; by destruct (decide (j = i)).
  - assert (recurrence_id b = None) as Hrid by (unfold recurrence_id; by rewrite Hrec).
    rewrite Hrid.
    eexists. split; [reflexivity|]. split; [by rewrite length_insert|].
    intros j o Hj. destruct (Hplain j o Hj Hrid) as (o' & ? & ? & ? & ? & ?).
    exists o'. split_and!; try done; by destruct (decide (j = i)).
Qed.

Lemma resizeBlock_stretches_series_witness :
  let r := Some (sample_rule "r" (civil 2024 1 1) 1) in
  let a := sample_block "a" (at_ 2024 1 1 9 0) (at_ 2024 1 1 10 0) planned r in
  let b := sample_block "b" (at_ 2024 1 2 9 0) (at_ 2024 1 2 10 0) planned r in
  let c := sample_block "c" (at_ 2024 1 3 9 0) (at_ 2024 1 3 10 0) done r in
  findBlock [a; b; c] "a" = Some (0%nat, a)
  ∧ ∃ blocks' b',
      resizeBlock [a; b; c] "a" (at_ 2024 1 1 10 30) = Return blocks'
      ∧ blocks' !! 1%nat = Some b'
      ∧ start b' = at_ 2024 1 2 9 0 ∧ end_ b' = at_ 2024 1 2 10 30
      ∧ blocks' !! 2%nat = Some c.
Proof.
  intros r a b c. split; [reflexivity|].
  destruct (resizeBlock_stretches_series [a; b; c] "a" (at_ 2024 1 1 10 30) 0 a eq_refl)
    as (blocks' & Hres & _ & Hall).
  destruct (Hall 1%nat b eq_refl) as (b' & Hb' & _ & _ & Hs & Hcase).
  destruct (Hall 2%nat c eq_refl) as (c' & Hc' & _ & _ & _ & Hcase').
  change (end_ b' = start b + (at_ 2024 1 1 10 30 - start a) ∧ rev b' = rev b + 1) in Hcase.
  change (c' = c) in Hcase'. subst c'.
  exists blocks', b'. split_and!; [done | done | done | by destruct Hcase as [-> _] | done].
Defined.

(** X12: deleting with scope 'series' removes every block of the series
    of the block, the block itself included, and nothing else: the other
    blocks stay as they are and in their order. *)
Theorem deleteBlock_series_removes_the_series
    (blocks : list Block) (id : string) (idx : nat) (blk : Block) (recId : string) :
  findBlock blocks id = Some (idx, blk) →
  recurrence_id blk = Some recId →
  ∃ blocks',
    deleteBlock blocks id series = Return blocks'
    ∧ (∀ o, o ∈ blocks' ↔ o ∈ blocks ∧ recurrence_id o ≠ Some recId)
    ∧ sublist blocks' blocks
    ∧ (blk ∉ blocks')
    ∧ blocks' = filter (λ o, recurrence_id o ≠ Some recId) blocks.
Proof.
  intros Hfind Hrid.
  destruct (recurrence_id_Some _ _ Hrid) as (_ & _ & _ & Hne).
  unfold deleteBlock. rewrite Hfind, Hrid.
  assert (Hfilter : filter (λ b, in_series recId b = false) blocks
                    = filter (λ o, recurrence_id o ≠ Some recId) blocks).
  { apply list_filter_iff. intros o. rewrite (in_series_recurrence_id recId o Hne).
    by rewrite bool_decide_eq_false. }
  rewrite Hfilter. eexists. split; [reflexivity|]. split_and!.
  - intros o. rewrite list_elem_of_filter. tauto.
  - apply sublist_filter.
  - rewrite list_elem_of_filter. tauto.
  - done.
Qed.

Lemma deleteBlock_series_removes_the_series_witness :
  let r := Some (sample_rule "r" (civil 2024 1 1) 1) in
  let a := sample_block "a" (at_ 2024 1 1 9 0) (at_ 2024 1 1 10 0) planned r in
  let x := sample_block "x" (at_ 2024 1 1 12 0) (at_ 2024 1 1 13 0) planned None in
  let c := sample_block "c" (at_ 2024 1 3 9 0) (at_ 2024 1 3 10 0) done r in
  findBlock [a; x; c] "c" = Some (2%nat, c)
  ∧ recurrence_id c = Some "r"
  ∧ deleteBlock [a; x; c] "c" series = Return [x].
Proof.
  intros r a x c. split_and!; [reflexivity | reflexivity |].
  destruct (deleteBlock_series_removes_the_series [a; x; c] "c" 2 c "r" eq_refl eq_refl)
    as (blocks' & Hdel & _ & _ & _ & Heq).
  rewrite Hdel, Heq. reflexivity.
Defined.

Lemma filter_keeps_all {A} (P : A → Prop) `{!∀ x, Decision (P x)} (l : list A) :
  Forall P l → filter P l = l.
Proof.
  induction 1 as [|a l Ha _ IH]; [done|]. rewrite filter_cons_True by done. by rewrite IH.
Qed.

Lemma filter_keeps_none {A} (P : A → Prop) `{!∀ x, Decision (P x)} (l : list A) :
  Forall (λ x, ¬ P x) l → filter P l = [].
Proof.
  induction 1 as [|a l Ha _ IH]; [done|]. by rewrite filter_cons_False.
Qed.

Lemma filter_all_but_one {A} (P : A → Prop) `{!∀ x, Decision (P x)}
    (l : list A) (i : nat) (x : A) :
  l !! i = Some x → ¬ P x →
  (∀ j y, j ≠ i → l !! j = Some y → P y) →
  filter P l = delete i l.
Proof.
  revert i. induction l as [|a l IH]; intros i Hi Hx Hrest; [done|].
  destruct i as [|i]; cbn in Hi.
  - injection Hi as ->. rewrite filter_cons_False by done. cbn.
    apply filter_keeps_all, Forall_lookup. intros j y Hj. by apply (Hrest (S j)).
  - rewrite filter_cons_True by (by apply (Hrest 0%nat)). cbn. f_equal.
    apply IH; [done | done |]. intros j y Hne Hj. apply (Hrest (S j)); [lia | done].
Qed.

(** X13: deleting a block that belongs to no series, or that is the only
    block of its series, removes that position and touches nothing else,
    with either scope: no exception is recorded and no revision changes. *)
Theorem deleteBlock_of_a_lone_block
    (blocks : list Block) (id : string) (idx : nat) (blk : Block) :
  findBlock blocks id = Some (idx, blk) →
  (∀ recId j o, recurrence_id blk = Some recId → j ≠ idx → blocks !! j = Some o →
                in_series recId o = false) →
  deleteBlock blocks id single = Return (delete idx blocks)
  ∧ deleteBlock blocks id series = Return (delete idx blocks)
  ∧ S (length (delete idx blocks)) = length blocks
  ∧ ∀ j, delete idx blocks !! j = blocks !! (if decide (j < idx)%nat then j else S j).
Proof.
  intros Hfind Hlone.
  destruct (findBlock_Some _ _ _ _ Hfind) as (Hl & Hid & Hlt).
  assert (Hlen : S (length (delete idx blocks)) = length blocks).
  { rewrite length_delete by eauto. lia. }
  unfold deleteBlock. rewrite Hfind.
  destruct (recurrence_id blk) as [recId|] eqn:Hrid;
    [|split_and!; [done | done | done | apply list_lookup_delete]].
  assert (Hin : in_series recId blk = true).
  { destruct (recurrence_id_Some _ _ Hrid) as (r & Hr & Hrid' & _).
    unfold in_series. rewrite Hr. by apply bool_decide_eq_true. }
  assert (Hrest : Forall (λ o, ¬ (in_series recId o = true)) (delete idx blocks)).
  { apply Forall_lookup. intros j o Hj. rewrite list_lookup_delete in Hj.
    assert (in_series recId o = false) as ->; [|done].
    case_decide; [apply (Hlone recId j) | apply (Hlone recId (S j))]; try done; lia. }
  split_and!; [ | | done | apply list_lookup_delete].
  - cbv zeta. by rewrite (filter_keeps_none _ _ Hrest).
  - f_equal. apply (filter_all_but_one _ _ idx blk); [done | by rewrite Hin |].
    intros j o Hne Hj. exact (Hlone recId j o eq_refl Hne Hj).
Qed.

Lemma deleteBlock_of_a_lone_block_witness :
  let r := Some (sample_rule "r" (civil 2024 1 1) 1) in
  let a := sample_block "a" (at_ 2024 1 1 9 0) (at_ 2024 1 1 10 0) planned r in
  let x := sample_block "x" (at_ 2024 1 1 12 0) (at_ 2024 1 1 13 0) planned None in
  findBlock [x; a] "a" = Some (1%nat, a)
  ∧ deleteBlock [x; a] "a" single = Return [x]
  ∧ deleteBlock [x; a] "a" series = Return [x].
Proof.
  intros r a x. split; [reflexivity|].
  assert (Hlone : ∀ recId j o, recurrence_id a = Some recId → j ≠ 1%nat →
                   [x; a] !! j = Some o → in_series recId o = false).
  { intros recId j o _ Hne Hj. destruct j as [|[|j]]; [|done|done].
    injection Hj as <-. reflexivity. }
  destruct (deleteBlock_of_a_lone_block [x; a] "a" 1 a eq_refl Hlone) as (H1 & H2 & _).
  split; [exact H1 | exact H2].
Defined.

(** X14: the copy made by duplicateBlock is appended after the blocks,
    which stay as they are; it carries the title, times and status of the
    original, revision 1 and no recurrence, so that it belongs to no series:
    deleting the series of the original from the array that duplicateBlock
    left keeps the copy in place. *)
Theorem duplicateBlock_copy_is_detached
    (nid : string → nat → string) (n : nat) (blocks : list Block) (id : string)
    (i : nat) (blk : Block) (recId : string) :
  findBlock blocks id = Some (i, blk) →
  recurrence_id blk = Some recId →
  ∃ copy,
    duplicateBlock nid n blocks id = Return (blocks ++ [copy], block_id copy)
    ∧ block_id copy = nid "blk" n
    ∧ title copy = title blk ∧ task_id copy = task_id blk
    ∧ start copy = start blk ∧ end_ copy = end_ blk ∧ status copy = status blk
    ∧ rev copy = 1 ∧ recurrence copy = None
    ∧ ∃ rest, deleteBlock (blocks ++ [copy]) id series = Return (rest ++ [copy])
              ∧ (blk ∉ rest).
Proof.
  intros Hfind Hrid.
  destruct (findBlock_Some _ _ _ _ Hfind) as (Hl & Hid & Hlt).
  unfold duplicateBlock. rewrite Hfind. eexists. split; [reflexivity|].
  split_and!; try reflexivity.
  destruct (recurrence_id_Some _ _ Hrid) as (_ & _ & _ & Hne).
  unfold deleteBlock, findBlock. rewrite (list_find_app_l _ _ _ _ _ Hfind), Hrid.
  rewrite filter_app. eexists. split.
  - rewrite filter_cons_True by reflexivity. reflexivity.
  - rewrite list_elem_of_filter. intros [Hout _].
    rewrite (in_series_recurrence_id recId blk Hne) in Hout.
    by apply bool_decide_eq_false in Hout.
Qed.

Lemma duplicateBlock_copy_is_detached_witness :
  let r := Some (sample_rule "r" (civil 2024 1 1) 1) in
  let a := sample_block "a" (at_ 2024 1 1 9 0) (at_ 2024 1 1 10 0) done r in
  let b := sample_block "b" (at_ 2024 1 2 9 0) (at_ 2024 1 2 10 0) planned r in
  let nid := λ (prefix : string) (n : nat), prefix +:+ "_" +:+ pretty n in
  findBlock [a; b] "a" = Some (0%nat, a)
  ∧ recurrence_id a = Some "r"
  ∧ ∃ copy, duplicateBlock nid 7 [a; b] "a" = Return ([a; b; copy], "blk_7")
            ∧ status copy = done ∧ recurrence copy = None
            ∧ deleteBlock [a; b; copy] "a" series = Return [copy].
Proof.
  intros r a b nid. split_and!; [reflexivity | reflexivity |].
  destruct (duplicateBlock_copy_is_detached nid 7 [a; b] "a" 0 a "r" eq_refl eq_refl)
    as (copy & Hdup & Hcid & _ & _ & _ & _ & Hst & _ & Hrec & _).
  exists copy. split_and!; [by rewrite Hdup, Hcid | done | done |].
  destruct copy as [cid ctask ctitle cnotes cstart cend cstatus crev crec].
  cbn in Hcid, Hrec. subst crec. reflexivity.
Defined.

Section PipelineInvariants.

Variable nid : string → nat → string.
Variable now : nat → DateTime.

Lemma apply_command_grows (st : Run) (cmd : AICommandEnvelope) :
  let st' := apply_command nid now st cmd in
  (∃ added, (λ b, (block_id b, recurrence b)) <$> blocks st'
            = ((λ b, (block_id b, recurrence b)) <$> blocks st) ++ added
            ∧ length added = if creates_block cmd then 1%nat else 0%nat)
  ∧ length (tasks st') = (length (tasks st) + if creates_task cmd then 1 else 0)%nat.
Proof.
  assert (Hkeep : ∀ i b b', blocks st !! i = Some b →
            block_id b' = block_id b → recurrence b' = recurrence b →
            (λ b, (block_id b, recurrence b)) <$> <[i := b']> (blocks st)
            = ((λ b, (block_id b, recurrence b)) <$> blocks st) ++ []).
  { intros i b b' Hi Hid Hrec. rewrite app_nil_r, list_fmap_insert.
    apply list_insert_id. rewrite list_lookup_fmap, Hi. cbn. by rewrite Hid, Hrec. }
  unfold apply_command, run_command, creates_block, creates_task.
  destruct cmd as [eid [c|]]; cbn [env_command env_id];
    [destruct c|]; cbn [env_command env_id].
  - cbn [tasks blocks push_out with_tasks].
    split; [exists []; by rewrite app_nil_r|]. rewrite length_app. cbn. lia.
  - cbn [tasks blocks push_out with_blocks].
    split; [|lia]. eexists [_]. by rewrite fmap_app.
  - destruct (findBlock (blocks st) p_block_id) as [[i b0]|] eqn:Hf; cbn.
    + destruct (findBlock_Some _ _ _ _ Hf) as (Hi & _ & _).
      split; [|lia]. eexists. split; [by apply (Hkeep i b0)|done].
    + split; [exists []; by rewrite app_nil_r|lia].
  - destruct (findBlock (blocks st) p_block_id) as [[i b0]|] eqn:Hf; cbn.
    + destruct (findBlock_Some _ _ _ _ Hf) as (Hi & _ & _).
      split; [|lia]. eexists. split; [by apply (Hkeep i b0)|done].
    + split; [exists []; by rewrite app_nil_r|lia].
  - destruct (findBlock (blocks st) p_block_id) as [[i b0]|] eqn:Hf; cbn.
    + destruct (findBlock_Some _ _ _ _ Hf) as (Hi & _ & _).
      split; [|lia]. eexists. split; [by apply (Hkeep i b0)|done].
    + split; [exists []; by rewrite app_nil_r|lia].
  - destruct (findTask (tasks st) p_task_id) as [[i t0]|] eqn:Hf; cbn.
    + split; [exists []; by rewrite app_nil_r|]. rewrite length_insert. lia.
    + split; [exists []; by rewrite app_nil_r|lia].
  - destruct (findTask (tasks st) p_task_id) as [[i t0]|] eqn:Hf; cbn.
    + split; [exists []; by rewrite app_nil_r|]. rewrite length_insert. lia.
    + split; [exists []; by rewrite app_nil_r|lia].
  - cbn. split; [exists []; by rewrite app_nil_r|lia].
  - cbn. split; [exists []; by rewrite app_nil_r|lia].
  - cbn. split; [exists []; by rewrite app_nil_r|lia].
  - cbn. split; [exists []; by rewrite app_nil_r|lia].
Qed.

Lemma complete_block_step (st : Run) (eid : option string) (id : string) :
  let cmd := {| env_id := eid; env_command := Some (complete_block id) |} in
  tasks (apply_command nid now st cmd) = tasks st
  ∧ tick (apply_command nid now st cmd) = tick st
  ∧ blocks (apply_command nid now st cmd)
    = match findBlock (blocks st) id with
      | Some (i, b) => <[i := set_status b done]> (blocks st)
      | None => blocks st
      end.
Proof.
  unfold apply_command, run_command. cbn [env_command env_id].
  by destruct (findBlock (blocks st) id) as [[i b]|].
Qed.

End PipelineInvariants.

(** X15: whatever the batch, the pipeline never removes or reorders a
    block and never changes the id or the recurrence rule of one: the blocks
    it leaves start with the blocks it found, one for one, followed by one
    new block for each create_block command; the tasks grow by one for each
    create_task command. *)
Theorem pipeline_only_appends
    (nid : string → nat → string) (now : nat → DateTime)
    (lines : list AICommandEnvelope) (st : Run) :
  let st' := apply_commands nid now lines st in
  (∃ added, (λ b, (block_id b, recurrence b)) <$> blocks st'
            = ((λ b, (block_id b, recurrence b)) <$> blocks st) ++ added
            ∧ length added = length (filter (λ c, creates_block c = true) lines))
  ∧ length (blocks st')
    = (length (blocks st) + length (filter (λ c, creates_block c = true) lines))%nat
  ∧ length (tasks st')
    = (length (tasks st) + length (filter (λ c, creates_task c = true) lines))%nat.
Proof.
  cbv zeta. unfold apply_commands.
  assert (H : (∃ added,
             (λ b, (block_id b, recurrence b)) <$> blocks (foldl (apply_command nid now) st lines)
             = ((λ b, (block_id b, recurrence b)) <$> blocks st) ++ added
             ∧ length added = length (filter (λ c, creates_block c = true) lines))
          ∧ length (tasks (foldl (apply_command nid now) st lines))
            = (length (tasks st) + length (filter (λ c, creates_task c = true) lines))%nat).
  { revert st. induction lines as [|cmd lines IH]; intros st.
    - split; [exists []; by rewrite app_nil_r|cbn; lia].
    - cbn [foldl].
      destruct (IH (apply_command nid now st cmd)) as [(added' & Heq' & Hlen') Ht'].
      destruct (apply_command_grows nid now st cmd) as [(added & Heq & Hlen) Ht].
      split.
      + exists (added ++ added'). rewrite Heq', Heq, <- app_assoc. split; [done|].
        rewrite length_app, Hlen, Hlen'. rewrite filter_cons.
        destruct (creates_block cmd); by destruct (decide _).
      + rewrite Ht', Ht, filter_cons.
        destruct (creates_task cmd); destruct (decide _); cbn; try done; lia. }
  destruct H as [(added & Heq & Hlen) Ht]. split_and!; [by exists added | | done].
  apply (f_equal length) in Heq. rewrite length_app, !length_fmap in Heq. lia.
Qed.

(** X16: completing a block is idempotent: applying the same
    complete_block command a second time leaves the tasks and the blocks as
    the first application left them, revisions included. *)
Theorem complete_block_twice
    (nid : string → nat → string) (now : nat → DateTime)
    (st : Run) (eid : option string) (id : string) :
  let cmd := {| env_id := eid; env_command := Some (complete_block id) |} in
  let once := apply_command nid now st cmd in
  let twice := apply_command nid now once cmd in
  blocks twice = blocks once ∧ tasks twice = tasks once ∧ tick twice = tick once
  ∧ ∀ b, findBlock (blocks st) id = Some b →
         ∃ b', findBlock (blocks once) id = Some (b.1, b')
               ∧ status b' = done ∧ rev b' = rev b.2.
Proof.
  cbv zeta.
  destruct (complete_block_step nid now st eid id) as (Ht & Hk & Hb).
  destruct (complete_block_step nid now
              (apply_command nid now st {| env_id := eid;
                                           env_command := Some (complete_block id) |})
              eid id) as (Ht' & Hk' & Hb').
  cbv zeta in *. rewrite Ht', Hk', Hb'. clear Ht' Hk' Hb'. rewrite Hb.
  destruct (findBlock (blocks st) id) as [[i b]|] eqn:Hf.
  - assert (Hf' : findBlock (<[i := set_status b done]> (blocks st)) id
                  = Some (i, set_status b done))
      by (apply (findBlock_insert _ _ _ b); [done | by destruct (findBlock_Some _ _ _ _ Hf) as (_ & ? & _)]).
    rewrite Hf'. split_and!; try done.
    + by rewrite list_insert_insert_eq.
    + intros ? [= <-]. eauto.
  - rewrite Hf. split_and!; done.
Qed.

(** X17: a block created with an explicit id is appended without any check
    of the ids in use.  A complete_block command later in the same batch
    reaches it when no earlier block has the id; when one has, the command
    completes that earlier block and the new block stays planned, two blocks
    then sharing the id. *)
Theorem created_block_in_the_same_batch
    (nid : string → nat → string) (now : nat → DateTime)
    (st : Run) (e1 e2 : option string) (p : CreateBlockPayload) (id : string) :
  cb_block_id p = Some id →
  let created := {| block_id := id; task_id := cb_task_id p; title := cb_title p;
                    notes_override := None; start := cb_start p; end_ := cb_end p;
                    status := planned; rev := 1;
                    recurrence := cloneRecurrence (cb_recurrence p) |} in
  let batch := [ {| env_id := e1; env_command := Some (create_block p) |};
                 {| env_id := e2; env_command := Some (complete_block id) |} ] in
  blocks (apply_commands nid now batch st)
  = match findBlock (blocks st) id with
    | Some (i, b) => <[i := set_status b done]> (blocks st) ++ [created]
    | None => blocks st ++ [set_status created done]
    end
  ∧ ok <$> out (apply_commands nid now batch st) = (ok <$> out st) ++ [true; true].
Proof.
  intros Hid created batch. unfold apply_commands, batch. cbn [foldl].
  set (st1 := apply_command nid now st _).
  assert (Hb1 : blocks st1 = blocks st ++ [created]).
  { unfold st1, apply_command, run_command. cbn [env_command env_id]. by rewrite Hid. }
  assert (Ho1 : ok <$> out st1 = (ok <$> out st) ++ [true]).
  { unfold st1, apply_command, run_command. cbn [env_command env_id]. cbn.
    by rewrite fmap_app. }
  assert (Hf1 : findBlock (blocks st1) id
                = match findBlock (blocks st) id with
                  | Some (i, b) => Some (i, b)
                  | None => Some (length (blocks st), created)
                  end).
  { rewrite Hb1. unfold findBlock.
    destruct (list_find (λ x, block_id x = id) (blocks st)) as [[i b]|] eqn:Hf.
    - by apply list_find_app_l.
    - rewrite (list_find_app_r _ _ _ Hf). cbn [list_find].
      rewrite decide_True by done. reflexivity. }
  unfold apply_command at 1 2, run_command. cbn [env_command env_id]. rewrite Hf1.
  destruct (findBlock (blocks st) id) as [[i b]|] eqn:Hf;
    cbn [blocks out push_out with_blocks]; rewrite fmap_app, Ho1, Hb1, <- app_assoc;
    (split; [|reflexivity]).
  - destruct (findBlock_Some _ _ _ _ Hf) as (_ & _ & Hlt). by rewrite insert_app_l.
  - replace (length (blocks st)) with (length (blocks st) + 0)%nat by lia.
    by rewrite insert_app_r.
Qed.

Lemma created_block_in_the_same_batch_witness :
  let a := sample_block "a" (at_ 2024 1 1 9 0) (at_ 2024 1 1 10 0) planned None in
  let p := {| cb_block_id := Some "a"; cb_task_id := None; cb_title := None;
              cb_start := at_ 2024 1 2 9 0; cb_end := at_ 2024 1 2 10 0;
              cb_recurrence := None |} in
  let nid := λ (prefix : string) (n : nat), prefix +:+ "_" +:+ pretty n in
  let st := {| tasks := []; blocks := [a]; out := []; tick := 0 |} in
  let batch := [ sample_envelope "1" (create_block p);
                 sample_envelope "2" (complete_block "a") ] in
  cb_block_id p = Some "a"
  ∧ (status <$> blocks (apply_commands nid (λ n, Z.of_nat n) batch st)) = [done; planned]
  ∧ (block_id <$> blocks (apply_commands nid (λ n, Z.of_nat n) batch st)) = ["a"; "a"].
Proof.
  intros a p nid st batch. split; [reflexivity|].
  destruct (created_block_in_the_same_batch nid (λ n, Z.of_nat n) st (Some "1") (Some "2")
              p "a" eq_refl) as [Hb _].
  unfold batch, sample_envelope. rewrite Hb. split; reflexivity.
Defined.

(** ** The day columns of the week grid *)

Lemma insert_by_start_Permutation (b : Block) (l : list Block) :
  insert_by_start b l ≡ₚ b :: l.
Proof.
  induction l as [|x l IH]; cbn [insert_by_start]; [done|].
  destruct (start b <=? start x); [done|]. rewrite IH. apply Permutation_swap.
Qed.

Lemma insert_by_start_sorted (b : Block) (l : list Block) :
  StronglySorted (λ a b, start a <= start b) l →
  StronglySorted (λ a b, start a <= start b) (insert_by_start b l).
Proof.
  induction 1 as [|x l Hs IH Hx]; cbn [insert_by_start].
  - repeat constructor.
  - destruct (start b <=? start x) eqn:E.
    + apply Z.leb_le in E. constructor; [by constructor|].
      constructor; [done|]. eapply Forall_impl; [exact Hx|]. cbn. intros; lia.
    + apply Z.leb_gt in E. constructor; [done|].
      rewrite insert_by_start_Permutation. constructor; [lia | done].
Qed.

(** X18: the column of a day holds exactly the blocks that start on that
    day, each as often as it occurs among the blocks, ordered by start
    instant. *)
Theorem byDay_sorted_blocks_of_the_day (blocks : list Block) (dayISO : Z) :
  byDay blocks dayISO ≡ₚ filter (λ b, toISODate (start b) = dayISO) blocks
  ∧ StronglySorted (λ a b, start a <= start b) (byDay blocks dayISO)
  ∧ ∀ b, b ∈ byDay blocks dayISO ↔ b ∈ blocks ∧ toISODate (start b) = dayISO.
Proof.
  unfold byDay, sort_by_start. split_and!.
  - induction (filter _ blocks) as [|x l IH]; cbn [foldr]; [done|].
    by rewrite insert_by_start_Permutation, IH.
  - induction (filter _ blocks) as [|x l IH]; cbn [foldr]; [constructor|].
    by apply insert_by_start_sorted.
  - intros b. apply elem_of_byDay.
Qed.

(** ** The push policy: the scan for a gap *)

Lemma scan_gaps_found (items : list Item) (fromM duration : Z) :
  let g := scan_gaps items fromM duration in
  g = -1
  ∨ ∃ pre cur next post,
      items = pre ++ cur :: next :: post
      ∧ g = Z.max (it_e cur) fromM ∧ g + duration <= it_s next.
Proof.
  cbv zeta. induction items as [|cur rest IH]; [by left|].
  destruct rest as [|next rest]; [by left|].
  cbn [scan_gaps]. destruct (_ <=? _) eqn:E.
  - apply Z.leb_le in E. right. exists [], cur, next, rest. done.
  - destruct IH as [IH|(pre & c & n & post & Heq & Hg & Hle)]; [by left|].
    right. exists (cur :: pre), c, n, post. by rewrite Heq.
Qed.

Lemma scan_gaps_earliest (items : list Item) (last cur : Item) (fromM duration x : Z) :
  (∀ it, it ∈ items → it_s it < x + duration → it_e it <= x) →
  fromM <= x → x + duration <= it_s last → it_e cur <= x →
  let g := scan_gaps (cur :: items ++ [last]) fromM duration in
  g <= x ∧ ∃ c, c ∈ cur :: items ∧ g = Z.max (it_e c) fromM.
Proof.
  intros Hfree Hfrom Hlast. cbv zeta. revert cur.
  induction items as [|next items IH]; intros cur Hcur.
  - cbn [app scan_gaps]. rewrite (proj2 (Z.leb_le _ _)) by lia.
    split; [lia|]. exists cur. split; [left|done].
  - cbn [app scan_gaps]. destruct (_ <=? _) eqn:E.
    + split; [lia|]. exists cur. split; [left|done].
    + apply Z.leb_gt in E.
      destruct (IH (λ it Hin, Hfree it (list_elem_of_further _ _ _ Hin)) next)
        as (Hle & c & Hc & Hg).
      { apply Hfree; [left | lia]. }
      split; [done|]. exists c. split; [by right | done].
Qed.

Lemma laid_out_head_least (x : Item) (l : list Item) :
  laid_out_in_order (x :: l) = true →
  ∀ it, it ∈ x :: l → it_s x <= it_s it ∧ it_e x <= it_e it.
Proof.
  revert x. induction l as [|y l IH]; intros x H it Hin.
  - apply list_elem_of_singleton in Hin as ->. lia.
  - cbn [laid_out_in_order] in H. fold (laid_out_in_order (y :: l)) in H.
    apply andb_prop in H as [H Hl]. apply andb_prop in H as [H1 H2].
    apply Z.leb_le in H1, H2.
    apply elem_of_cons in Hin as [->|Hin]; [lia|].
    destruct (IH y Hl it Hin). apply andb_prop in Hl as [Hl _].
    apply andb_prop in Hl as [Hy _]. apply Z.leb_le in Hy. lia.
Qed.

Lemma laid_out_tail (x : Item) (l : list Item) :
  laid_out_in_order (x :: l) = true → laid_out_in_order l = true.
Proof. cbn [laid_out_in_order]. by intros [_ ?]%andb_prop. Qed.

Lemma laid_out_split (pre : list Item) (cur : Item) (rest : list Item) :
  laid_out_in_order (pre ++ cur :: rest) = true →
  laid_out_in_order (cur :: rest) = true ∧ ∀ it, it ∈ pre → it_e it <= it_e cur.
Proof.
  induction pre as [|p pre IH]; intros H.
  - split; [done|]. by intros it ?%elem_of_nil.
  - destruct (IH (laid_out_tail _ _ H)) as [Hl Hpre]. split; [done|].
    intros it [->|Hin]%elem_of_cons; [|by apply Hpre].
    apply (laid_out_head_least _ _ H). rewrite elem_of_cons, elem_of_app, elem_of_cons.
    auto.
Qed.

Lemma laid_out_with_sentinels (items : list Item) (first last : Item) :
  laid_out_in_order items = true →
  it_s first <= it_e first → it_s last <= it_e last →
  (∀ it, it ∈ items → it_e first <= it_s it ∧ it_e it <= it_s last) →
  it_e first <= it_s last →
  laid_out_in_order (first :: items ++ [last]) = true.
Proof.
  intros Hl Hf Hla Hb Hfl.
  assert (Hend : laid_out_in_order (items ++ [last]) = true).
  { induction items as [|a l IH]; cbn [app laid_out_in_order].
    - rewrite (proj2 (Z.leb_le _ _)) by done. done.
    - cbn [laid_out_in_order] in Hl. apply andb_prop in Hl as [Hl Hl'].
      apply andb_prop in Hl as [H1 H2].
      rewrite IH; [|done|intros it Hin; apply Hb; by right].
      rewrite H1. destruct l as [|b l]; cbn [app]; [|by rewrite H2].
      rewrite (proj2 (Z.leb_le _ _)); [done|]. apply Hb. left. }
  cbn [laid_out_in_order]. rewrite Hend, (proj2 (Z.leb_le _ _) Hf).
  destruct items as [|a l]; cbn [app]; rewrite (proj2 (Z.leb_le _ _)); try done.
  apply Hb. left.
Qed.

Lemma item_of_bounds (b : Block) :
  0 <= it_s (item_of b) < MINUTES_PER_DAY ∧ 0 <= it_e (item_of b) < MINUTES_PER_DAY.
Proof.
  split; [apply (minutesSinceMidnight_spec (start b))
         | apply (minutesSinceMidnight_spec (end_ b))].
Qed.

(** X19: on a visible day, findNextGap returns -1 or a minute that is not
    negative, not before the minute asked for, and early enough for the
    duration to end by 24:00. *)
Theorem findNextGap_within_the_day
    (days : list DateTime) (blocks : list Block) (dayIndex : Z) (day : DateTime)
    (fromM duration : Z) :
  dayAt days dayIndex = Some day →
  ∃ g, findNextGap days blocks dayIndex fromM duration = Return g
       ∧ (g = -1 ∨ 0 <= g ∧ fromM <= g ∧ g + duration <= MINUTES_PER_DAY).
Proof.
  intros Hday. unfold findNextGap. rewrite Hday. eexists. split; [reflexivity|].
  cbv zeta.
  set (first := {| it_s := 0; it_e := 0; it_id := "__start" |}).
  set (last := {| it_s := MINUTES_PER_DAY; it_e := MINUTES_PER_DAY; it_id := "__end" |}).
  set (items := item_of <$> byDay blocks (toISODate day)).
  assert (Hb : ∀ it, it ∈ (first :: items) ++ [last] →
                0 <= it_e it ∧ it_s it <= MINUTES_PER_DAY).
  { intros it. rewrite elem_of_app, elem_of_cons, list_elem_of_singleton.
    intros [[->| (b & -> & _)%list_elem_of_fmap] | ->];
      [cbn; unfold MINUTES_PER_DAY; lia | | cbn; unfold MINUTES_PER_DAY; lia].
    pose proof (item_of_bounds b). lia. }
  destruct (scan_gaps_found ((first :: items) ++ [last]) fromM duration)
    as [Hg|(pre & c & n & post & Heq & Hg & Hle)]; [by left|].
  right. rewrite Hg at 1 2.
  assert (0 <= it_e c).
  { apply Hb. rewrite Heq, elem_of_app, elem_of_cons. auto. }
  assert (it_s n <= MINUTES_PER_DAY).
  { apply Hb. rewrite Heq, elem_of_app, !elem_of_cons. auto. }
  lia.
Qed.

Lemma findNextGap_within_the_day_witness :
  let monday := at_ 2024 1 1 0 0 in
  let a := sample_block "a" (at_ 2024 1 1 9 0) (at_ 2024 1 1 10 0) planned None in
  dayAt (week_days monday) 0 = Some monday
  ∧ findNextGap (week_days monday) [a] 0 570 60 = Return 600.
Proof.
  intros monday a. split; [reflexivity|].
  destruct (findNextGap_within_the_day (week_days monday) [a] 0 monday 570 60 eq_refl)
    as (g & Hg & _).
  rewrite Hg. f_equal. vm_compute in Hg. by injection Hg.
Defined.

(** X20: on a day whose blocks each end at a later minute than they
    start, when some slot of the duration at or after the minute asked for
    overlaps no block of the day, findNextGap finds a gap, and one that
    starts no later than that slot: the push policy never gives up while a
    free slot is left, and never goes past the earliest one. *)
Theorem findNextGap_no_later_than_a_free_slot
    (days : list DateTime) (blocks : list Block) (dayIndex : Z) (day : DateTime)
    (fromM duration x : Z) :
  dayAt days dayIndex = Some day →
  0 <= x → fromM <= x → 0 < duration → x + duration <= MINUTES_PER_DAY →
  (∀ b, b ∈ blocks → toISODate (start b) = toISODate day →
        minutesSinceMidnight (start b) < minutesSinceMidnight (end_ b)
        ∧ overlaps x (x + duration) (minutesSinceMidnight (start b))
                                    (minutesSinceMidnight (end_ b)) = false) →
  ∃ g, findNextGap days blocks dayIndex fromM duration = Return g
       ∧ 0 <= g ∧ fromM <= g <= x.
Proof.
  intros Hday Hx Hfrom Hdur Hend Hfree. unfold findNextGap. rewrite Hday.
  eexists. split; [reflexivity|]. cbv zeta.
  set (first := {| it_s := 0; it_e := 0; it_id := "__start" |}).
  set (last := {| it_s := MINUTES_PER_DAY; it_e := MINUTES_PER_DAY; it_id := "__end" |}).
  set (items := item_of <$> byDay blocks (toISODate day)).
  destruct (scan_gaps_earliest items last first fromM duration x) as (Hle & c & Hc & Hg);
    [|done|done|done|].
  { intros it (b & -> & Hb)%list_elem_of_fmap Hs.
    apply elem_of_byDay in Hb as [Hin Hd]. destruct (Hfree b Hin Hd) as [Hlen Hfree'].
    clear Hfree. rename Hfree' into Hfree. unfold overlaps in Hfree. apply bool_decide_eq_false in Hfree.
    change (it_s (item_of b)) with (minutesSinceMidnight (start b)) in Hs.
    change (it_e (item_of b)) with (minutesSinceMidnight (end_ b)). lia. }
  change ((first :: items) ++ [last]) with (first :: items ++ [last]).
  split; [|lia].
  rewrite Hg. apply elem_of_cons in Hc as [->|(b & -> & _)%list_elem_of_fmap]; [cbn; lia|].
  pose proof (item_of_bounds b). lia.
Qed.

Lemma findNextGap_no_later_than_a_free_slot_witness :
  let monday := at_ 2024 1 1 0 0 in
  let a := sample_block "a" (at_ 2024 1 1 9 0) (at_ 2024 1 1 10 0) planned None in
  let b := sample_block "b" (at_ 2024 1 1 10 30) (at_ 2024 1 1 11 0) planned None in
  dayAt (week_days monday) 0 = Some monday
  ∧ ∃ g, findNextGap (week_days monday) [a; b] 0 570 60 = Return g ∧ 570 <= g <= 660.
Proof.
  intros monday a b. split; [reflexivity|].
  destruct (findNextGap_no_later_than_a_free_slot (week_days monday) [a; b] 0 monday
              570 60 660 eq_refl) as (g & Hg & _ & Hle);
    [lia | lia | lia | unfold MINUTES_PER_DAY; lia | | by exists g].
  intros o Hin _. apply elem_of_cons in Hin as [->|Hin]; [by vm_compute|].
  apply list_elem_of_singleton in Hin as ->. by vm_compute.
Defined.

(** X21: on a day whose blocks follow one another without overlapping, the
    gap that findNextGap returns is free: the duration placed there
    overlaps no block of the day. *)
Theorem findNextGap_gap_is_free
    (days : list DateTime) (blocks : list Block) (dayIndex : Z) (day : DateTime)
    (fromM duration g : Z) :
  dayAt days dayIndex = Some day →
  laid_out_in_order (item_of <$> byDay blocks (toISODate day)) = true →
  findNextGap days blocks dayIndex fromM duration = Return g →
  0 <= g →
  ∀ b, b ∈ blocks → toISODate (start b) = toISODate day →
       overlaps g (g + duration) (minutesSinceMidnight (start b))
                                 (minutesSinceMidnight (end_ b)) = false.
Proof.
  intros Hday Hlaid Hgap Hg b Hin Hd. unfold findNextGap in Hgap. rewrite Hday in Hgap.
  cbv zeta in Hgap.
  set (first := {| it_s := 0; it_e := 0; it_id := "__start" |}) in *.
  set (last := {| it_s := MINUTES_PER_DAY; it_e := MINUTES_PER_DAY; it_id := "__end" |}) in *.
  set (items := item_of <$> byDay blocks (toISODate day)) in *.
  assert (Hscan : scan_gaps ((first :: items) ++ [last]) fromM duration = g)
    by congruence.
  clear Hgap. rename Hscan into Hgap.
  assert (Hall : laid_out_in_order ((first :: items) ++ [last]) = true).
  { apply (laid_out_with_sentinels items first last); cbn; try done.
    intros it (o & -> & _)%list_elem_of_fmap. pose proof (item_of_bounds o). lia. }
  assert (Hb : item_of b ∈ (first :: items) ++ [last]).
  { rewrite elem_of_app, elem_of_cons. left. right. apply list_elem_of_fmap.
    exists b. split; [done|]. by apply elem_of_byDay. }
  destruct (scan_gaps_found ((first :: items) ++ [last]) fromM duration)
    as [Hno|(pre & c & n & post & Heq & Hgc & Hle)]; [rewrite Hgap in Hno; lia|].
  rewrite Hgap in Hgc, Hle. rewrite Heq in Hall, Hb.
  destruct (laid_out_split pre c (n :: post) Hall) as [Hrest Hpre].
  pose proof (laid_out_head_least n post (laid_out_tail _ _ Hrest)) as Hpost.
  unfold overlaps. apply bool_decide_eq_false.
  change (minutesSinceMidnight (start b)) with (it_s (item_of b)).
  change (minutesSinceMidnight (end_ b)) with (it_e (item_of b)).
  apply elem_of_app in Hb as [Hb|Hb]; [specialize (Hpre _ Hb); lia|].
  apply elem_of_cons in Hb as [->|Hb]; [lia|].
  destruct (Hpost _ Hb). lia.
Qed.

Lemma findNextGap_gap_is_free_witness :
  let monday := at_ 2024 1 1 0 0 in
  let a := sample_block "a" (at_ 2024 1 1 9 0) (at_ 2024 1 1 10 0) planned None in
  let b := sample_block "b" (at_ 2024 1 1 10 30) (at_ 2024 1 1 11 0) planned None in
  dayAt (week_days monday) 0 = Some monday
  ∧ findNextGap (week_days monday) [a; b] 0 570 60 = Return 660
  ∧ overlaps 660 (660 + 60) (minutesSinceMidnight (start b))
                            (minutesSinceMidnight (end_ b)) = false.
Proof.
  intros monday a b. split_and!; [reflexivity | reflexivity |].
  apply (findNextGap_gap_is_free (week_days monday) [a; b] 0 monday 570 60 660);
    [reflexivity | reflexivity | reflexivity | lia | | reflexivity].
  rewrite !elem_of_cons. auto.
Defined.

(** X22: on a visible day, the limit that clipEndToFirstConflict returns is
    never after the proposed end, stays after the start when the proposal
    does, and leaves the range from the start to the limit free of every
    sibling of the day that starts after the start. *)
Theorem clipEnd_clears_later_siblings
    (days : list DateTime) (blocks : list Block) (dayIndex : Z) (day : DateTime)
    (selfId : string) (sM eM : Z) :
  dayAt days dayIndex = Some day →
  ∃ lim, clipEndToFirstConflict days blocks dayIndex selfId sM eM = Return lim
         ∧ lim <= eM
         ∧ (sM < eM → sM < lim)
         ∧ ∀ ob, ob ∈ blocks → block_id ob ≠ selfId →
                 toISODate (start ob) = toISODate day →
                 sM < minutesSinceMidnight (start ob) →
                 overlaps sM lim (minutesSinceMidnight (start ob))
                                 (minutesSinceMidnight (end_ ob)) = false.
Proof.
  intros Hday. unfold clipEndToFirstConflict. rewrite Hday. cbv zeta.
  eexists. split; [reflexivity|].
  set (items := item_of <$> filter _ (byDay blocks (toISODate day))).
  destruct (clip_fold_spec sM eM items eM) as (Hle & Hmin & Hwhich). cbv zeta in *.
  set (lim := foldl _ eM items) in *.
  split_and!; [done | |].
  - intros Hlt. destruct Hwhich as [->|(it & _ & Hc & ->)]; [done|].
    apply andb_prop in Hc as [_ Hc]. by apply Z.ltb_lt in Hc.
  - intros ob Hin Hne Hd Hlater.
    assert (Hit : item_of ob ∈ items).
    { apply list_elem_of_fmap. exists ob. split; [done|].
      apply list_elem_of_filter. split; [done|]. by apply elem_of_byDay. }
    specialize (Hmin _ Hit).
    change (it_s (item_of ob)) with (minutesSinceMidnight (start ob)) in Hmin.
    change (it_e (item_of ob)) with (minutesSinceMidnight (end_ ob)) in Hmin.
    rewrite (proj2 (Z.ltb_lt _ _) Hlater), andb_true_r in Hmin.
    destruct (overlaps sM eM _ _) eqn:Hov.
    + specialize (Hmin eq_refl). unfold overlaps. apply bool_decide_eq_false. lia.
    + unfold overlaps in *. apply bool_decide_eq_false in Hov.
      apply bool_decide_eq_false. lia.
Qed.

Lemma clipEnd_clears_later_siblings_witness :
  let monday := at_ 2024 1 1 0 0 in
  let a := sample_block "a" (at_ 2024 1 1 9 0) (at_ 2024 1 1 10 0) planned None in
  let b := sample_block "b" (at_ 2024 1 1 10 0) (at_ 2024 1 1 11 0) planned None in
  dayAt (week_days monday) 0 = Some monday
  ∧ clipEndToFirstConflict (week_days monday) [a; b] 0 "a" 540 660 = Return 600.
Proof.
  intros monday a b. split; [reflexivity|].
  destruct (clipEnd_clears_later_siblings (week_days monday) [a; b] 0 monday "a" 540 660
              eq_refl) as (lim & Hlim & _).
  rewrite Hlim. f_equal. vm_compute in Hlim. by injection Hlim.
Defined.



(** ** The rolling hash of the batch signature *)

Lemma to_int32_range (x : Z) : - 2 ^ 31 <= to_int32 x < 2 ^ 31.
Proof. unfold to_int32. pose proof (Z.mod_pos_bound (x + 2 ^ 31) (2 ^ 32)). lia. Qed.

Lemma hash_step_to_int32 (a c : Z) : hash_step (to_int32 a) c = to_int32 (31 * a + c).
Proof.
  unfold hash_step, shl5. rewrite Z.shiftl_mul_pow2 by lia. unfold to_int32.
  change (2 ^ 5) with 32. change (2 ^ 31) with 2147483648. change (2 ^ 32) with 4294967296.
  Z.div_mod_to_equations. lia.
Qed.

Lemma foldl_hash_step (s : JSString) (a : Z) :
  foldl hash_step (to_int32 a) s = to_int32 (foldl (λ h c, 31 * h + c) a s).
Proof.
  revert a. induction s as [|c s IH]; intros a; cbn [foldl]; [done|].
  by rewrite hash_step_to_int32, IH.
Qed.

Lemma hashStr_poly31 (s : JSString) : hashStr s = pretty (to_int32 (poly31 s)).
Proof. unfold hashStr, poly31. by rewrite <- foldl_hash_step. Qed.

Lemma poly31_app (p s : JSString) :
  poly31 (p ++ s) = foldl (λ h c, 31 * h + c) (poly31 p) s.
Proof. unfold poly31. by rewrite foldl_app. Qed.

(** X24: the hash of the signature is the polynomial of the code units in
    31 (the last unit with weight 1), reduced to a signed 32-bit integer and
    printed in decimal; appending a unit multiplies the polynomial by 31 and
    adds the unit. *)
Theorem hashStr_is_polynomial_in_31 (s : JSString) (c : Z) :
  hashStr s = pretty (to_int32 (poly31 s))
  ∧ - 2 ^ 31 <= to_int32 (poly31 s) < 2 ^ 31
  ∧ poly31 [] = 0
  ∧ poly31 (s ++ [c]) = 31 * poly31 s + c.
Proof.
  split_and!; [apply hashStr_poly31 | apply to_int32_range | apply to_int32_range
              | reflexivity | by rewrite poly31_app].
Qed.

Lemma signature_collision (p s : JSString) (c1 c2 d1 d2 : Z) :
  31 * c1 + c2 = 31 * d1 + d2 →
  signature (p ++ [c1; c2] ++ s) = signature (p ++ [d1; d2] ++ s).
Proof.
  intros Heq. unfold signature.
  assert (Hh : hashStr (p ++ [c1; c2] ++ s) = hashStr (p ++ [d1; d2] ++ s)).
  { rewrite !hashStr_poly31, !poly31_app, !foldl_app. cbn [foldl]. do 3 f_equal. lia. }
  rewrite Hh, !length_app. cbn [length].
  destruct p; reflexivity.
Qed.

(** X25: two inbox texts that differ in two adjacent code units with the
    same value of 31 times the first plus the second have the same
    signature; after the first has been applied, the second is taken for the
    same batch: the button skips it, and the timer leaves everything as it
    is. *)
Theorem changed_inbox_with_same_signature
    (nid : string → nat → string) (now : nat → DateTime)
    (parseJSONL : JSString → Completion (list AICommandEnvelope))
    (extendRecurringBlocks : nat → list Block → list Block)
    (a : App) (p s : JSString) (c1 c2 d1 d2 : Z) :
  31 * c1 + c2 = 31 * d1 + d2 →
  lastSig a = signature (p ++ [c1; c2] ++ s) →
  commands_jsonl (files a) = Some (p ++ [d1; d2] ++ s) →
  signature (p ++ [d1; d2] ++ s) = signature (p ++ [c1; c2] ++ s)
  ∧ onApplyCommands nid now parseJSONL extendRecurringBlocks a
    = setMessage a "已是最新命令，跳过。"
  ∧ onPoll nid now parseJSONL extendRecurringBlocks a = a.
Proof.
  intros Heq Hlast Hinbox.
  pose proof (signature_collision p s c1 c2 d1 d2 Heq) as Hsig.
  assert (Hne : signature (p ++ [d1; d2] ++ s) ≠ "").
  { apply signature_nonempty. by destruct p. }
  split_and!; [done | |].
  - unfold onApplyCommands. cbn [setMessage files lastSig]. rewrite Hinbox. cbn [default].
    unfold id. rewrite bool_decide_eq_true_2 by done.
    rewrite bool_decide_eq_true_2 by congruence. reflexivity.
  - unfold onPoll. rewrite Hinbox. cbv zeta.
    rewrite (bool_decide_eq_false_2 (_ ≠ lastSig a)) by (intros H; apply H; congruence).
    by rewrite andb_false_r.
Qed.

Lemma changed_inbox_with_same_signature_witness :
  let nid := λ (prefix : string) (_ : nat), prefix in
  let now := λ _ : nat, at_ 2024 1 1 0 0 in
  let parse := λ _ : JSString, Return ([] : list AICommandEnvelope) in
  let extend := λ (_ : nat) (bs : list Block), bs in
  let a := sample_app (Some (code_units "BB")) (signature (code_units "Aa")) in
  code_units "Aa" ≠ code_units "BB"
  ∧ signature (code_units "BB") = "2:2112"
  ∧ onApplyCommands nid now parse extend a = setMessage a "已是最新命令，跳过。"
  ∧ onPoll nid now parse extend a = a.
Proof.
  intros nid now parse extend a. split_and!; [discriminate | reflexivity | |].
  - exact (proj1 (proj2 (changed_inbox_with_same_signature nid now parse extend a
                           [] [] 65 97 66 66 eq_refl eq_refl eq_refl))).
  - reflexivity.
Defined.

(** X26: a missing inbox and an empty one have no signature, so the button
    never skips them: every press runs the pipeline, which rewrites the two
    collections as loaded, adds one more result file (holding the read
    failure, or nothing) and leaves the last signature alone.  The timer
    does nothing in either case. *)
Theorem empty_inbox_is_never_skipped
    (nid : string → nat → string) (now : nat → DateTime)
    (parseJSONL : JSString → Completion (list AICommandEnvelope))
    (extendRecurringBlocks : nat → list Block → list Block)
    (a : App) :
  commands_jsonl (files a) = None ∨ commands_jsonl (files a) = Some [] →
  let a' := onApplyCommands nid now parseJSONL extendRecurringBlocks a in
  result_jsonl (files a')
  = result_jsonl (files a)
    ++ [if commands_jsonl (files a) is None then [failed (Some "N/A") "READ_FAIL: "]
        else []]
  ∧ tasks_jsonl (files a') = tasks_jsonl (files a)
  ∧ blocks_jsonl (files a') = extendRecurringBlocks (clock a) (blocks_jsonl (files a))
  ∧ app_blocks a' = blocks_jsonl (files a')
  ∧ lastSig a' = lastSig a ∧ last_sig_txt (files a') = last_sig_txt (files a)
  ∧ (clock a < clock a')%nat
  ∧ onPoll nid now parseJSONL extendRecurringBlocks a = a.
Proof.
  intros Hinbox. cbv zeta. unfold onApplyCommands, onPoll, applyCommandsFromInbox.
  cbn [setMessage files lastSig clock].
  assert (Hno : bool_decide (("" : string) ≠ "") = false)
    by (apply bool_decide_eq_false_2; intros H; by apply H).
  destruct Hinbox as [-> | ->]; cbn; rewrite !Hno; cbn; split_and!; try done; lia.
Qed.

Lemma empty_inbox_is_never_skipped_witness :
  let nid := λ (prefix : string) (_ : nat), prefix in
  let now := λ _ : nat, at_ 2024 1 1 0 0 in
  let parse := λ _ : JSString, Return ([] : list AICommandEnvelope) in
  let extend := λ (_ : nat) (bs : list Block), bs in
  let a := sample_app (Some []) "3:96354" in
  commands_jsonl (files a) = Some []
  ∧ result_jsonl (files (onApplyCommands nid now parse extend
                           (onApplyCommands nid now parse extend a))) = [[]; []].
Proof.
  intros nid now parse extend a. split; [reflexivity|].
  destruct (empty_inbox_is_never_skipped nid now parse extend a (or_intror eq_refl))
    as (Hres & _).
  reflexivity.
Defined.

(** X27: the timer applies a batch once: after a firing on an inbox that
    parses, the last signature is that of the inbox, and a further firing
    on the unchanged inbox changes nothing at all.  An inbox that does not
    parse is never recorded: the firing writes no result file and keeps the
    last signature, so that the next firing tries again. *)
Theorem timer_applies_a_batch_once
    (nid : string → nat → string) (now : nat → DateTime)
    (parseJSONL : JSString → Completion (list AICommandEnvelope))
    (extendRecurringBlocks : nat → list Block → list Block)
    (a : App) (raw : JSString) :
  commands_jsonl (files a) = Some raw →
  raw ≠ [] →
  let poll := onPoll nid now parseJSONL extendRecurringBlocks in
  (∀ lines, parseJSONL raw = Return lines →
     lastSig (poll a) = signature raw
     ∧ commands_jsonl (files (poll a)) = Some raw
     ∧ poll (poll a) = poll a)
  ∧ (∀ e, parseJSONL raw = Throw e → lastSig a ≠ signature raw →
     lastSig (poll a) = lastSig a
     ∧ result_jsonl (files (poll a)) = result_jsonl (files a)
     ∧ tasks_jsonl (files (poll a)) = tasks_jsonl (files a)
     ∧ commands_jsonl (files (poll a)) = Some raw
     ∧ (clock a < clock (poll a))%nat).
Proof.
  intros Hinbox Hne poll.
  pose proof (signature_nonempty raw Hne) as Hsig.
  assert (Hsame : ∀ a', commands_jsonl (files a') = Some raw →
                        lastSig a' = signature raw → poll a' = a').
  { intros a' Hin Hlast. unfold poll, onPoll. rewrite Hin. cbv zeta.
    rewrite (bool_decide_eq_false_2 (_ ≠ lastSig a')) by (intros H; by apply H).
    by rewrite andb_false_r. }
  assert (Hrun : lastSig a ≠ signature raw →
            poll a = match applyCommandsFromInbox nid now parseJSONL extendRecurringBlocks
                             (files a) (clock a) with
                     | (f, n, Throw _) =>
                         {| files := f; clock := n; app_tasks := app_tasks a;
                            app_blocks := app_blocks a; lastSig := lastSig a;
                            message := message a |}
                     | (f, n, Return result) =>
                         {| files := {| tasks_jsonl := tasks_jsonl f;
                                        blocks_jsonl := blocks_jsonl f;
                                        commands_jsonl := commands_jsonl f;
                                        result_jsonl := result_jsonl f;
                                        last_sig_txt := Some (signature raw) |};
                            clock := n;
                            app_tasks := tasks_jsonl f; app_blocks := blocks_jsonl f;
                            lastSig := signature raw;
                            message := "自动应用：" +:+ pretty (count_ok true result)
                                       +:+ " 成功，"
                                       +:+ pretty (count_ok false result) +:+ " 失败" |}
                     end).
  { intros Hlast. unfold poll, onPoll. rewrite Hinbox. cbv zeta.
    rewrite (bool_decide_eq_true_2 (signature raw ≠ "")) by done.
    rewrite (bool_decide_eq_true_2 (signature raw ≠ lastSig a)) by congruence.
    reflexivity. }
  split.
  - intros lines Hparse.
    assert (H : lastSig (poll a) = signature raw
                ∧ commands_jsonl (files (poll a)) = Some raw).
    { destruct (decide (lastSig a = signature raw)) as [Hlast|Hlast].
      { by rewrite (Hsame a Hinbox Hlast). }
      rewrite (Hrun Hlast). unfold applyCommandsFromInbox. rewrite Hinbox.
      destruct raw as [|c raw']; [done|]. rewrite Hparse. done. }
    destruct H as [H1 H2]. split_and!; [done | done | by apply Hsame].
  - intros e Hparse Hlast. rewrite (Hrun Hlast). unfold applyCommandsFromInbox.
    rewrite Hinbox. destruct raw as [|c raw']; [done|]. rewrite Hparse. cbn.
    split_and!; try done. lia.
Qed.

Lemma timer_applies_a_batch_once_witness :
  let nid := λ (prefix : string) (n : nat), prefix +:+ "_" +:+ pretty n in
  let now := λ n : nat, Z.of_nat n in
  let p := {| cb_block_id := None; cb_task_id := None; cb_title := None;
              cb_start := at_ 2024 1 2 9 0; cb_end := at_ 2024 1 2 10 0;
              cb_recurrence := None |} in
  let parse := λ _ : JSString, Return [sample_envelope "1" (create_block p)] in
  let extend := λ (_ : nat) (bs : list Block), bs in
  let a := sample_app (Some (code_units "abc")) "" in
  let poll := onPoll nid now parse extend in
  commands_jsonl (files a) = Some (code_units "abc")
  ∧ code_units "abc" ≠ []
  ∧ length (blocks_jsonl (files (poll a))) = 1%nat
  ∧ poll (poll a) = poll a.
Proof.
  intros nid now p parse extend a poll.
  assert (Hne : code_units "abc" ≠ []) by discriminate.
  split_and!; [reflexivity | exact Hne | reflexivity |].
  exact (proj2 (proj2 (proj1 (timer_applies_a_batch_once nid now parse extend a
                                (code_units "abc") eq_refl Hne) _ eq_refl))).
Defined.

(** ** The pass over the recurring blocks *)

Lemma cursors_spec (cursor horizon c : DateTime) :
  c ∈ cursors cursor horizon
  ↔ ∃ k, 0 <= k ∧ c = plus_days cursor k ∧ c <= horizon.
Proof.
  unfold cursors, plus_days, MS_PER_DAY. rewrite list_elem_of_fmap. split.
  - intros (k & -> & Hk%elem_of_seq). exists (Z.of_nat k). split_and!; [lia | done |].
    assert (Z.of_nat k < (horizon - cursor) / 86400000 + 1) by lia.
    Z.div_mod_to_equations. lia.
  - intros (k & Hk & -> & Hle). exists (Z.to_nat k). rewrite Z2Nat.id by done.
    split; [done|]. apply elem_of_seq.
    assert (k < (horizon - cursor) / 86400000 + 1) by (Z.div_mod_to_equations; lia).
    lia.
Qed.

Lemma foldl_unflagged {S X} (flag : S → bool) (f : S → X → S) :
  (∀ s x, flag (f s x) = false → f s x = s) →
  ∀ l s, flag (foldl f s l) = false → foldl f s l = s.
Proof.
  intros Hf l. induction l as [|x l IH]; intros s H; cbn [foldl] in *; [done|].
  rewrite (IH _ H) in H |- *. by apply Hf.
Qed.

Lemma remove_block_cases (p : Pass) (blk : Block) :
  remove_block p blk = p
  ∨ ∃ idx, p_blocks p !! idx = Some blk
           ∧ remove_block p blk = {| p_blocks := delete idx (p_blocks p);
                                     p_tick := p_tick p; p_mutated := true |}.
Proof.
  unfold remove_block. destruct (list_find _ _) as [[idx x]|] eqn:Hf; [|by left].
  apply list_find_Some in Hf as (Hl & -> & _). right. eauto.
Qed.

Lemma filter_delete_other {A} (P : A → Prop) `{!∀ x, Decision (P x)}
    (l : list A) (i : nat) (x : A) :
  l !! i = Some x → ¬ P x → filter P (delete i l) = filter P l.
Proof.
  revert i. induction l as [|a l IH]; intros i Hi Hx; [done|].
  destruct i as [|i]; cbn in Hi.
  - injection Hi as ->. by rewrite filter_cons_False.
  - change (delete (S i) (a :: l)) with (a :: delete i l).
    rewrite !filter_cons. by rewrite (IH i).
Qed.

Section RecurringFacts.

Variable nid : string → nat → string.
Variable now : nat → DateTime.

Lemma materialize_cases (rec : BlockRecurrence) (w : Walk) (cursor : DateTime) :
  materialize nid rec w cursor = w
  ∨ (shouldIncludeDate rec cursor = true ∧ (toISODate cursor ∉ w_existing w))
    ∧ ∃ block,
        materialize nid rec w cursor
        = {| w_pass := {| p_blocks := p_blocks (w_pass w) ++ [block];
                          p_tick := S (p_tick (w_pass w)); p_mutated := true |};
             w_existing := w_existing w ++ [toISODate cursor];
             w_members := w_members w ++ [block] |}
        ∧ start block = plus_minutes cursor (inject_Z (default 0 (startMinute rec)))
        ∧ end_ block = plus_minutes (start block) (duration rec)
        ∧ status block = planned ∧ rev block = 1
        ∧ recurrence block = Some rec
        ∧ title block = head (w_members w) ≫= title
        ∧ task_id block = head (w_members w) ≫= task_id
        ∧ block_id block = nid "blk" (p_tick (w_pass w)).
Proof.
  unfold materialize, includes.
  destruct (shouldIncludeDate rec cursor) eqn:Hinc; [|by left].
  case_bool_decide as Hex; [by left|]. right. split; [done|].
  eexists. split; [reflexivity|]. split_and!; try reflexivity.
  apply cloneRecurrence_Some.
Qed.

Lemma unflagged_pass (horizon : DateTime) (p : Pass) (data : Series) :
  p_mutated (extend_series nid now horizon p data) = false →
  p_blocks (extend_series nid now horizon p data) = p_blocks p ∧ p_mutated p = false.
Proof.
  unfold extend_series. cbv zeta. destruct (startDate (s_rec data)) as [a|]; [|done].
  set (w0 := {| w_pass := _ |}). set (cs := cursors _ _).
  assert (Hprune : ∀ w, p_mutated (prune (s_rec data) w) = false →
                        prune (s_rec data) w = w_pass w).
  { intros w. unfold prune. destruct (until (s_rec data)) as [[u|]|]; [|done|done].
    apply (foldl_unflagged p_mutated). intros q blk.
    destruct (endOfDay _ <? _); [|done].
    by destruct (remove_block_cases q blk) as [->|(idx & _ & ->)]. }
  intros H. rewrite (Hprune _ H) in H |- *.
  assert (Hw : foldl (materialize nid (s_rec data)) w0 cs = w0).
  { apply (foldl_unflagged (λ w, p_mutated (w_pass w))); [|done].
    intros w c. by destruct (materialize_cases (s_rec data) w c) as [->|(_ & b & -> & _)]. }
  rewrite Hw in H |- *. done.
Qed.

Lemma unflagged_passes (horizon : DateTime) (byId : list Series) (p : Pass) :
  p_mutated (foldl (extend_series nid now horizon) p byId) = false →
  p_blocks (foldl (extend_series nid now horizon) p byId) = p_blocks p
  ∧ p_mutated p = false.
Proof.
  revert p. induction byId as [|s byId IH]; intros p H; cbn [foldl] in *; [done|].
  destruct (IH _ H) as [Hb Hm]. rewrite Hb. by apply unflagged_pass.
Qed.

Lemma foldl_invariant_in {S X} (I : S → Prop) (f : S → X → S) (l : list X) :
  (∀ s x, x ∈ l → I s → I (f s x)) → ∀ s, I s → I (foldl f s l).
Proof.
  induction l as [|x l IH]; intros Hf s Hs; cbn [foldl]; [done|].
  apply IH; [intros; apply Hf; [by right | done]|]. apply Hf; [left | done].
Qed.

Lemma push_member_spec (byId : list Series) (id : string) (rec : BlockRecurrence)
    (blk : Block) :
  ((id ∉ s_id <$> byId)
   ∧ push_member byId id rec blk
     = byId ++ [{| s_id := id; s_rec := rec; s_blocks := [blk] |}])
  ∨ ∃ pre s post,
      byId = pre ++ s :: post ∧ s_id s = id
      ∧ push_member byId id rec blk
        = pre ++ {| s_id := s_id s; s_rec := s_rec s; s_blocks := s_blocks s ++ [blk] |}
              :: post.
Proof.
  induction byId as [|s byId IH]; cbn [push_member].
  - left. split; [apply not_elem_of_nil | done].
  - case_bool_decide as Hs.
    + right. by exists [], s, byId.
    + destruct IH as [[Hn ->] | (pre & s' & post & -> & Hs' & ->)].
      * left. split; [|done]. rewrite fmap_cons, not_elem_of_cons. done.
      * right. by exists (s :: pre), s', post.
Qed.

Lemma entry_of_snoc (l : list Block) (x : Block) (s : Series) :
  entry_of l s → entry_of (l ++ [x]) s.
Proof.
  intros (Hr & (b0 & (i & Hfind) & Hrec & Hhd) & Hmem).
  split_and!; [done | |].
  - exists b0. split_and!; [|done|done]. exists i. by apply list_find_app_l.
  - eapply Forall_impl; [exact Hmem|]. cbn. intros b [Hin ?]. split; [|done].
    apply elem_of_app. by left.
Qed.

Lemma group_by_series_spec (blocks : list Block) :
  Forall (entry_of blocks) (group_by_series blocks)
  ∧ NoDup (s_id <$> group_by_series blocks)
  ∧ ∀ b id, b ∈ blocks → recurrence_id b = Some id →
            id ∈ s_id <$> group_by_series blocks.
Proof.
  induction blocks as [|x l IH] using rev_ind.
  - split_and!; [constructor | constructor | by intros ? ? ?%elem_of_nil].
  - unfold group_by_series in *. rewrite foldl_app. cbn [foldl].
    set (byId := foldl add_to_series [] l) in *.
    destruct IH as (Hent & Hnd & Hall).
    unfold add_to_series.
    destruct (recurrence_id x) as [id|] eqn:Hid.
    2: { split_and!; [eapply Forall_impl; eauto using entry_of_snoc | done |].
         intros b id' [Hin| ->%list_elem_of_singleton]%elem_of_app Hb; [eauto | congruence]. }
    destruct (recurrence_id_Some _ _ Hid) as (r & Hr & Hrid & Hne).
    rewrite Hr, cloneRecurrence_Some.
    destruct (push_member_spec byId id r x) as [[Hn ->] | (pre & s & post & Hby & Hs & ->)].
    + split_and!.
      * apply Forall_app. split; [eapply Forall_impl; eauto using entry_of_snoc|].
        constructor; [|constructor]. split_and!; cbn [s_id s_rec s_blocks].
        -- done.
        -- exists x. split_and!; [|done|done]. exists (0 + length l)%nat.
           rewrite list_find_app_r.
           ++ cbn [list_find]. by rewrite decide_True.
           ++ apply list_find_None, Forall_forall. intros b Hb Hbid.
              by apply Hn, (Hall b id).
        -- constructor; [|constructor]. split; [|done].
           apply elem_of_app. right. left.
      * rewrite fmap_app. apply NoDup_app. split_and!; [done | | apply NoDup_singleton].
        by intros y Hy ->%list_elem_of_singleton.
      * intros b id' Hin Hb. rewrite fmap_app, elem_of_app.
        apply elem_of_app in Hin as [Hin| ->%list_elem_of_singleton]; [left; eauto|].
        right. assert (id' = id) as -> by congruence. left.
    + assert (Hids : s_id <$> pre ++ {| s_id := s_id s; s_rec := s_rec s;
                                        s_blocks := s_blocks s ++ [x] |} :: post
                     = s_id <$> byId).
      { by rewrite Hby, !fmap_app, !fmap_cons. }
      rewrite Hids. rewrite Hby in Hent.
      apply Forall_app in Hent as [Hpre Hrest]. apply Forall_cons in Hrest as [Hs_ent Hpost].
      split_and!.
      * apply Forall_app. split; [eapply Forall_impl; eauto using entry_of_snoc|].
        constructor; [|eapply Forall_impl; eauto using entry_of_snoc].
        destruct (entry_of_snoc l x s Hs_ent) as (H1 & (b0 & Hf & Hrec & Hhd) & Hmem).
        split_and!; cbn [s_id s_rec s_blocks]; [done | |].
        -- exists b0. split_and!; try done. by destruct (s_blocks s).
        -- apply Forall_app. split; [done|]. constructor; [|constructor].
           split; [|congruence]. apply elem_of_app. right. left.
      * done.
      * intros b id' Hin Hb.
        apply elem_of_app in Hin as [Hin| ->%list_elem_of_singleton]; [eauto|].
        assert (id' = id) as -> by congruence.
        rewrite Hby, fmap_app, fmap_cons, Hs, elem_of_app, elem_of_cons. auto.
Qed.

Lemma pass_keeps (Q : Block → Prop) `{!∀ b, Decision (Q b)}
    (horizon : DateTime) (p : Pass) (data : Series) :
  (∀ b, Q b → recurrence_id b ≠ Some (s_id data)) →
  r_id (s_rec data) = s_id data → s_id data ≠ "" →
  Forall (λ b, recurrence_id b = Some (s_id data)) (s_blocks data) →
  filter Q (p_blocks (extend_series nid now horizon p data)) = filter Q (p_blocks p).
Proof.
  intros HQ Hrid Hne Hmem. unfold extend_series. cbv zeta.
  destruct (startDate (s_rec data)) as [a|]; [|done].
  set (w0 := {| w_pass := _ |}). set (cs := cursors _ _).
  set (I := λ w : Walk,
         filter Q (p_blocks (w_pass w)) = filter Q (p_blocks p)
         ∧ Forall (λ b, recurrence_id b = Some (s_id data)) (w_members w)).
  assert (Hw : I (foldl (materialize nid (s_rec data)) w0 cs)).
  { apply foldl_invariant_in; [|by split].
    intros w c _ [Hf Hm].
    destruct (materialize_cases (s_rec data) w c)
      as [->|(_ & b & -> & _ & _ & _ & _ & Hrec & _)]; [by split|].
    assert (Hb : recurrence_id b = Some (s_id data)).
    { unfold recurrence_id. rewrite Hrec, Hrid. by rewrite bool_decide_eq_false_2. }
    split; cbn [w_pass w_members p_blocks].
    - rewrite filter_app, filter_cons_False, filter_nil, app_nil_r; [done|].
      intros Hq. by apply (HQ b Hq).
    - apply Forall_app. split; [done|]. by constructor. }
  destruct Hw as [Hf Hm]. unfold prune.
  destruct (until (s_rec data)) as [[u|]|]; [|done|done].
  apply (foldl_invariant_in (λ q, filter Q (p_blocks q) = filter Q (p_blocks p)));
    [|done].
  intros q blk Hin Hq. destruct (endOfDay _ <? _); [|done].
  destruct (remove_block_cases q blk) as [->|(idx & Hidx & ->)]; [done|].
  cbn [p_blocks]. rewrite <- Hq. apply (filter_delete_other _ _ _ blk); [done|].
  intros HQb. apply (HQ blk HQb). by apply (proj1 (Forall_forall _ _) Hm).
Qed.

Lemma passes_keep (Q : Block → Prop) `{!∀ b, Decision (Q b)}
    (horizon : DateTime) (blocks : list Block) (byId : list Series) (p : Pass) :
  Forall (entry_of blocks) byId →
  (∀ b, Q b → Forall (λ s, recurrence_id b ≠ Some (s_id s)) byId) →
  filter Q (p_blocks (foldl (extend_series nid now horizon) p byId)) = filter Q (p_blocks p).
Proof.
  revert p. induction byId as [|s byId IH]; intros p Hent HQ; cbn [foldl]; [done|].
  apply Forall_cons in Hent as [(Hrid & (b0 & (i & (_ & Hb0 & _)%list_find_Some) & _) & Hmem)
                                  Hent].
  rewrite IH; [|done|intros b Hb; by destruct (proj1 (Forall_cons _ _ _) (HQ b Hb))].
  apply pass_keeps; [|done| |].
  - intros b Hb. by destruct (proj1 (Forall_cons _ _ _) (HQ b Hb)).
  - by destruct (recurrence_id_Some _ _ Hb0) as (_ & _ & _ & ?).
  - eapply Forall_impl; [exact Hmem|]. by intros b [_ ?].
Qed.

End RecurringFacts.

(** X28: the pass over the recurring blocks never touches a block that
    belongs to no series: those blocks stay as they are and in their order,
    and an array without any series is returned as it is, without reading
    the clock.  When the pass reports no change the array is unchanged, so
    that after loadBlocks the file always holds the array returned. *)
Theorem extend_leaves_other_blocks
    (nid : string → nat → string) (now : nat → DateTime) (n : nat) (blocks : list Block) :
  let p := extendRecurringBlocks nid now n blocks in
  filter (λ b, recurrence_id b = None) (p_blocks p)
  = filter (λ b, recurrence_id b = None) blocks
  ∧ (p_mutated p = false → p_blocks p = blocks)
  ∧ (Forall (λ b, recurrence_id b = None) blocks →
     p = {| p_blocks := blocks; p_tick := n; p_mutated := false |})
  ∧ loadBlocks nid now n blocks = (p_blocks p, p_blocks p, p_tick p).
Proof.
  cbv zeta.
  assert (Hmut : p_mutated (extendRecurringBlocks nid now n blocks) = false →
                 p_blocks (extendRecurringBlocks nid now n blocks) = blocks).
  { unfold extendRecurringBlocks. destruct (group_by_series blocks) as [|s byId]; [done|].
    intros H. by destruct (unflagged_passes nid now _ _ _ H) as [-> _]. }
  split_and!.
  - unfold extendRecurringBlocks.
    destruct (group_by_series_spec blocks) as (Hent & _ & _).
    destruct (group_by_series blocks) as [|s byId] eqn:Hg; [done|].
    cbv zeta. rewrite (passes_keep nid now _ _ blocks); [done | done |].
    intros b Hb. apply Forall_forall. intros s' _. congruence.
  - exact Hmut.
  - intros Hnone. unfold extendRecurringBlocks.
    destruct (group_by_series_spec blocks) as (Hent & _ & _).
    destruct (group_by_series blocks) as [|s byId]; [done|].
    apply Forall_cons in Hent
      as [(_ & (b0 & (i & (Hi & Hb0 & _)%list_find_Some) & _) & _) _].
    apply list_elem_of_lookup_2 in Hi.
    pose proof (proj1 (Forall_forall _ _) Hnone b0 Hi). congruence.
  - unfold loadBlocks. cbv zeta.
    destruct (p_mutated (extendRecurringBlocks nid now n blocks)) eqn:Hm; [done|].
    by rewrite (Hmut eq_refl).
Qed.

Section RecurringCoverage.

Variable nid : string → nat → string.
Variable now : nat → DateTime.

Lemma walk_keeps_dates (rec : BlockRecurrence) (cs : list DateTime) (w : Walk) (x : Z) :
  x ∈ w_existing w → x ∈ w_existing (foldl (materialize nid rec) w cs).
Proof.
  apply (foldl_invariant_in (λ w', x ∈ w_existing w')). intros w' c _ Hx.
  destruct (materialize_cases nid rec w' c) as [->|(_ & b & -> & _)]; [done|].
  cbn [w_existing]. apply elem_of_app. by left.
Qed.

Lemma walk_records (rec : BlockRecurrence) (cs : list DateTime) (w : Walk) (c : DateTime) :
  c ∈ cs → shouldIncludeDate rec c = true →
  toISODate c ∈ w_existing (foldl (materialize nid rec) w cs).
Proof.
  intros Hin Hinc. revert w. induction cs as [|c' cs IH]; intros w.
  - by apply elem_of_nil in Hin.
  - cbn [foldl]. apply elem_of_cons in Hin as [<-|Hin]; [|by apply IH].
    apply walk_keeps_dates. unfold materialize. rewrite Hinc. cbn [andb].
    destruct (includes (w_existing w) (toISODate c)) eqn:Hex; cbn [negb].
    + by apply includes_elem_of.
    + cbn [w_existing]. apply elem_of_app. right. left.
Qed.

Lemma elem_of_delete_other {A} (l : list A) (i : nat) (x b : A) :
  b ∈ l → l !! i = Some x → x ≠ b → b ∈ delete i l.
Proof.
  intros Hb Hi Hne. apply list_elem_of_lookup in Hb as [j Hj].
  apply list_elem_of_lookup.
  destruct (decide (j < i)%nat).
  - exists j. by rewrite list_lookup_delete_lt.
  - assert (j ≠ i) by congruence. exists (pred j).
    rewrite list_lookup_delete_ge by lia. by replace (S (pred j)) with j by lia.
Qed.

Lemma day_start_date (day k : Z) :
  toISODate (plus_days (ofISODate day) k) = day + k
  ∧ plus_days (ofISODate day) k = ofISODate (day + k).
Proof.
  unfold toISODate, plus_days, ofISODate, MS_PER_DAY. split; [|lia].
  Z.div_mod_to_equations. lia.
Qed.

Lemma starts_on_day (day sm : Z) :
  0 <= sm < MINUTES_PER_DAY →
  toISODate (plus_minutes (ofISODate day) (inject_Z sm)) = day.
Proof.
  intros Hsm. rewrite plus_minutes_Z.
  unfold toISODate, ofISODate, MS_PER_DAY, MS_PER_MINUTE, MINUTES_PER_DAY in *.
  Z.div_mod_to_equations. lia.
Qed.

Lemma not_after_day (t : DateTime) (u : Z) :
  toISODate t <= u ↔ ¬ (endOfDay (ofISODate u) < t).
Proof.
  unfold endOfDay, startOfDay, toISODate, ofISODate, MS_PER_DAY.
  Z.div_mod_to_equations. lia.
Qed.

Lemma extendRecurringBlocks_groups (n : nat) (blocks : list Block) :
  group_by_series blocks ≠ [] →
  extendRecurringBlocks nid now n blocks
  = foldl (extend_series nid now (startOfDay (plus_days (now n) 35)))
          {| p_blocks := blocks; p_tick := S n; p_mutated := false |}
          (group_by_series blocks).
Proof. unfold extendRecurringBlocks. by destruct (group_by_series blocks). Qed.

End RecurringCoverage.

(** X29: after the pass, every day of the window on which the rule of a
    series recurs has a block of the series.  The rule is that of the first
    block of the series in the array; the window runs from the later of the
    anchor and seven days before today to 35 days after today.  The block is
    one that was there, or a new one that starts on the day at the start
    minute of the rule, lasts the duration of the rule, is planned, and
    carries the rule and the title and task of that first block. *)
Theorem extend_covers_the_window
    (nid : string → nat → string) (now : nat → DateTime) (n : nat) (blocks : list Block)
    (id : string) (b0 : Block) (rec : BlockRecurrence) (today d : Z) :
  first_of_series blocks id b0 →
  recurrence b0 = Some rec →
  (∀ k, toISODate (now k) = today) →
  0 <= default 0 (startMinute rec) < MINUTES_PER_DAY →
  today - 7 <= d <= today + 35 →
  shouldIncludeDate rec (ofISODate d) = true →
  ∃ b, b ∈ p_blocks (extendRecurringBlocks nid now n blocks)
       ∧ recurrence_id b = Some id
       ∧ toISODate (start b) = d
       ∧ (b ∈ blocks
          ∨ start b = ofISODate d + default 0 (startMinute rec) * MS_PER_MINUTE
            ∧ end_ b = plus_minutes (start b) (duration rec)
            ∧ status b = planned ∧ rev b = 1 ∧ recurrence b = Some rec
            ∧ title b = title b0 ∧ task_id b = task_id b0).
Proof.
  intros [i Hfirst] Hrec Htoday Hsm Hwin Hinc.
  pose proof Hfirst as (Hi & Hb0 & _)%list_find_Some.
  apply list_elem_of_lookup_2 in Hi.
  destruct (recurrence_id_Some _ _ Hb0) as (r & Hr & Hrid & Hne).
  assert (r = rec) as -> by congruence.
  destruct (startDate rec) as [a|] eqn:Ha;
    [|unfold shouldIncludeDate in Hinc; by rewrite Ha in Hinc].
  pose proof (proj1 (shouldIncludeDate_char rec (ofISODate d) a Ha) Hinc)
    as (Had & Huntil & _). cbv zeta in Had, Huntil.
  rewrite toISODate_ofISODate in Had, Huntil.
  set (good := λ b : Block,
         recurrence_id b = Some id ∧ toISODate (start b) = d
         ∧ (b ∈ blocks
            ∨ start b = ofISODate d + default 0 (startMinute rec) * MS_PER_MINUTE
              ∧ end_ b = plus_minutes (start b) (duration rec)
              ∧ status b = planned ∧ rev b = 1 ∧ recurrence b = Some rec
              ∧ title b = title b0 ∧ task_id b = task_id b0)).
  enough (∃ b, b ∈ p_blocks (extendRecurringBlocks nid now n blocks) ∧ good b)
    as (b & Hb & Hg1 & Hg2 & Hg3) by (exists b; done).
  destruct (group_by_series_spec blocks) as (Hent & Hnd & Hall).
  pose proof (Hall b0 id Hi Hb0) as Hs.
  apply list_elem_of_fmap in Hs as (s & Hsid & Hs).
  apply list_elem_of_split in Hs as (pre & post & Hby).
  rewrite extendRecurringBlocks_groups by (rewrite Hby; by destruct pre).
  rewrite Hby in Hent, Hnd |- *.
  rewrite foldl_app. cbn [foldl].
  set (horizon := startOfDay (plus_days (now n) 35)).
  set (p1 := foldl (extend_series nid now horizon) _ pre).
  apply Forall_app in Hent as [Hpre Hrest]. apply Forall_cons in Hrest as [Hs_ent Hpost].
  rewrite fmap_app, fmap_cons in Hnd.
  apply NoDup_app in Hnd as (_ & Hnpre & Hnd). apply NoDup_cons in Hnd as [Hnpost _].
  destruct Hs_ent as (Hsrid & (b0' & (i' & Hfirst') & Hrec' & Hhd) & Hmem).
  rewrite <- Hsid in Hfirst'. rewrite Hfirst in Hfirst'. injection Hfirst' as _ <-.
  assert (s_rec s = rec) as Hsrec by congruence.
  (* the blocks of the series are still there when its turn comes *)
  assert (Hother : ∀ l, l = pre ∨ l = post → ∀ b, recurrence_id b = Some id →
            Forall (λ s', recurrence_id b ≠ Some (s_id s')) l).
  { intros l Hl b Hb. apply Forall_forall. intros s' Hs' Hbs'.
    assert (s_id s' = id) as Heq by congruence.
    destruct Hl as [-> | ->].
    - apply (Hnpre (s_id s')); [by apply list_elem_of_fmap_2|]. rewrite Heq, Hsid. left.
    - apply Hnpost. rewrite <- Hsid, <- Heq. by apply list_elem_of_fmap_2. }
  assert (Hp1 : filter (λ b, recurrence_id b = Some id) (p_blocks p1)
                = filter (λ b, recurrence_id b = Some id) blocks).
  { unfold p1. rewrite (passes_keep nid now _ _ blocks); [done | done |].
    by apply Hother; left. }
  (* the turn of the series *)
  assert (Hown : ∃ b, b ∈ p_blocks (extend_series nid now horizon p1 s) ∧ good b).
  { unfold extend_series. cbv zeta. rewrite Hsrec, Ha.
    set (w0 := {| w_pass := _ |}). set (cs := cursors _ _).
    assert (Hcs : ∀ c, c ∈ cs → c = ofISODate (toISODate c)).
    { intros c (k & Hk & -> & _)%cursors_spec.
      assert (∃ day, (if startOfDay (ofISODate a)
                         <? startOfDay (plus_days (now (p_tick p1)) (-7))
                      then startOfDay (plus_days (now (p_tick p1)) (-7))
                      else startOfDay (ofISODate a)) = ofISODate day) as [day ->].
      { destruct (_ <? _); unfold startOfDay; eauto. }
      destruct (day_start_date day k) as [-> ->]. done. }
    assert (Hd : ofISODate d ∈ cs).
    { apply cursors_spec. unfold horizon.
      pose proof (Htoday (p_tick p1)) as H7. pose proof (Htoday n) as H35.
      unfold startOfDay, plus_days, toISODate, ofISODate, MS_PER_DAY in *.
      destruct (_ <? _) eqn:E.
      - exists (d - (now (p_tick p1) + -7 * 86400000) / 86400000).
        Z.div_mod_to_equations. lia.
      - exists (d - a * 86400000 / 86400000). Z.div_mod_to_equations. lia. }
    set (I := λ w : Walk,
           head (w_members w) = Some b0
           ∧ (d ∈ w_existing w → ∃ b, b ∈ p_blocks (w_pass w) ∧ good b)).
    assert (Hw : I (foldl (materialize nid rec) w0 cs)).
    { apply foldl_invariant_in.
      - intros w c Hc [Hhead Hex].
        destruct (materialize_cases nid rec w c)
          as [->|(_ & b & -> & Hst & Hen & Hpl & Hrv & Hrc & Hti & Hta & _)];
          [by split|].
        split; cbn [w_members w_existing w_pass p_blocks].
        + by destruct (w_members w).
        + intros [Hold | ->%list_elem_of_singleton]%elem_of_app.
          * destruct (Hex Hold) as (b' & Hb' & Hg). exists b'. split; [|done].
            apply elem_of_app. by left.
          * exists b. split; [apply elem_of_app; right; left|].
            rewrite Hhead in Hti, Hta. rewrite (Hcs c Hc) in Hst.
            split_and!.
            -- unfold recurrence_id. rewrite Hrc, Hrid. by rewrite bool_decide_eq_false_2.
            -- rewrite Hst. by apply starts_on_day.
            -- right. split_and!; try done. by rewrite Hst, plus_minutes_Z.
      - split; [done|]. cbn [w0 w_existing w_pass p_blocks].
        intros (m & Hdate & Hm)%list_elem_of_fmap.
        destruct (proj1 (Forall_forall _ _) Hmem m Hm) as [Hmin Hmid].
        rewrite <- Hsid in Hmid. exists m. split; [|by split_and!; auto].
        assert (m ∈ filter (λ b, recurrence_id b = Some id) (p_blocks p1)) as Hmf.
        { rewrite Hp1. by apply list_elem_of_filter. }
        by apply list_elem_of_filter in Hmf as [_ ?]. }
    destruct Hw as [_ Hw].
    destruct Hw as (b & Hb & Hg).
    { rewrite <- (toISODate_ofISODate d). by apply walk_records. }
    exists b. split; [|done]. unfold prune.
    destruct (until rec) as [[u|]|] eqn:Hu; [|done|done].
    apply (foldl_invariant_in (λ q, b ∈ p_blocks q)); [|done].
    intros q blk _ Hq. destruct (endOfDay _ <? _) eqn:E; [|done].
    apply Z.ltb_lt in E.
    destruct (remove_block_cases q blk) as [->|(idx & Hidx & ->)]; [done|].
    cbn [p_blocks]. apply (elem_of_delete_other _ _ blk); [done | done |].
    intros ->. destruct Hg as (_ & Hdate & _).
    apply (proj1 (not_after_day (start b) u)); [|done]. rewrite Hdate. by apply Huntil. }
  (* the turns of the series that follow *)
  destruct Hown as (b & Hb & Hg). exists b. split; [|done].
  assert (Hbf : b ∈ filter (λ b, recurrence_id b = Some id)
                      (p_blocks (extend_series nid now horizon p1 s))).
  { apply list_elem_of_filter. split; [apply Hg | done]. }
  rewrite <- (passes_keep nid now (λ b, recurrence_id b = Some id) horizon blocks post) in Hbf;
    [|done|by apply Hother; right].
  by apply list_elem_of_filter in Hbf as [_ ?].
Qed.

Lemma extend_covers_the_window_witness :
  let nid := λ (prefix : string) (n : nat), prefix +:+ "_" +:+ pretty n in
  let now := λ _ : nat, at_ 2024 1 3 12 0 in
  let rule := sample_rule "r" (civil 2024 1 1) 2 in
  let a := sample_block "a" (at_ 2024 1 1 9 0) (at_ 2024 1 1 10 0) planned (Some rule) in
  first_of_series [a] "r" a
  ∧ recurrence a = Some rule
  ∧ (∀ k, toISODate (now k) = civil 2024 1 3)
  ∧ 0 <= default 0 (startMinute rule) < MINUTES_PER_DAY
  ∧ civil 2024 1 3 - 7 <= civil 2024 1 5 <= civil 2024 1 3 + 35
  ∧ shouldIncludeDate rule (ofISODate (civil 2024 1 5)) = true
  ∧ ∃ b, b ∈ p_blocks (extendRecurringBlocks nid now 0 [a])
         ∧ recurrence_id b = Some "r"
         ∧ toISODate (start b) = civil 2024 1 5.
Proof.
  intros nid now rule a.
  assert (H1 : first_of_series [a] "r" a) by (by exists 0%nat).
  assert (H3 : ∀ k, toISODate (now k) = civil 2024 1 3) by (intros; reflexivity).
  assert (H4 : 0 <= default 0 (startMinute rule) < MINUTES_PER_DAY) by (by vm_compute).
  assert (H5 : civil 2024 1 3 - 7 <= civil 2024 1 5 <= civil 2024 1 3 + 35)
    by (by vm_compute).
  do 6 (split; [first [exact H1 | exact H3 | exact H4 | exact H5 | reflexivity]|]).
  destruct (extend_covers_the_window nid now 0 [a] "r" a rule (civil 2024 1 3)
              (civil 2024 1 5) H1 eq_refl H3 H4 H5 eq_refl) as (b & Hb & Hid & Hd & _).
  exists b. done.
Defined.

(** Deleting the new block from the array that createBlock left gives
    back the array as it was, with either scope, provided that the new id
    was not in use and that no block of the array belongs to the series of
    the new block. *)
Lemma deleteBlock_of_the_created_block
    (nid : string → nat → string) (n : nat) (blocks : list Block) (data : NewBlock) :
  findBlock blocks (nid "blk" n) = None →
  (∀ r, nb_recurrence data = Some r → Forall (λ o, in_series (r_id r) o = false) blocks) →
  ∃ created,
    createBlock nid n blocks data = (blocks ++ [created], nid "blk" n)
    ∧ status created = planned ∧ rev created = 1
    ∧ deleteBlock (blocks ++ [created]) (nid "blk" n) single = Return blocks
    ∧ deleteBlock (blocks ++ [created]) (nid "blk" n) series = Return blocks.
Proof.
  intros Hfresh Hlone. unfold createBlock. cbv zeta. eexists. split; [reflexivity|].
  set (created := {| block_id := nid "blk" n |}).
  assert (Hfind : findBlock (blocks ++ [created]) (nid "blk" n)
                  = Some (length blocks, created)).
  { unfold findBlock in *. rewrite (list_find_app_r _ _ _ Hfresh). cbn [list_find].
    rewrite decide_True by done. reflexivity. }
  assert (Hdel : delete (length blocks) (blocks ++ [created]) = blocks).
  { by rewrite delete_middle, app_nil_r. }
  split_and!; [done | done | |]; unfold deleteBlock; rewrite Hfind, Hdel.
  - destruct (recurrence_id created) as [recId|] eqn:Hrid; [|done]. cbv zeta.
    rewrite filter_keeps_none; [done|].
    destruct (recurrence_id_Some _ _ Hrid) as (r & Hr & <- & _).
    unfold created in Hr. cbn [recurrence] in Hr.
    destruct (nb_recurrence data) as [r0|] eqn:Hdata; [|done].
    rewrite cloneRecurrence_Some in Hr. injection Hr as <-.
    eapply Forall_impl; [exact (Hlone r0 eq_refl)|]. cbn. intros o ->. done.
  - destruct (recurrence_id created) as [recId|] eqn:Hrid; [|done].
    destruct (recurrence_id_Some _ _ Hrid) as (r & Hr & <- & _).
    pose proof Hr as Hr'. unfold created in Hr'. cbn [recurrence] in Hr'.
    destruct (nb_recurrence data) as [r0|] eqn:Hdata; [|done].
    rewrite cloneRecurrence_Some in Hr'. injection Hr' as <-.
    rewrite filter_app, (filter_keeps_all _ _ (Hlone r0 eq_refl)).
    rewrite filter_cons_False, filter_nil, app_nil_r; [done|].
    unfold in_series. rewrite Hr. by rewrite bool_decide_eq_true_2.
Qed.

(** When the pass over the recurring blocks reports no change, the array is
    the one it was given. *)
Lemma unmutated_pass (nid : string → nat → string) (now : nat → DateTime)
    (n : nat) (blocks : list Block) :
  p_mutated (extendRecurringBlocks nid now n blocks) = false →
  (loadBlocks nid now n blocks).1.1 = blocks.
Proof.
  unfold loadBlocks. cbn [fst]. unfold extendRecurringBlocks.
  destruct (group_by_series blocks) as [|s byId]; [done|].
  intros H. by destruct (unflagged_passes nid now _ _ _ H) as [-> _].
Qed.

(** X8: moving a block and then moving it back to where it started, the
    second call reloading the array that the first one saved: when that
    reload finds nothing to materialize and nothing to prune, the start and
    the end of every block are restored, the members of the series of the
    block included, and the revision of a block is the same or two higher. *)
Theorem moveBlock_there_and_back
    (nid : string → nat → string) (now : nat → DateTime) (n : nat)
    (blocks : list Block) (id : string) (t : DateTime) (i : nat) (b : Block) :
  findBlock blocks id = Some (i, b) →
  ∃ blocks1,
    moveBlock blocks id t = Return blocks1
    ∧ (p_mutated (extendRecurringBlocks nid now n blocks1) = false →
       ∃ blocks2,
         moveBlock (loadBlocks nid now n blocks1).1.1 id (start b) = Return blocks2
         ∧ length blocks2 = length blocks
         ∧ ∀ j o, blocks !! j = Some o →
             ∃ o2, blocks2 !! j = Some o2
                   ∧ block_id o2 = block_id o ∧ status o2 = status o
                   ∧ start o2 = start o ∧ end_ o2 = end_ o
                   ∧ (rev o2 = rev o ∨ rev o2 = rev o + 2)).
Proof.
  intros Hfind.
  destruct (moveBlock_twice blocks id t i b Hfind) as (blocks1 & blocks2 & H1 & H2 & H3 & H4).
  exists blocks1. split; [done|]. intros Hpass.
  rewrite (unmutated_pass nid now n blocks1 Hpass). eauto.
Qed.

Lemma moveBlock_there_and_back_witness :
  let nid := λ (prefix : string) (n : nat), prefix +:+ "_" +:+ pretty n in
  let now := λ _ : nat, at_ 2024 1 1 12 0 in
  let r := Some {| r_id := "r"; r_type := daily; interval := 1; daysOfWeek := None;
                   startDate := Some (civil 2024 1 1); startMinute := Some 540;
                   duration := inject_Z 60; until := Some (Some (civil 2024 1 2));
                   exceptions := None |} in
  let a := sample_block "a" (at_ 2024 1 1 9 0) (at_ 2024 1 1 10 0) planned r in
  let b := sample_block "b" (at_ 2024 1 2 9 0) (at_ 2024 1 2 10 0) planned r in
  findBlock [a; b] "a" = Some (0%nat, a)
  ∧ ∃ blocks1 blocks2,
      moveBlock [a; b] "a" (at_ 2024 1 1 9 30) = Return blocks1
      ∧ start <$> blocks1 = [at_ 2024 1 1 9 30; at_ 2024 1 2 9 30]
      ∧ p_mutated (extendRecurringBlocks nid now 0 blocks1) = false
      ∧ moveBlock (loadBlocks nid now 0 blocks1).1.1 "a" (start a) = Return blocks2
      ∧ start <$> blocks2 = [at_ 2024 1 1 9 0; at_ 2024 1 2 9 0]
      ∧ end_ <$> blocks2 = [at_ 2024 1 1 10 0; at_ 2024 1 2 10 0].
Proof.
  intros nid now r a b. split; [reflexivity|].
  destruct (moveBlock_there_and_back nid now 0 [a; b] "a" (at_ 2024 1 1 9 30) 0 a eq_refl)
    as (blocks1 & H1 & Hback).
  pose proof H1 as H1'. vm_compute in H1'. injection H1' as <-.
  match type of Hback with
  | ?P → _ => assert (Hpass : P) by (by vm_compute)
  end.
  destruct (Hback Hpass) as (blocks2 & H2 & _ & _).
  pose proof H2 as H2'. vm_compute in H2'. injection H2' as <-.
  eexists _, _. split; [exact H1|].
  split; [by vm_compute|]. split; [exact Hpass|]. split; [exact H2|].
  split; by vm_compute.
Defined.

(** X30: deleting a block right after creating it, deleteBlock reloading
    the array that createBlock saved: when that reload finds nothing to
    materialize and nothing to prune, the array is given back as it was,
    with either scope, provided that the new id was not in use and that no
    block of the array belongs to the series of the new block. *)
Theorem createBlock_then_deleteBlock
    (nid : string → nat → string) (now : nat → DateTime) (n k : nat)
    (blocks : list Block) (data : NewBlock) :
  findBlock blocks (nid "blk" n) = None →
  (∀ r, nb_recurrence data = Some r → Forall (λ o, in_series (r_id r) o = false) blocks) →
  ∃ created,
    createBlock nid n blocks data = (blocks ++ [created], nid "blk" n)
    ∧ status created = planned ∧ rev created = 1
    ∧ (p_mutated (extendRecurringBlocks nid now k (blocks ++ [created])) = false →
       ∀ scope, deleteBlock (loadBlocks nid now k (blocks ++ [created])).1.1
                  (nid "blk" n) scope = Return blocks).
Proof.
  intros Hfresh Hlone.
  destruct (deleteBlock_of_the_created_block nid n blocks data Hfresh Hlone)
    as (created & Hc & Hst & Hrev & Hsingle & Hseries).
  exists created. split_and!; [done | done | done |]. intros Hpass scope.
  rewrite (unmutated_pass nid now k _ Hpass). by destruct scope.
Qed.

Lemma createBlock_then_deleteBlock_witness :
  let nid := λ (prefix : string) (n : nat), prefix +:+ "_" +:+ pretty n in
  let now := λ _ : nat, at_ 2024 1 3 12 0 in
  let a := sample_block "a" (at_ 2024 1 1 9 0) (at_ 2024 1 1 10 0) planned None in
  let data := {| nb_task_id := None; nb_title := Some "review"; nb_notes_override := None;
                 nb_start := at_ 2024 1 2 9 0; nb_end := at_ 2024 1 2 10 0;
                 nb_recurrence := None |} in
  findBlock [a] (nid "blk" 3%nat) = None
  ∧ p_mutated (extendRecurringBlocks nid now 4 (createBlock nid 3 [a] data).1) = false
  ∧ deleteBlock (loadBlocks nid now 4 (createBlock nid 3 [a] data).1).1.1
      (createBlock nid 3 [a] data).2 single
    = Return [a].
Proof.
  intros nid now a data. split; [reflexivity|].
  destruct (createBlock_then_deleteBlock nid now 3 4 [a] data eq_refl)
    as (c & Hc & _ & _ & Hdel).
  - intros r [=].
  - rewrite Hc. cbn [fst snd].
    assert (Hpass : p_mutated (extendRecurringBlocks nid now 4 ([a] ++ [c])) = false).
    { pose proof Hc as Hc'. vm_compute in Hc'. injection Hc' as <-. by vm_compute. }
    split; [exact Hpass | exact (Hdel Hpass single)].
Defined.
